(** * Comput3 ComfyUI clients: a shallow embedding of the workflow pipeline

    The development follows the three client scripts of the repository:
    - [Sonic]   : scripts/002-comfyui-script/comfyui_client.py (avatar animation),
    - [HiDream] : scripts/005-text-to-image-HiDream-script/comfyui_client.py,
    - [Wan]     : scripts/006-text-to-video-Wan2.1-Script/comfyui_client.py.

    Python floats are read as the rationals they denote, JSON payloads are
    typed records with [option] fields for key presence, and everything the
    clients obtain from the outside (clock readings, HTTP replies, file
    system failures) is an explicit argument. *)

From Stdlib Require Import ZArith QArith Qround Qabs String Ascii List Lia Lqa.
From stdpp Require Import base option list gmap sets strings.
Import ListNotations.

Open Scope Z_scope.

(** ** Python built-ins used by the clients *)

Module Py.

(** [int(x)] on a float: truncation towards zero. *)
Definition int (x : Q) : Z := Z.quot (Qnum x) (Z.pos (Qden x)).

(** [x % 1] on a float: the result takes the sign of the divisor, so it is
    the distance to the floor. *)
Definition mod1 (x : Q) : Q := (x - inject_Z (Qfloor x))%Q.

(** [a > b], [a <= b] on floats. *)
Definition gt (a b : Q) : bool := if Qlt_le_dec b a then true else false.
Definition le (a b : Q) : bool := if Qlt_le_dec b a then false else true.

(** [min(a, b)]: the first argument unless the second is strictly smaller. *)
Definition min (a b : Q) : Q := if Qlt_le_dec b a then b else a.

(** [abs(x)]. *)
Definition abs (x : Q) : Q := Qabs x.

(** [s.startswith(p)] and [s.endswith(p)]. *)
Fixpoint startswith (s p : string) : bool :=
  match p, s with
  | EmptyString, _ => true
  | String c p', String d s' => if Ascii.eqb c d then startswith s' p' else false
  | String _ _, EmptyString => false
  end.

Definition endswith (s p : string) : bool :=
  let n := String.length s in
  let k := String.length p in
  if (k <=? n)%nat then String.eqb (substring (n - k) k s) p else false.

(** [p in s] for strings: [p] occurs in [s]. *)
Fixpoint contains (s p : string) : bool :=
  startswith s p ||
  match s with
  | EmptyString => false
  | String _ s' => contains s' p
  end.

(** [s.lower()] on ASCII text. *)
Definition lower_ascii (c : ascii) : ascii :=
  let n := nat_of_ascii c in
  if ((65 <=? n) && (n <=? 90))%nat then ascii_of_nat (n + 32) else c.

Fixpoint lower (s : string) : string :=
  match s with
  | EmptyString => EmptyString
  | String c s' => String (lower_ascii c) (lower s')
  end.

(** [s.isdigit()]: non-empty and made of decimal digits. *)
Definition is_digit_ascii (c : ascii) : bool :=
  let n := nat_of_ascii c in ((48 <=? n) && (n <=? 57))%nat.

Fixpoint all_digits (s : string) : bool :=
  match s with
  | EmptyString => true
  | String c s' => is_digit_ascii c && all_digits s'
  end.

Definition isdigit (s : string) : bool :=
  match s with
  | EmptyString => false
  | _ => all_digits s
  end.

(** [int(s)] for a string of decimal digits. *)
Fixpoint int_of_digits (acc : Z) (s : string) : Z :=
  match s with
  | EmptyString => acc
  | String c s' => int_of_digits (10 * acc + (Z.of_nat (nat_of_ascii c) - 48)) s'
  end.

Definition int_of_str (s : string) : Z := int_of_digits 0 s.

(** Truthiness of a string. *)
Definition truthy_str (s : string) : bool :=
  match s with EmptyString => false | _ => true end.

End Py.

(** ** JSON payloads *)

(** A JSON value as [json.loads] delivers it. *)
#[warnings="-register-all"]
Inductive json :=
| JNull
| JBool (b : bool)
| JInt (z : Z)
| JFloat (x : Q)
| JStr (s : string)
| JArr (items : list json)
| JObj (members : list (string * json)).

(** A table written as a dict literal, and [key in table] / [table.get]. *)
Fixpoint table_get {V} (table : list (string * V)) (key : string) : option V :=
  match table with
  | [] => None
  | (k, v) :: rest => if String.eqb k key then Some v else table_get rest key
  end.

(** ** Lists of clock values *)

(** Consecutive elements never decrease. *)
Definition ascending (l : list Q) : Prop :=
  forall i a b, l !! i = Some a -> l !! S i = Some b -> (a <= b)%Q.

(** A cadence: every element is the one before it, or the one before it
    multiplied by [factor] and capped at [cap]; [start] stands before the
    first. *)
Fixpoint cadence (factor cap start : Q) (l : list Q) : Prop :=
  match l with
  | [] => True
  | s :: rest =>
      (s = start \/ s = Py.min cap (start * factor)) /\ cadence factor cap s rest
  end.

(** ** Python objects in a store *)

(** Dicts and lists are mutable and shared by reference; to speak about a
    function that must not change its argument they live in a store, and a
    value is an atom or a reference into it. *)

Module Store.

Definition loc := positive.

Inductive value :=
| VNone
| VBool (b : bool)
| VInt (z : Z)
| VFloat (x : Q)
| VStr (s : string)
| VRef (l : loc).

(** A dict keeps its items in insertion order, keys being atoms. *)
Inductive object :=
| ODict (items : list (value * value))
| OList (items : list value).

Abbreviation heap := (gmap loc object).

Inductive exn :=
| TypeError
| AttributeError
| KeyError
| IndexError
| ValueError
| RecursionError
| SystemError.                          (* a reference to nothing *)

Inductive outcome (A : Type) :=
| Ok (a : A)
| Exc (e : exn).
Arguments Ok {A} a.
Arguments Exc {A} e.

(** *** Atoms *)

(** The number an int, a bool or a float stands for. *)
Definition number_of (v : value) : option Q :=
  match v with
  | VBool b => Some (if b then 1 else 0)%Q
  | VInt z => Some (inject_Z z)
  | VFloat x => Some x
  | _ => None
  end.

(** [a == b] on atoms: numbers compare by value across int, bool and
    float. *)
Definition atom_eqb (a b : value) : bool :=
  match a, b with
  | VNone, VNone => true
  | VStr s, VStr t => String.eqb s t
  | _, _ =>
      match number_of a, number_of b with
      | Some x, Some y => Qeq_bool x y
      | _, _ => false
      end
  end.

(** [v == "literal"]. *)
Definition eq_str (v : value) (s : string) : bool :=
  match v with
  | VStr t => String.eqb t s
  | _ => false
  end.

Definition is_ref (v : value) : bool :=
  match v with VRef _ => true | _ => false end.

(** *** Dict items *)

Fixpoint dict_get (items : list (value * value)) (k : value) : option value :=
  match items with
  | [] => None
  | (k', v) :: rest => if atom_eqb k' k then Some v else dict_get rest k
  end.

(** [d[k] = v]: an existing key keeps its place. *)
Fixpoint dict_set (items : list (value * value)) (k v : value)
    : list (value * value) :=
  match items with
  | [] => [(k, v)]
  | (k', v') :: rest =>
      if atom_eqb k' k then (k', v) :: rest else (k', v') :: dict_set rest k v
  end.

(** [d.update({k1: v1, ...})]. *)
Definition dict_update (items entries : list (value * value))
    : list (value * value) :=
  fold_left (fun acc kv => dict_set acc (fst kv) (snd kv)) entries items.

(** [l[i]] and [l[i] = v] with Python's negative indices. *)
Definition list_index {A} (items : list A) (i : Z) : option nat :=
  let n := Z.of_nat (length items) in
  if (0 <=? i) && (i <? n) then Some (Z.to_nat i)
  else if (i <? 0) && (0 <=? i + n) then Some (Z.to_nat (i + n))
  else None.

(** *** Programs over the store *)

Definition M (A : Type) : Type := heap -> outcome A * heap.

Definition ret {A} (a : A) : M A := fun h => (Ok a, h).

Definition raise {A} (e : exn) : M A := fun h => (Exc e, h).

Definition bind {A B} (m : M A) (f : A -> M B) : M B :=
  fun h =>
    match m h with
    | (Ok a, h') => f a h'
    | (Exc e, h') => (Exc e, h')
    end.

(** An operation that only looks at the store. *)
Definition read {A} (f : heap -> outcome A) : M A := fun h => (f h, h).

(** A new object, at a location not in use. *)
Definition alloc (o : object) : M loc :=
  fun h => let l := fresh (dom h) in (Ok l, <[l := o]> h).

(** An in-place change of the object at [l]. *)
Definition modify (l : loc) (g : object -> outcome object) : M unit :=
  fun h =>
    match h !! l with
    | Some o =>
        match g o with
        | Ok o' => (Ok tt, <[l := o']> h)
        | Exc e => (Exc e, h)
        end
    | None => (Exc SystemError, h)
    end.

Notation "x <- m ;; k" := (bind m (fun x => k))
  (at level 100, m at next level, right associativity).
Notation "m ;;; k" := (bind m (fun _ => k))
  (at level 100, right associativity).

(** [for x in xs: body(x)] over the items the loop was started with. *)
Fixpoint for_each {A} (xs : list A) (body : A -> M unit) : M unit :=
  match xs with
  | [] => ret tt
  | x :: rest => body x ;;; for_each rest body
  end.

(** *** Built-ins *)

Definition nonempty {A} (l : list A) : bool :=
  match l with [] => false | _ => true end.

Definition lookup_object (h : heap) (l : loc) : outcome object :=
  match h !! l with
  | Some o => Ok o
  | None => Exc SystemError
  end.

(** Truthiness. *)
Definition truthy_pure (h : heap) (v : value) : outcome bool :=
  match v with
  | VNone => Ok false
  | VBool b => Ok b
  | VInt z => Ok (negb (z =? 0))
  | VFloat x => Ok (negb (Qeq_bool x 0))
  | VStr s => Ok (Py.truthy_str s)
  | VRef l =>
      match lookup_object h l with
      | Ok (ODict items) => Ok (nonempty items)
      | Ok (OList items) => Ok (nonempty items)
      | Exc e => Exc e
      end
  end.
Definition truthy (v : value) : M bool := read (fun h => truthy_pure h v).

(** [isinstance(v, list)] and [isinstance(v, dict)]. *)
Definition isinstance_pure (want_dict : bool) (h : heap) (v : value) : outcome bool :=
  match v with
  | VRef l =>
      match lookup_object h l with
      | Ok (ODict _) => Ok want_dict
      | Ok (OList _) => Ok (negb want_dict)
      | Exc e => Exc e
      end
  | _ => Ok false
  end.
Definition isinstance_list (v : value) : M bool := read (fun h => isinstance_pure false h v).
Definition isinstance_dict (v : value) : M bool := read (fun h => isinstance_pure true h v).

(** [x.get(k)] and [x.get(k, default)], for a dict only. *)
Definition get_pure (h : heap) (x : value) (k : string) (otherwise : value)
    : outcome value :=
  match x with
  | VRef l =>
      match lookup_object h l with
      | Ok (ODict items) => Ok (default otherwise (dict_get items (VStr k)))
      | Ok (OList _) => Exc AttributeError
      | Exc e => Exc e
      end
  | _ => Exc AttributeError
  end.
Definition get (x : value) (k : string) : M value :=
  read (fun h => get_pure h x k VNone).
Definition get_default (x : value) (k : string) (otherwise : value) : M value :=
  read (fun h => get_pure h x k otherwise).

(** [x[k]] for a string key. *)
Definition getitem_str_pure (h : heap) (x : value) (k : string) : outcome value :=
  match x with
  | VRef l =>
      match lookup_object h l with
      | Ok (ODict items) =>
          match dict_get items (VStr k) with
          | Some v => Ok v
          | None => Exc KeyError
          end
      | Ok (OList _) => Exc TypeError
      | Exc e => Exc e
      end
  | _ => Exc TypeError
  end.
Definition getitem_str (x : value) (k : string) : M value :=
  read (fun h => getitem_str_pure h x k).

(** [x[i]] for an integer. *)
Definition getitem_int_pure (h : heap) (x : value) (i : Z) : outcome value :=
  match x with
  | VRef l =>
      match lookup_object h l with
      | Ok (ODict items) =>
          match dict_get items (VInt i) with
          | Some v => Ok v
          | None => Exc KeyError
          end
      | Ok (OList items) =>
          match list_index items i with
          | Some n =>
              match nth_error items n with
              | Some v => Ok v
              | None => Exc IndexError
              end
          | None => Exc IndexError
          end
      | Exc e => Exc e
      end
  | VStr s =>
      match list_index (list_ascii_of_string s) i with
      | Some n => Ok (VStr (substring n 1 s))
      | None => Exc IndexError
      end
  | _ => Exc TypeError
  end.
Definition getitem_int (x : value) (i : Z) : M value :=
  read (fun h => getitem_int_pure h x i).

(** [k in x] for a string [k]: a key of a dict, an element of a list, a
    substring of a string. *)
Definition contains_pure (h : heap) (k : string) (x : value) : outcome bool :=
  match x with
  | VRef l =>
      match lookup_object h l with
      | Ok (ODict items) =>
          Ok (match dict_get items (VStr k) with Some _ => true | None => false end)
      | Ok (OList items) => Ok (existsb (fun v => eq_str v k) items)
      | Exc e => Exc e
      end
  | VStr s => Ok (Py.contains s k)
  | _ => Exc TypeError
  end.
Definition contains (k : string) (x : value) : M bool :=
  read (fun h => contains_pure h k x).

(** [len(x)]. *)
Definition len_pure (h : heap) (x : value) : outcome Z :=
  match x with
  | VRef l =>
      match lookup_object h l with
      | Ok (ODict items) => Ok (Z.of_nat (length items))
      | Ok (OList items) => Ok (Z.of_nat (length items))
      | Exc e => Exc e
      end
  | VStr s => Ok (Z.of_nat (String.length s))
  | _ => Exc TypeError
  end.
Definition len (x : value) : M Z := read (fun h => len_pure h x).

(** The items a [for] loop over [x] visits: the elements of a list, the
    keys of a dict, the characters of a string. *)
Definition chars (s : string) : list value :=
  map (fun c => VStr (String c EmptyString)) (list_ascii_of_string s).

Definition iterate_pure (h : heap) (x : value) : outcome (list value) :=
  match x with
  | VRef l =>
      match lookup_object h l with
      | Ok (ODict items) => Ok (map fst items)
      | Ok (OList items) => Ok items
      | Exc e => Exc e
      end
  | VStr s => Ok (chars s)
  | _ => Exc TypeError
  end.
Definition iterate (x : value) : M (list value) := read (fun h => iterate_pure h x).

(** The values of [x.items()]. *)
Definition dict_values_pure (h : heap) (x : value) : outcome (list value) :=
  match x with
  | VRef l =>
      match lookup_object h l with
      | Ok (ODict items) => Ok (map snd items)
      | Ok (OList _) => Exc AttributeError
      | Exc e => Exc e
      end
  | _ => Exc AttributeError
  end.
Definition dict_values (x : value) : M (list value) :=
  read (fun h => dict_values_pure h x).

(** [x[k] = v]: a key of a dict must be an atom, an index of a list an
    integer in range. *)
Definition setitem_object (k v : value) (o : object) : outcome object :=
  match o with
  | ODict items =>
      if is_ref k then Exc TypeError else Ok (ODict (dict_set items k v))
  | OList items =>
      match k with
      | VInt i =>
          match list_index items i with
          | Some n => Ok (OList (<[n := v]> items))
          | None => Exc IndexError
          end
      | VBool b =>
          match list_index items (if b then 1 else 0) with
          | Some n => Ok (OList (<[n := v]> items))
          | None => Exc IndexError
          end
      | _ => Exc TypeError
      end
  end.

Definition setitem (x k v : value) : M unit :=
  match x with
  | VRef l => modify l (setitem_object k v)
  | _ => raise TypeError
  end.

(** [x.update({...})] with string keys. *)
Definition update_object (entries : list (value * value)) (o : object)
    : outcome object :=
  match o with
  | ODict items => Ok (ODict (dict_update items entries))
  | OList _ => Exc AttributeError
  end.

Definition update (x : value) (entries : list (string * value)) : M unit :=
  match x with
  | VRef l => modify l (update_object (map (fun kv => (VStr (fst kv), snd kv)) entries))
  | _ => raise AttributeError
  end.

(** [a == b] in general: atoms as above, containers by content, the same
    object being equal to itself. [RecursionError] when the store is too
    deep for the fuel, which only a cyclic structure exhausts. *)
Fixpoint eq_pure (fuel : nat) (h : heap) (a b : value) : outcome bool :=
  match a, b with
  | VRef la, VRef lb =>
      if Pos.eqb la lb then Ok true
      else
        match fuel with
        | O => Exc RecursionError
        | S fuel' =>
            match lookup_object h la, lookup_object h lb with
            | Ok (OList xs), Ok (OList ys) =>
                (fix all2 (xs ys : list value) : outcome bool :=
                   match xs, ys with
                   | [], [] => Ok true
                   | x :: xs', y :: ys' =>
                       match eq_pure fuel' h x y with
                       | Ok true => all2 xs' ys'
                       | r => r
                       end
                   | _, _ => Ok false
                   end) xs ys
            | Ok (ODict xs), Ok (ODict ys) =>
                if negb (length xs =? length ys)%nat then Ok false
                else
                  (fix every (xs : list (value * value)) : outcome bool :=
                     match xs with
                     | [] => Ok true
                     | (k, x) :: xs' =>
                         match dict_get ys k with
                         | Some y =>
                             match eq_pure fuel' h x y with
                             | Ok true => every xs'
                             | r => r
                             end
                         | None => Ok false
                         end
                     end) xs
            | Ok _, Ok _ => Ok false
            | Exc e, _ => Exc e
            | _, Exc e => Exc e
            end
        end
  | VRef _, _ => Ok false
  | _, VRef _ => Ok false
  | _, _ => Ok (atom_eqb a b)
  end.

Definition equal (a b : value) : M bool :=
  read (fun h => eq_pure (S (size h)) h a b).

(** *** [json.dumps] and [json.loads] *)

(** The serialized text is identified with the JSON value it denotes.
    Keys that are not strings are written as text; [float_repr] is the text
    of a float. *)
Section Json.

Variable float_repr : Q -> string.

Definition key_text (k : value) : option string :=
  match k with
  | VStr s => Some s
  | VInt z => Some (pretty.pretty z)
  | VBool b => Some (if b then "true" else "false")
  | VNone => Some "null"
  | VFloat x => Some (float_repr x)
  | VRef _ => None
  end.

(** [ValueError] on a circular structure, which is what exhausts the fuel. *)
Fixpoint dumps_pure (fuel : nat) (h : heap) (v : value) : outcome json :=
  match v with
  | VNone => Ok JNull
  | VBool b => Ok (JBool b)
  | VInt z => Ok (JInt z)
  | VFloat x => Ok (JFloat x)
  | VStr s => Ok (JStr s)
  | VRef l =>
      match fuel with
      | O => Exc ValueError
      | S fuel' =>
          match lookup_object h l with
          | Ok (OList items) =>
              match
                (fix each (items : list value) : outcome (list json) :=
                   match items with
                   | [] => Ok []
                   | x :: rest =>
                       match dumps_pure fuel' h x with
                       | Ok j =>
                           match each rest with
                           | Ok js => Ok (j :: js)
                           | Exc e => Exc e
                           end
                       | Exc e => Exc e
                       end
                   end) items
              with
              | Ok js => Ok (JArr js)
              | Exc e => Exc e
              end
          | Ok (ODict items) =>
              match
                (fix each (items : list (value * value))
                   : outcome (list (string * json)) :=
                   match items with
                   | [] => Ok []
                   | (k, x) :: rest =>
                       match key_text k with
                       | Some s =>
                           match dumps_pure fuel' h x with
                           | Ok j =>
                               match each rest with
                               | Ok js => Ok ((s, j) :: js)
                               | Exc e => Exc e
                               end
                           | Exc e => Exc e
                           end
                       | None => Exc TypeError
                       end
                   end) items
              with
              | Ok members => Ok (JObj members)
              | Exc e => Exc e
              end
          | Exc e => Exc e
          end
      end
  end.

Definition dumps (v : value) : M json :=
  read (fun h => dumps_pure (S (size h)) h v).

End Json.

(** [json.loads]: every array and object becomes a new list or dict. *)
Fixpoint map_m {A B} (f : A -> M B) (xs : list A) : M (list B) :=
  match xs with
  | [] => ret []
  | x :: rest => y <- f x ;; ys <- map_m f rest ;; ret (y :: ys)
  end.

Fixpoint loads (j : json) : M value :=
  match j with
  | JNull => ret VNone
  | JBool b => ret (VBool b)
  | JInt z => ret (VInt z)
  | JFloat x => ret (VFloat x)
  | JStr s => ret (VStr s)
  | JArr items =>
      vs <- map_m loads items ;;
      l <- alloc (OList vs) ;;
      ret (VRef l)
  | JObj members =>
      kvs <- map_m (fun kv => v <- loads (snd kv) ;; ret (VStr (fst kv), v)) members ;;
      l <- alloc (ODict (dict_update [] kvs)) ;;
      ret (VRef l)
  end.

(** *** Reachability *)

Definition values_of (o : object) : list value :=
  match o with
  | ODict items => map fst items ++ map snd items
  | OList items => items
  end.

(** [reach h v l]: the object at [l] is [v] itself or a part of it. *)
Inductive reach (h : heap) : value -> loc -> Prop :=
| reach_here (l : loc) : reach h (VRef l) l
| reach_part (l : loc) (o : object) (v : value) (l' : loc) :
    h !! l = Some o -> In v (values_of o) -> reach h v l' ->
    reach h (VRef l) l'.

(** A value that is not a reference into [old]. *)
Definition fresh_val (old : gset loc) (v : value) : Prop :=
  match v with
  | VRef l => l ∉ old
  | _ => True
  end.

End Store.

(** ** Programs that leave the objects of a given store alone *)

Module Frame.
Import Store.

(** [kept h0 good h]: every object of [h0] is in [h] as it was, and the
    objects that came after satisfy [good]. *)
Definition kept (h0 : heap) (good : object -> Prop) (h : heap) : Prop :=
  h0 ⊆ h /\
  forall l o, h !! l = Some o -> l ∉ dom h0 -> good o.

(** [safe h0 good m Q]: run from a store that keeps [h0], the program
    ends, normally or with an exception, in a store that keeps [h0], and a
    normal result satisfies [Q]. *)
Definition safe (h0 : heap) (good : object -> Prop) {A} (m : M A)
    (Q : A -> Prop) : Prop :=
  forall h, kept h0 good h ->
    kept h0 good (snd (m h)) /\
    forall a, fst (m h) = Ok a -> Q a.

(** New objects hold no reference to an old one. *)
Definition all_fresh (old : gset loc) (o : object) : Prop :=
  Forall (fresh_val old) (values_of o).

(** The ["inputs"] entry of a new dict is not an old object. *)
Definition inputs_fresh (old : gset loc) (o : object) : Prop :=
  match o with
  | ODict items =>
      forall v, dict_get items (VStr "inputs") = Some v -> fresh_val old v
  | OList _ => True
  end.

(** No name in the list is ["inputs"]. *)
Definition names_ok (names : list string) : bool :=
  forallb (fun name => negb (String.eqb name "inputs")) names.

End Frame.

(** ** scripts/002-comfyui-script: media introspection *)

Module Sonic.

(** A float as [mutagen] reports it: finite, or one of inf / nan on which
    [int()] raises. *)
Inductive pyfloat :=
| Finite (x : Q)
| NonFinite.

(** What [File(audio_path)] and the read of [audio.info.length] can do. *)
Inductive audio_load :=
| FileRaises                       (* File(audio_path) raises *)
| FileNone                         (* File(audio_path) returns None *)
| InfoRaises                       (* audio.info.length raises *)
| Loaded (length : pyfloat).       (* audio.info.length *)

(** [get_audio_duration]: the body of the [try], [None] standing for an
    exception that the [except] clause turns into the default. *)
Definition duration_of_length (raw_duration : pyfloat) : option Z :=
  match raw_duration with
  | NonFinite => None                                   (* int() raises *)
  | Finite raw =>
      let rounded_duration :=
        Py.int raw + (if Py.gt (Py.mod1 raw) 0 then 1 else 0) in
      let final_duration := rounded_duration + 1 in
      Some final_duration
  end.

Definition get_audio_duration (audio : audio_load) : Z :=
  match audio with
  | FileRaises => 5
  | FileNone => 5
  | InfoRaises => 5
  | Loaded raw_duration =>
      match duration_of_length raw_duration with
      | Some final_duration => final_duration
      | None => 5
      end
  end.

(** What [Image.open(image_path)] and [img.size] can do. *)
Inductive image_load :=
| OpenRaises
| Opened (width height : Z).

Definition LANDSCAPE : Z * Z := (1024, 576).
Definition PORTRAIT : Z * Z := (576, 1024).
Definition SQUARE : Z * Z := (576, 576).

Definition get_optimal_dimensions (img : image_load) : Z * Z :=
  match img with
  | OpenRaises => (576, 576)
  | Opened width height =>
      if height =? 0 then (576, 576)                    (* ZeroDivisionError *)
      else
        let aspect_ratio := (inject_Z width / inject_Z height)%Q in
        let landscape_diff := Py.abs (aspect_ratio - (16 # 9)) in
        let portrait_diff := Py.abs (aspect_ratio - (9 # 16)) in
        let square_diff := Py.abs (aspect_ratio - 1) in
        if Py.le landscape_diff (Py.min portrait_diff square_diff) then LANDSCAPE
        else if Py.le portrait_diff (Py.min landscape_diff square_diff) then PORTRAIT
        else SQUARE
  end.

(** The selection rule in the words of the specification: among the three
    canonical ratios, in the order landscape, portrait, square, take the one
    at minimal absolute distance from the input ratio; an earlier candidate
    wins a tie. *)
Inductive bucket := Landscape | Portrait | Square.

Definition ratio_of (b : bucket) : Q :=
  match b with
  | Landscape => 16 # 9
  | Portrait => 9 # 16
  | Square => 1
  end.

Definition size_of (b : bucket) : Z * Z :=
  match b with
  | Landscape => (1024, 576)
  | Portrait => (576, 1024)
  | Square => (576, 576)
  end.

Definition rank (b : bucket) : nat :=
  match b with
  | Landscape => 0
  | Portrait => 1
  | Square => 2
  end.

Definition distance (r : Q) (b : bucket) : Q := Qabs (r - ratio_of b).

Definition closer (r : Q) (best cand : bucket) : bucket :=
  if Qlt_le_dec (distance r cand) (distance r best) then cand else best.

Definition closest_bucket (r : Q) : bucket :=
  fold_left (closer r) [Portrait; Square] Landscape.

End Sonic.

(** ** scripts/006-text-to-video-Wan2.1-Script: submission and download *)

Module Wan.

(** Effects a client call leaves behind, in program order. *)
Inductive event :=
| Sleep (seconds : Q)              (* time.sleep *)
| Post (attempt : nat)             (* self.session.post(.../prompt) *)
| Head (url : string)              (* self.session.head *)
| SessionGet (url : string)        (* self.session.get *)
| DirectGet (url : string).        (* requests.get, outside the session *)

(** *** [queue_workflow] *)

(** The outcome of one POST of the payload. *)
Inductive post_reply :=
| PostRequestException             (* requests.RequestException *)
| PostOtherException               (* any other exception in the attempt *)
| PostResponse (status_code : Z) (prompt_id : option string).
                                   (* response.json().get("prompt_id") *)

(** The [for retry in range(max_retries)] loop, [retry_delay] threaded
    through the iterations; the result is what [queue_workflow] returns. *)
Fixpoint retry_loop (post : nat -> post_reply) (max_retries : nat)
    (retries : list nat) (retry_delay : Z) : option string * list event :=
  match retries with
  | [] => (None, [])
  | retry :: rest =>
      let failed :=
        if (retry <? max_retries - 1)%nat then
          let '(r, tr) := retry_loop post max_retries rest (retry_delay * 2) in
          (r, Sleep (inject_Z retry_delay) :: tr)
        else (None, []) in
      let '(r, tr) :=
        match post retry with
        | PostResponse status_code prompt_id =>
            if status_code =? 200 then (prompt_id, []) else failed
        | PostRequestException => failed
        | PostOtherException => (None, [])
        end in
      (r, Post retry :: tr)
  end.

(** [prelude_raises] tells whether building the payload or writing the
    debug dump raised, which the outer [except] turns into [None]. *)
Definition queue_workflow (prelude_raises : bool) (post : nat -> post_reply)
    : option string * list event :=
  if prelude_raises then (None, [])
  else
    let max_retries := 3%nat in
    let retry_delay := 2 in
    let '(r, tr) := retry_loop post max_retries (seq 0 max_retries) retry_delay in
    (r, Sleep 1 :: tr).

(** A reply after which the loop tries again: a network error or a
    response whose status is not 200. *)
Definition transient (r : post_reply) : bool :=
  match r with
  | PostRequestException => true
  | PostOtherException => false
  | PostResponse status_code _ => negb (status_code =? 200)
  end.

(** The waits and attempts of a run of [n] attempts: the wait before
    attempt [i] is [2^i] seconds. *)
Definition backoff_trace (n : nat) : list event :=
  flat_map (fun i => [Sleep (inject_Z (2 ^ Z.of_nat i)); Post i]) (seq 0 n).

Definition attempts (tr : list event) : nat :=
  length (List.filter (fun e => match e with Post _ => true | _ => false end) tr).

(** *** [download_file] *)

Record client := {
  server_url : string;
  api_key : string
}.

(** A query parameter value: text, or a float such as the frame rate. *)
Inductive param :=
| PStr (s : string)
| PFloat (x : Q).

(** The outcome of a streamed GET: an exception, or a response with its
    status and the chunks [iter_content] yields; [complete] is false when
    the stream raises after the last chunk listed. *)
Inductive get_reply :=
| GetRaises
| GetResponse (status_code : Z) (chunks : list (list Byte.byte)) (complete : bool).

(** The local file system: the directories that exist and the files with
    their contents. *)
Record disk := {
  dirs : gset string;
  files : gmap string (list Byte.byte)
}.

(** What the operating system refuses during one call. A refused
    [os.makedirs] has made [makedirs_made] of the directories above its
    target before it raises. *)
Record faults := {
  makedirs_raises : bool;
  open_raises : bool;
  makedirs_made : nat
}.

(** The directories above [path], outermost first: for every separator
    of [path] that follows a name, the text before it. *)
Fixpoint parents_from (before rest : string) : list string :=
  match rest with
  | EmptyString => []
  | String c rest' =>
      (if Ascii.eqb c "/" && Py.truthy_str before && negb (Py.endswith before "/")
       then [before] else [])
      ++ parents_from (before +:+ String c EmptyString) rest'
  end.

Definition parents (path : string) : list string := parents_from "" path.

Definition add_dirs (names : list string) (d : disk) : disk :=
  {| dirs := list_to_set names ∪ dirs d; files := files d |}.

(** [os.makedirs(path, exist_ok=True)]: creates the missing directories
    above [path], outermost first, and then [path] itself. The boolean tells
    whether the call returned: the empty path raises, and a refusal of the
    system raises and leaves the directories made until then. *)
Definition makedirs (flt : faults) (path : string) (d : disk) : bool * disk :=
  if makedirs_raises flt
  then (false, add_dirs (take (makedirs_made flt) (parents path)) d)
  else if Py.truthy_str path then (true, add_dirs (parents path ++ [path]) d)
  else (false, d).

(** [os.path.join(a, b)] on POSIX paths. *)
Definition path_join (a b : string) : string :=
  if Py.startswith b "/" then b
  else if negb (Py.truthy_str a) then b
  else if Py.endswith a "/" then a +:+ b
  else a +:+ "/" +:+ b.

(** [with open(path, 'wb') as f: for chunk in ...: if chunk: f.write(chunk)].
    The file is created (truncated) on open; a stream that raises leaves
    the chunks received so far in it. The boolean tells whether the block
    ran to its end. *)
Definition nonempty {A} (l : list A) : bool :=
  match l with [] => false | _ => true end.

Definition save_stream (flt : faults) (path : string)
    (chunks : list (list Byte.byte)) (complete : bool) (d : disk)
    : bool * disk :=
  if open_raises flt then (false, d)
  else
    let written := concat (List.filter nonempty chunks) in
    (complete, {| dirs := dirs d; files := <[path := written]> (files d) |}).

Section Download.

(** [urllib.parse.urlencode], a library function, is a parameter. *)
Variable urlencode : list (string * param) -> string.

Definition get_video_url (self : client) (filename subfolder format_type : string)
    (frame_rate : Q) : string :=
  let base_url := server_url self +:+ "/api/viewvideo" in
  let params :=
    [("filename", PStr filename); ("type", PStr "output")]
    ++ (if Py.truthy_str subfolder then [("subfolder", PStr subfolder)] else [])
    ++ (if Py.truthy_str format_type then [("format", PStr format_type)] else [])
    ++ (if Qeq_bool frame_rate 0 then [] else [("frame_rate", PFloat frame_rate)]) in
  base_url +:+ "?" +:+ urlencode params.

(** [x or default] for an optional string and an optional float. *)
Definition or_str (x : option string) (default : string) : string :=
  match x with
  | Some s => if Py.truthy_str s then s else default
  | None => default
  end.

Definition or_float (x : option Q) (default : Q) : Q :=
  match x with
  | Some q => if Qeq_bool q 0 then default else q
  | None => default
  end.

Definition is_video_name (filename : string) : bool :=
  let name := Py.lower filename in
  Py.endswith name ".mp4" || Py.endswith name ".avi" ||
  Py.endswith name ".mov" || Py.endswith name ".webm".

Definition download_url_of (self : client) (filename subfolder : string)
    (format_type : option string) (frame_rate : option Q) : string :=
  if is_video_name filename then
    get_video_url self filename subfolder
      (or_str format_type "video/h264-mp4") (or_float frame_rate 24)
  else
    let base_url := server_url self +:+ "/api/view" in
    let params :=
      [("filename", PStr filename); ("type", PStr "output")]
      ++ (if Py.truthy_str subfolder then [("subfolder", PStr subfolder)] else []) in
    base_url +:+ "?" +:+ urlencode params.

(** The body shared by both transports once a 200 arrived: create the
    directory, write the stream, return the path. [None] is an exception
    on the way, which the enclosing [except] answers with [None]. *)
Definition store (flt : faults) (output_dir filename : string)
    (chunks : list (list Byte.byte)) (complete : bool) (d : disk)
    : option string * disk :=
  match makedirs flt output_dir d with
  | (false, d1) => (None, d1)
  | (true, d1) =>
      let output_path := path_join output_dir filename in
      let '(finished, d2) := save_stream flt output_path chunks complete d1 in
      (if finished then Some output_path else None, d2)
  end.

(** [download_file]: the returned path, the requests issued and the disk
    afterwards. [primary] answers the session GET, [fallback] the direct GET
    with the key in the URL; [prepare_video_for_viewing] catches whatever its
    HEAD request raises and its answer is not used. *)
Definition download_file (self : client) (filename output_dir subfolder : string)
    (format_type : option string) (frame_rate : option Q)
    (primary fallback : get_reply) (flt : faults) (d : disk)
    : option string * list event * disk :=
  let is_video := is_video_name filename in
  let download_url := download_url_of self filename subfolder format_type frame_rate in
  let prepared := if is_video then [Head download_url] else [] in
  match primary with
  | GetRaises => (None, prepared ++ [SessionGet download_url], d)
  | GetResponse status_code chunks complete =>
      if status_code =? 200 then
        let '(r, d') := store flt output_dir filename chunks complete d in
        (r, prepared ++ [SessionGet download_url], d')
      else if negb complete then
        (* reading response.text for the error log raises *)
        (None, prepared ++ [SessionGet download_url], d)
      else
        let direct_url := download_url +:+ "&api_key=" +:+ api_key self in
        let tr := prepared ++ [SessionGet download_url; DirectGet direct_url] in
        match fallback with
        | GetRaises => (None, tr, d)
        | GetResponse direct_status direct_chunks direct_complete =>
            if direct_status =? 200 then
              let '(r, d') :=
                store flt output_dir filename direct_chunks direct_complete d in
              (r, tr, d')
            else (None, tr, d)
        end
  end.

(** An attempt succeeds when its reply is a 200 whose stream is read to
    the end and the directory and the file can be written. *)
Definition attempt_ok (flt : faults) (output_dir : string) (reply : get_reply) : bool :=
  match reply with
  | GetRaises => false
  | GetResponse status_code _ complete =>
      (status_code =? 200) && complete &&
      negb (makedirs_raises flt) && Py.truthy_str output_dir &&
      negb (open_raises flt)
  end.

(** The session GET is followed by the direct GET: it delivered a
    response with a status other than 200 whose body could be read for the
    error log. *)
Definition falls_back (primary : get_reply) : bool :=
  match primary with
  | GetRaises => false
  | GetResponse status_code _ complete => negb (status_code =? 200) && complete
  end.

Definition reply_chunks (reply : get_reply) : list (list Byte.byte) :=
  match reply with
  | GetRaises => []
  | GetResponse _ chunks _ => chunks
  end.

Definition fallback_gets (tr : list event) : list string :=
  omap (fun e => match e with DirectGet u => Some u | _ => None end) tr.

End Download.

(** An encoder for running examples: [k=v] pairs joined by [&], without
    escaping, floats shown by their integer part. *)
Definition show_param (p : param) : string :=
  match p with
  | PStr s => s
  | PFloat x => pretty.pretty (Qfloor x)
  end.

Fixpoint plain_urlencode (params : list (string * param)) : string :=
  match params with
  | [] => ""
  | [(k, v)] => k +:+ "=" +:+ show_param v
  | (k, v) :: rest => k +:+ "=" +:+ show_param v +:+ "&" +:+ plain_urlencode rest
  end.

(** *** [check_workflow_status] *)

(** The body of [GET /history/{prompt_id}], read through the keys the
    client looks at. A field is [None] when the key is absent. The keys
    "prompt" and "progress" only feed debug log lines and are left out. *)
Record status_field := {
  completed : option bool;              (* status.get("completed") *)
  status_str : option string;           (* status.get("status_str") *)
  status_error : option string          (* status.get("error") *)
}.

Record prompt_entry := {
  entry_status : option status_field;           (* prompt_data["status"] *)
  entry_outputs : option (gmap string json);    (* prompt_data["outputs"] *)
  entry_executing : option (list string)        (* prompt_data["executing"] *)
}.

Record history_t := {
  entry : option prompt_entry;                  (* history_data[prompt_id] *)
  top_error : option string;                    (* history_data["error"] *)
  top_outputs : option (gmap string json);      (* history_data["outputs"] *)
  top_executing : option (list string)          (* history_data["executing"] *)
}.

Inductive history_reply :=
| HistoryRaises (message : string)      (* the GET or response.json() raises; str(e) *)
| HistoryResponse (status_code : Z) (body : history_t).

(** ["30" in d] on an optional outputs dict: the key test guarded by the
    presence test. *)
Definition has_node (outputs : option (gmap string json)) (node_id : string) : bool :=
  match outputs with
  | Some d => bool_decide (node_id ∈ dom d)
  | None => false
  end.

Definition completed_true (st : status_field) : bool :=
  match completed st with Some true => true | _ => false end.

Definition status_is_error (st : status_field) : bool :=
  match status_str st with Some s => String.eqb s "error" | None => false end.

(** The node ids in an outputs dict that do not start with [$]. *)
Definition plain_nodes (d : gmap string json) : gset string :=
  filter (fun node_id => Is_true (negb (Py.startswith node_id "$"))) (dom d).

(** The tail of the function, after the early returns: [executed_nodes] is
    collected from the nested outputs when the entry has them, else from the
    top-level outputs. *)
Definition executed_nodes_of (history_data : history_t) : gset string :=
  match entry history_data with
  | Some {| entry_outputs := Some d |} => plain_nodes d
  | _ =>
      match top_outputs history_data with
      | Some d => plain_nodes d
      | None => ∅
      end
  end.

Definition check_top_level (history_data : history_t)
    : bool * option history_t * option string :=
  match top_error history_data with
  | Some error_msg => (true, Some history_data, Some error_msg)
  | None =>
      if has_node (top_outputs history_data) "30" then
        (true, Some history_data, None)
      else
        let executed_nodes := executed_nodes_of history_data in
        let is_complete := bool_decide ("30" ∈ executed_nodes) in
        (is_complete, Some history_data, None)
  end.

Definition check_workflow_status (reply : history_reply)
    : bool * option history_t * option string :=
  match reply with
  | HistoryRaises message => (false, None, Some message)
  | HistoryResponse status_code history_data =>
      if status_code =? 200 then
        match entry history_data with
        | Some prompt_data =>
            match entry_status prompt_data with
            | Some st =>
                if completed_true st then (true, Some history_data, None)
                else if status_is_error st then
                  let error_msg := default "Unknown error" (status_error st) in
                  (false, Some history_data, Some ("Error: " +:+ error_msg))
                else if has_node (entry_outputs prompt_data) "30" then
                  (true, Some history_data, None)
                else check_top_level history_data
            | None =>
                if has_node (entry_outputs prompt_data) "30" then
                  (true, Some history_data, None)
                else check_top_level history_data
            end
        | None => check_top_level history_data
        end
      else (false, None, Some ("API error: " +:+ pretty.pretty status_code))
  end.

(** *** [get_queue_status] *)

Record progress_t := {
  progress_value : option json;                 (* progress["value"] *)
  progress_max : option json;                   (* progress["max"] *)
  progress_node : option (option string)        (* progress["node"], None for null *)
}.

Record queue_t := {
  data_running : option (list json);            (* queue_data["queue_running"] *)
  data_pending : option (list json);            (* queue_data["queue_pending"] *)
  data_progress : option progress_t             (* queue_data["progress"], not null *)
}.

Inductive queue_reply :=
| QueueGetRaises                        (* self.session.get raises *)
| QueueJsonRaises                       (* response.json() raises on a 200 *)
| QueueResponse (status_code : Z) (body : queue_t).

Record queue_details := {
  details_progress : option json;
  details_max_progress : option json;
  current_node : option (option string)
}.

Record queue_info_t := {
  queue_position : option Z;
  queue_remaining : option Z;
  queue_size : Z;
  queue_running : bool;
  is_in_queue : bool;
  details : queue_details
}.

Definition empty_details : queue_details :=
  {| details_progress := None; details_max_progress := None; current_node := None |}.

Definition default_queue_info : queue_info_t :=
  {| queue_position := None; queue_remaining := None; queue_size := 0;
     queue_running := false; is_in_queue := false; details := empty_details |}.

(** [isinstance(item, list) and len(item) > 1 and item[1] == prompt_id]. *)
Definition item_is (prompt_id : string) (item : json) : bool :=
  match item with
  | JArr (_ :: JStr s :: _) => String.eqb s prompt_id
  | _ => false
  end.

(** The index of the first item of the job in a queue list. *)
Fixpoint find_item (prompt_id : string) (items : list json) (idx : Z) : option Z :=
  match items with
  | [] => None
  | item :: rest =>
      if item_is prompt_id item then Some idx else find_item prompt_id rest (idx + 1)
  end.

(** [None] stands for the [UnboundLocalError] that leaves the function
    when the GET raises: [queue_info] is assigned after the GET, and the
    handler returns it. *)
Definition get_queue_status (prompt_id : string) (reply : queue_reply)
    : option queue_info_t :=
  match reply with
  | QueueGetRaises => None
  | QueueJsonRaises => Some default_queue_info
  | QueueResponse status_code queue_data =>
      if status_code =? 200 then
        let running_hit :=
          match data_running queue_data with
          | Some items => existsb (item_is prompt_id) items
          | None => false
          end in
        let info1 :=
          if running_hit then
            {| queue_position := Some 0; queue_remaining := None; queue_size := 0;
               queue_running := true; is_in_queue := true; details := empty_details |}
          else default_queue_info in
        let info2 :=
          match data_pending queue_data with
          | Some queue_pending =>
              if is_in_queue info1 then info1
              else
                let size := queue_size info1 + Z.of_nat (length queue_pending) in
                match find_item prompt_id queue_pending 0 with
                | Some idx =>
                    {| queue_position := Some (idx + 1);
                       queue_remaining := Some (idx + 1);
                       queue_size := size;
                       queue_running := queue_running info1;
                       is_in_queue := true; details := details info1 |}
                | None =>
                    {| queue_position := queue_position info1;
                       queue_remaining := queue_remaining info1;
                       queue_size := size;
                       queue_running := queue_running info1;
                       is_in_queue := is_in_queue info1; details := details info1 |}
                end
          | None => info1
          end in
        let info3 :=
          match data_progress queue_data with
          | Some progress_data =>
              if queue_running info2 then
                {| queue_position := queue_position info2;
                   queue_remaining := queue_remaining info2;
                   queue_size := queue_size info2;
                   queue_running := queue_running info2;
                   is_in_queue := is_in_queue info2;
                   details :=
                     {| details_progress := progress_value progress_data;
                        details_max_progress := progress_max progress_data;
                        current_node := progress_node progress_data |} |}
              else info2
          | None => info2
          end in
        Some info3
      else Some default_queue_info
  end.

(** *** [wait_for_workflow_completion] *)

(** What the status callback is told. [Progress pct d] is the message
    [f"{pct}% - {d}"], [ErrorStatus m] the message [f"Error: {m}"]. *)
Inductive detail :=
| Complete                                  (* "Complete" *)
| Queued (position size : Z)                (* "Queued: Position {p} of {s}" *)
| Completed (desc : string)                 (* "Completed: {desc}" *)
| Processing (desc : string)                (* "Processing: {desc}" *)
| Finalizing                                (* "Finalizing" *)
| Plain (desc : string).                    (* "{desc}" *)

Inductive status_msg :=
| Progress (pct : Z) (d : detail)
| ErrorStatus (error_msg : string).

(** The log lines that announce how the loop ends. *)
Inductive log_line :=
| TimedOut                                  (* "Workflow processing timed out ..." *)
| CompletedSuccessfully                     (* "Workflow completed successfully" *)
| WorkflowFailed (error_msg : string).      (* "Workflow failed: ..." *)

Inductive report :=
| Status (msg : status_msg)                 (* status_callback(msg) *)
| Log (line : log_line).

Definition node_descriptions : list (string * string) :=
  [("11", "Loading T5 encoder model");
   ("16", "Encoding text prompt");
   ("37", "Preparing latent space");
   ("39", "Setting up block swap");
   ("22", "Loading video model");
   ("38", "Loading VAE model");
   ("52", "Configuring tea cache");
   ("55", "Setting up video enhancement");
   ("27", "Generating frames with sampler");
   ("28", "Decoding video frames");
   ("30", "Combining frames into video")].

Definition stage_percentages : list (string * Z) :=
  [("11", 5); ("16", 10); ("37", 15); ("39", 20); ("22", 25); ("38", 30);
   ("52", 35); ("55", 40); ("27", 50); ("28", 85); ("30", 95)].

Definition estimated_total_time : Q := 600.
Definition progress_interval : Q := 5.
Definition queue_check_interval : Q := 5.
Definition required_not_in_queue : Z := 5.
Definition generating_progress_base : Z := 40.
Definition generating_progress_max : Z := 85.

(** The variables the loop carries from one iteration to the next. *)
Record loop_state := {
  check_interval : Q;
  last_update_time : Q;
  last_queue_check_time : Q;
  known_executed_nodes : gset string;
  prompt_left_queue : bool;
  showed_finalizing : bool;
  consecutive_not_in_queue : Z;
  last_node_executing : option string;
  reported_nodes : gset string
}.

Definition initial_state : loop_state :=
  {| check_interval := 5;
     last_update_time := 0;
     last_queue_check_time := 0;
     known_executed_nodes := ∅;
     prompt_left_queue := false;
     showed_finalizing := false;
     consecutive_not_in_queue := 0;
     last_node_executing := None;
     reported_nodes := ∅ |}.

(** What one iteration obtains from outside: the two replies and the
    value of [time.time()] at each place where the body reads the clock, in
    program order. [t_exec i] and [t_exec_set i] are the readings made for
    the [i]-th element of [executing]. *)
Record poll := {
  t_loop : Q;                           (* elapsed_time = time.time() - start_time *)
  history : history_reply;
  t_summary : Q;                        (* test before the progress summary *)
  t_summary_set : Q;
  t_queue : Q;                          (* test before the queue check *)
  t_queue_set : Q;
  queue : queue_reply;
  t_running : Q;                        (* test before the running report *)
  t_running_set : Q;
  t_exec : nat -> Q;                    (* test before the executing report *)
  t_exec_set : nat -> Q;
  t_idle : Q;                           (* test before the time-based report *)
  t_idle_set : Q
}.

(** The arguments of the call and the clock reading taken before the loop. *)
Record call := {
  prompt_id : string;
  timeout_minutes : Z;
  status_callback : bool;               (* whether a callback was passed *)
  start_time : Q
}.

Definition timeout_seconds (c : call) : Z := timeout_minutes c * 60.

(** [status_callback(msg)] under [if status_callback:]. *)
Definition tell (c : call) (msg : status_msg) : list report :=
  if status_callback c then [Status msg] else [].

(** Progress within the frame generation stage. *)
Definition generation_progress (elapsed_time : Q) (otherwise : Z) : Z :=
  let generation_time := (elapsed_time - 60)%Q in
  if Py.gt generation_time 0 then
    let progress_range := generating_progress_max - generating_progress_base in
    generating_progress_base
    + Z.min progress_range (Py.int ((generation_time / 240) * inject_Z progress_range))
  else otherwise.

(** [min(90, int((elapsed_time / estimated_total_time) * 100))], in
    exact arithmetic. Where the exact quotient times 100 is an integer the
    binary64 product of the code can fall just short of it and [int] then
    gives one less: 174 seconds give 29 here and 28 in the code. *)
Definition time_based_progress (elapsed_time : Q) : Z :=
  Z.min 90 (Py.int ((elapsed_time / estimated_total_time) * 100)).

(** The percentage attached to a node id, [None] when the table has none. *)
Definition stage_progress (elapsed_time : Q) (node_id : string) : option Z :=
  match table_get stage_percentages node_id with
  | Some pct =>
      Some (if String.eqb node_id "27" then generation_progress elapsed_time pct else pct)
  | None => None
  end.

(** [{n for n in outputs if n.isdigit()}]. *)
Definition digit_nodes (outputs : gmap string json) : gset string :=
  filter (fun node_id => Is_true (Py.isdigit node_id)) (dom outputs).

(** [max(xs, key=...)]: the first element with the largest key, in the
    iteration order of the set. *)
Definition max_by (key : string -> Z) (xs : list string) : option string :=
  fold_left
    (fun best x =>
       match best with
       | None => Some x
       | Some b => if key b <? key x then Some x else Some b
       end) xs None.

Definition int_key (x : string) : Z := if Py.isdigit x then Py.int_of_str x else 0.

(** The highest stage percentage among completed nodes. *)
Definition completed_percentage_of (executed_nodes : gset string) : Z :=
  fold_left
    (fun acc node_id =>
       match table_get stage_percentages node_id with
       | Some pct => Z.max acc pct
       | None => acc
       end) (elements executed_nodes) 0.

(** "Build a progress summary based on completed nodes". *)
Definition progress_summary (c : call) (st : loop_state) (p : poll)
    (outputs : gmap string json) : loop_state * list report :=
  if negb (bool_decide (outputs = ∅)) && status_callback c
     && Py.gt (t_summary p - last_update_time st) progress_interval then
    let executed_nodes := digit_nodes outputs in
    let completed_percentage := completed_percentage_of executed_nodes in
    let new_completed := executed_nodes ∖ reported_nodes st in
    match max_by int_key (elements new_completed) with
    | Some latest_node =>
        let latest_desc :=
          default ("Step " +:+ latest_node) (table_get node_descriptions latest_node) in
        ({| check_interval := check_interval st;
            last_update_time := t_summary_set p;
            last_queue_check_time := last_queue_check_time st;
            known_executed_nodes := known_executed_nodes st;
            prompt_left_queue := prompt_left_queue st;
            showed_finalizing := showed_finalizing st;
            consecutive_not_in_queue := consecutive_not_in_queue st;
            last_node_executing := last_node_executing st;
            reported_nodes := reported_nodes st ∪ new_completed |},
         [Status (Progress completed_percentage (Completed latest_desc))])
    | None => (st, [])
    end
  else (st, []).

(** How the queue check leaves the iteration. *)
Inductive queue_outcome :=
| QueueRaise                                    (* UnboundLocalError propagates *)
| QueueContinue (st : loop_state) (reports : list report)
                                                (* time.sleep(check_interval); continue *)
| QueueNext (st : loop_state) (reports : list report).

Definition set_queue_check (st : loop_state) (t : Q) (count : Z)
    (node : option string) : loop_state :=
  {| check_interval := check_interval st;
     last_update_time := last_update_time st;
     last_queue_check_time := t;
     known_executed_nodes := known_executed_nodes st;
     prompt_left_queue := prompt_left_queue st;
     showed_finalizing := showed_finalizing st;
     consecutive_not_in_queue := count;
     last_node_executing := node;
     reported_nodes := reported_nodes st |}.

Definition set_last_update (st : loop_state) (t : Q) : loop_state :=
  {| check_interval := check_interval st;
     last_update_time := t;
     last_queue_check_time := last_queue_check_time st;
     known_executed_nodes := known_executed_nodes st;
     prompt_left_queue := prompt_left_queue st;
     showed_finalizing := showed_finalizing st;
     consecutive_not_in_queue := consecutive_not_in_queue st;
     last_node_executing := last_node_executing st;
     reported_nodes := reported_nodes st |}.

Definition set_left_queue (st : loop_state) (finalizing : bool) : loop_state :=
  {| check_interval := check_interval st;
     last_update_time := last_update_time st;
     last_queue_check_time := last_queue_check_time st;
     known_executed_nodes := known_executed_nodes st;
     prompt_left_queue := true;
     showed_finalizing := finalizing;
     consecutive_not_in_queue := consecutive_not_in_queue st;
     last_node_executing := last_node_executing st;
     reported_nodes := reported_nodes st |}.

(** The branch "If we're running" of the queue check. *)
Definition running_report (c : call) (st : loop_state) (p : poll)
    (elapsed_time : Q) (queue_info : queue_info_t) : loop_state * list report :=
  let '(current_node, last_node, progress_pct) :=
    match current_node (details queue_info) with
    | Some current_node =>
        let digit :=
          match current_node with
          | Some s => Py.truthy_str s && Py.isdigit s
          | None => false
          end in
        let pct1 :=
          match current_node with
          | Some s => if digit then stage_progress elapsed_time s else None
          | None => None
          end in
        let pct2 :=
          match pct1, current_node with
          | None, Some s => table_get stage_percentages s
          | _, _ => pct1
          end in
        (current_node, current_node, pct2)
    | None => (None, last_node_executing st, None)
    end in
  let progress_pct := default (time_based_progress elapsed_time) progress_pct in
  let node_desc :=
    match current_node with
    | Some s => default "Processing" (table_get node_descriptions s)
    | None => "Processing"
    end in
  let st1 := set_queue_check st (last_queue_check_time st)
               (consecutive_not_in_queue st) last_node in
  if status_callback c && Py.gt (t_running p - last_update_time st1) progress_interval then
    (set_last_update st1 (t_running_set p),
     [Status (Progress progress_pct (Processing node_desc))])
  else (st1, []).

(** "Check queue status periodically". *)
Definition queue_check (c : call) (st : loop_state) (p : poll)
    (elapsed_time : Q) (outputs : gmap string json) (executing : list string)
    : queue_outcome :=
  if negb (prompt_left_queue st)
     && Py.gt (t_queue p - last_queue_check_time st) queue_check_interval then
    let st0 := set_queue_check st (t_queue_set p)
                 (consecutive_not_in_queue st) (last_node_executing st) in
    match get_queue_status (prompt_id c) (queue p) with
    | None => QueueRaise
    | Some queue_info =>
        if is_in_queue queue_info then
          let st1 := set_queue_check st0 (last_queue_check_time st0) 0
                       (last_node_executing st0) in
          match queue_position queue_info with
          | Some pos =>
              if 0 <? pos then
                QueueContinue st1
                  (tell c (Progress 0 (Queued pos (queue_size queue_info))))
              else if queue_running queue_info then
                let '(st2, rs) := running_report c st1 p elapsed_time queue_info in
                QueueContinue st2 rs
              else QueueNext st1 []
          | None =>
              if queue_running queue_info then
                let '(st2, rs) := running_report c st1 p elapsed_time queue_info in
                QueueContinue st2 rs
              else QueueNext st1 []
          end
        else
          let count1 := consecutive_not_in_queue st0 + 1 in
          let count2 := if nonempty executing then 0 else count1 in
          let st1 := set_queue_check st0 (last_queue_check_time st0) count2
                       (last_node_executing st0) in
          if required_not_in_queue <=? count2 then
            let has_outputs := negb (bool_decide (outputs = ∅)) in
            if has_outputs then
              if negb (showed_finalizing st1) && status_callback c then
                QueueNext (set_left_queue st1 true) [Status (Progress 95 Finalizing)]
              else QueueNext (set_left_queue st1 (showed_finalizing st1)) []
            else QueueNext st1 []
          else QueueNext st1 []
    end
  else QueueNext st [].

(** "Check if there are executing nodes": the [for] loop over
    [executing], [i] counting the elements already visited. *)
Fixpoint executing_report (c : call) (p : poll) (elapsed_time : Q)
    (executing : list string) (i : nat) (st : loop_state)
    : loop_state * list report :=
  match executing with
  | [] => (st, [])
  | node_id :: rest =>
      let '(st', rs) :=
        if Py.isdigit node_id then
          let st1 := set_queue_check st (last_queue_check_time st)
                       (consecutive_not_in_queue st) (Some node_id) in
          match table_get node_descriptions node_id with
          | Some desc =>
              if Py.gt (t_exec p i - last_update_time st1) progress_interval then
                let progress_pct0 := default 50 (table_get stage_percentages node_id) in
                let progress_pct :=
                  if String.eqb node_id "27"
                  then generation_progress elapsed_time progress_pct0
                  else progress_pct0 in
                if status_callback c then
                  (set_last_update st1 (t_exec_set p i),
                   [Status (Progress progress_pct (Processing desc))])
                else (st1, [])
              else (st1, [])
          | None => (st1, [])
          end
        else (st, []) in
      let '(st'', rs') := executing_report c p elapsed_time rest (S i) st' in
      (st'', rs ++ rs')
  end.

(** "For time-based progress updates if nothing else is happening". *)
Definition idle_report (c : call) (st : loop_state) (p : poll) (elapsed_time : Q)
    : loop_state * list report :=
  if Py.gt (t_idle p - last_update_time st) progress_interval then
    let st1 := set_last_update st (t_idle_set p) in
    let known :=
      match last_node_executing st1 with
      | Some s => if Py.truthy_str s then Some s else None
      | None => None
      end in
    let progress_pct :=
      default (time_based_progress elapsed_time)
        (match known with
         | Some s => stage_progress elapsed_time s
         | None => None
         end) in
    let desc :=
      match known with
      | Some s => default "Processing" (table_get node_descriptions s)
      | None => "Processing"
      end in
    (st1, tell c (Progress progress_pct (Plain desc)))
  else (st, []).

Definition set_known_executed (st : loop_state) (nodes : gset string) : loop_state :=
  {| check_interval := check_interval st;
     last_update_time := last_update_time st;
     last_queue_check_time := last_queue_check_time st;
     known_executed_nodes := nodes;
     prompt_left_queue := prompt_left_queue st;
     showed_finalizing := showed_finalizing st;
     consecutive_not_in_queue := consecutive_not_in_queue st;
     last_node_executing := last_node_executing st;
     reported_nodes := reported_nodes st |}.

Definition set_check_interval (st : loop_state) (x : Q) : loop_state :=
  {| check_interval := x;
     last_update_time := last_update_time st;
     last_queue_check_time := last_queue_check_time st;
     known_executed_nodes := known_executed_nodes st;
     prompt_left_queue := prompt_left_queue st;
     showed_finalizing := showed_finalizing st;
     consecutive_not_in_queue := consecutive_not_in_queue st;
     last_node_executing := last_node_executing st;
     reported_nodes := reported_nodes st |}.

(** The outputs and executing nodes of a poll, from the nested entry when
    it has them and else from the top level. *)
Definition outputs_of (history_data : option history_t) : gmap string json :=
  match history_data with
  | Some h =>
      match entry h with
      | Some {| entry_outputs := Some d |} => d
      | _ => default ∅ (top_outputs h)
      end
  | None => ∅
  end.

Definition executing_of (history_data : option history_t) : list string :=
  match history_data with
  | Some h =>
      match entry h with
      | Some {| entry_executing := Some l |} => l
      | _ => default [] (top_executing h)
      end
  | None => []
  end.

(** How one iteration of [while True] ends. *)
Inductive step_result :=
| Return (value : bool)
| Raise
| Continue (st : loop_state) (slept : Q).

Definition complete_reports (c : call) : list report :=
  tell c (Progress 100 Complete) ++ [Log CompletedSuccessfully].

Definition step (c : call) (st : loop_state) (p : poll) : list report * step_result :=
  let elapsed_time := (t_loop p - start_time c)%Q in
  if Py.gt elapsed_time (inject_Z (timeout_seconds c)) then
    ([Log TimedOut], Return false)
  else
    let '(is_complete, history_data, error_msg) := check_workflow_status (history p) in
    if is_complete then (complete_reports c, Return true)
    else
      let outputs := outputs_of history_data in
      let executing := executing_of history_data in
      if bool_decide ("30" ∈ dom outputs) then (complete_reports c, Return true)
      else
        let '(st1, rs1) := progress_summary c st p outputs in
        match queue_check c st1 p elapsed_time outputs executing with
        | QueueRaise => (rs1, Raise)
        | QueueContinue st2 rs2 => (rs1 ++ rs2, Continue st2 (check_interval st2))
        | QueueNext st2 rs2 =>
            let failed :=
              match error_msg with
              | Some m => if Py.truthy_str m && Py.contains m "Error:" then Some m else None
              | None => None
              end in
            match failed with
            | Some m =>
                (rs1 ++ rs2 ++ [Log (WorkflowFailed m)] ++ tell c (ErrorStatus m),
                 Return false)
            | None =>
                let executed_nodes := digit_nodes outputs in
                let st3 :=
                  if bool_decide (outputs = ∅) then st2
                  else set_known_executed st2 executed_nodes in
                if negb (bool_decide (outputs = ∅)) && bool_decide ("30" ∈ executed_nodes)
                then (rs1 ++ rs2 ++ complete_reports c, Return true)
                else
                  let '(st4, rs4) := executing_report c p elapsed_time executing 0 st3 in
                  let '(st5, rs5) := idle_report c st4 p elapsed_time in
                  let st6 := set_check_interval st5
                               (Py.min 8 (check_interval st5 * (105 # 100))) in
                  (rs1 ++ rs2 ++ rs4 ++ rs5, Continue st6 (check_interval st6))
            end
        end.

(** The loop over the polls the environment supplies; [Polling] is the
    state of a loop that has consumed them all and is still running. *)
Inductive run_result :=
| Returned (value : bool)
| Raised
| Polling (st : loop_state).

Fixpoint run (c : call) (st : loop_state) (polls : list poll)
    : list report * run_result :=
  match polls with
  | [] => ([], Polling st)
  | p :: rest =>
      let '(rs, r) := step c st p in
      match r with
      | Return value => (rs, Returned value)
      | Raise => (rs, Raised)
      | Continue st' _ =>
          let '(rs', r') := run c st' rest in
          (rs ++ rs', r')
      end
  end.

Definition wait_for_workflow_completion (c : call) (polls : list poll)
    : list report * run_result :=
  run c initial_state polls.

(** *** What a poll shows, read off the replies *)

(** How an iteration stands towards the queue: it does not query the
    queue ([Skipped]: the job is already taken to have left, the interval
    since the last query has not passed, or the query raises), or it
    queries and finds the job running or pending ([Found]), or does not find
    it while the history lists executing nodes ([Evidence]), or does not
    find it and sees no executing node ([Quiet]). *)
Inductive queue_poll := Skipped | Found | Evidence | Quiet.

Definition queue_poll_eqb (a b : queue_poll) : bool :=
  match a, b with
  | Skipped, Skipped | Found, Found | Evidence, Evidence | Quiet, Quiet => true
  | _, _ => false
  end.

Definition queried (st : loop_state) (p : poll) : bool :=
  negb (prompt_left_queue st)
  && Py.gt (t_queue p - last_queue_check_time st) queue_check_interval.

Definition classify (c : call) (st : loop_state) (p : poll) : queue_poll :=
  if queried st p then
    match get_queue_status (prompt_id c) (queue p) with
    | None => Skipped
    | Some queue_info =>
        if is_in_queue queue_info then Found
        else
          let executing :=
            executing_of (snd (fst (check_workflow_status (history p)))) in
          if nonempty executing then Evidence else Quiet
    end
  else Skipped.

(** The standing of each iteration of a run, in order. *)
Fixpoint observations (c : call) (st : loop_state) (polls : list poll)
    : list queue_poll :=
  match polls with
  | [] => []
  | p :: rest =>
      classify c st p ::
      match snd (step c st p) with
      | Continue st' _ => observations c st' rest
      | _ => []
      end
  end.

(** The iterations that did query the queue. *)
Definition queue_polls (obs : list queue_poll) : list queue_poll :=
  List.filter (fun o => negb (queue_poll_eqb o Skipped)) obs.

(** What the history of a poll shows about completion. *)
Definition shows_terminal_output (p : poll) : bool :=
  match history p with
  | HistoryResponse status_code h =>
      (status_code =? 200)
      && (match entry h with
          | Some e => has_node (entry_outputs e) "30"
          | None => false
          end
          || has_node (top_outputs h) "30")
  | HistoryRaises _ => false
  end.

Definition shows_completed (p : poll) : bool :=
  match history p with
  | HistoryResponse status_code h =>
      (status_code =? 200)
      && match entry h with
         | Some {| entry_status := Some st |} => completed_true st
         | _ => false
         end
  | HistoryRaises _ => false
  end.

Definition shows_top_level_error (p : poll) : bool :=
  match history p with
  | HistoryResponse status_code h =>
      (status_code =? 200)
      && match top_error h with Some _ => true | None => false end
  | HistoryRaises _ => false
  end.

(** The percentage of a callback message, when it carries one. *)
Definition percentage (r : report) : option Z :=
  match r with
  | Status (Progress pct _) => Some pct
  | _ => None
  end.

(** The clock advances by at least the time slept between the top of one
    iteration and the top of the next. *)
Fixpoint sleeps_elapse (c : call) (st : loop_state) (polls : list poll) : bool :=
  match polls with
  | p :: rest =>
      match snd (step c st p), rest with
      | Continue st' slept, p' :: _ =>
          Py.le (t_loop p + slept) (t_loop p') && sleeps_elapse c st' rest
      | _, _ => true
      end
  | [] => true
  end.

(** A number of polls after which the budget is spent when every
    iteration sleeps five seconds or more. *)
Definition poll_budget (c : call) : nat :=
  Z.to_nat (Z.max 0 (timeout_seconds c) / 5) + 2.

(** *** Sample inputs and the vocabulary of the proofs *)

(** Two 503 replies followed by a 200 carrying the job id. *)
Definition flaky_post (i : nat) : post_reply :=
  match i with
  | 0%nat | 1%nat => PostResponse 503 None
  | _ => PostResponse 200 (Some "job-1")
  end.

(** A clip whose session GET is refused with 403 and whose direct GET
    delivers two chunks. *)
Definition demo_client : client :=
  {| server_url := "https://node"; api_key := "k3y" |}.

Definition demo_chunks : list (list Byte.byte) :=
  [[Byte.x01; Byte.x02]; []; [Byte.x03]].

Definition empty_disk : disk := {| dirs := ∅; files := ∅ |}.

Definition no_faults : faults :=
  {| makedirs_raises := false; open_raises := false; makedirs_made := 0 |}.

(** A poll whose clock readings are all [t]. *)
Definition poll_at (t : Q) (h : history_reply) (q : queue_reply) : poll :=
  {| t_loop := t; history := h;
     t_summary := t; t_summary_set := t;
     t_queue := t; t_queue_set := t; queue := q;
     t_running := t; t_running_set := t;
     t_exec := fun _ => t; t_exec_set := fun _ => t;
     t_idle := t; t_idle_set := t |}.

Definition empty_queue : queue_t :=
  {| data_running := Some []; data_pending := Some []; data_progress := None |}.

(** A history body that carries nothing but a top-level "error" key. *)
Definition error_only : history_t :=
  {| entry := None; top_error := Some "boom";
     top_outputs := None; top_executing := None |}.

Definition demo_call : call :=
  {| prompt_id := "p"; timeout_minutes := 120; status_callback := true;
     start_time := 1000 |}.

Definition error_poll : poll :=
  poll_at 1001 (HistoryResponse 200 error_only) (QueueResponse 200 empty_queue).

(** A report is modest when its percentage, if any, is at most 95. *)
Definition modest (r : report) : Prop :=
  forall pct, percentage r = Some pct -> pct <= 95.

(** The fields a block leaves alone. *)
Definition same_queue_fields (a b : loop_state) : Prop :=
  check_interval b = check_interval a /\
  last_queue_check_time b = last_queue_check_time a /\
  prompt_left_queue b = prompt_left_queue a /\
  consecutive_not_in_queue b = consecutive_not_in_queue a.

(** The standing of an iteration, with the executing nodes as the body of
    the loop has them at hand. *)
Definition standing (c : call) (st : loop_state) (p : poll)
    (executing : list string) : queue_poll :=
  if queried st p then
    match get_queue_status (prompt_id c) (queue p) with
    | None => Skipped
    | Some queue_info =>
        if is_in_queue queue_info then Found
        else if nonempty executing then Evidence else Quiet
    end
  else Skipped.

(** What the queue check does to the counter and the flag, by standing. *)
Definition queue_effect (o : queue_poll) (st st' : loop_state) : Prop :=
  match o with
  | Skipped =>
      consecutive_not_in_queue st' = consecutive_not_in_queue st /\
      prompt_left_queue st' = prompt_left_queue st
  | Found | Evidence =>
      consecutive_not_in_queue st' = 0 /\
      prompt_left_queue st' = prompt_left_queue st
  | Quiet =>
      consecutive_not_in_queue st' = consecutive_not_in_queue st + 1 /\
      (prompt_left_queue st' = prompt_left_queue st \/
       (prompt_left_queue st' = true /\ 5 <= consecutive_not_in_queue st + 1))
  end.

Definition queue_check_post (c : call) (st : loop_state) (p : poll)
    (executing : list string) (st' : loop_state) (rs : list report) : Prop :=
  Forall modest rs /\ check_interval st' = check_interval st /\
  queue_effect (standing c st p executing) st st'.

Definition timed_out (c : call) (p : poll) : bool :=
  Py.gt (t_loop p - start_time c) (inject_Z (timeout_seconds c)).

Definition step_post (c : call) (st : loop_state) (p : poll)
    (rs : list report) (r : step_result) : Prop :=
  match r with
  | Return true =>
      (exists rs0, rs = rs0 ++ complete_reports c /\ Forall modest rs0) /\
      (shows_terminal_output p = true \/ shows_completed p = true \/
       shows_top_level_error p = true)
  | Return false =>
      Forall modest rs /\
      ((timed_out c p = true /\ rs = [Log TimedOut]) \/
       (timed_out c p = false /\
        exists rs0 m, rs = rs0 ++ [Log (WorkflowFailed m)] ++ tell c (ErrorStatus m)))
  | Raise => Forall modest rs
  | Continue st' slept =>
      Forall modest rs /\ timed_out c p = false /\
      slept = check_interval st' /\
      (check_interval st' = check_interval st \/
       check_interval st' = Py.min 8 (check_interval st * (105 # 100))) /\
      queue_effect (classify c st p) st st'
  end.

(** The counter read against the iterations seen so far: it counts the
    quiet queue polls at the end of the record, and once the job is taken to
    have left the queue the record of queue polls ends in five quiet ones. *)
Definition queue_invariant (st : loop_state) (obs : list queue_poll) : Prop :=
  0 <= consecutive_not_in_queue st /\
  (prompt_left_queue st = false ->
   exists pre, queue_polls obs =
               pre ++ repeat Quiet (Z.to_nat (consecutive_not_in_queue st))) /\
  (prompt_left_queue st = true ->
   exists pre, queue_polls obs = pre ++ repeat Quiet 5).

(** A signal in the history of a poll that the status check takes for
    completion. *)
Definition completion_signal (p : poll) : Prop :=
  shows_terminal_output p = true \/ shows_completed p = true \/
  shows_top_level_error p = true.

(** Five polls, ten seconds apart, in which the job is in neither queue,
    no node is executing and node 16 has produced output. *)
Definition partial_history : history_t :=
  {| entry := Some {| entry_status := None;
                      entry_outputs := Some {[ "16" := JNull ]};
                      entry_executing := None |};
     top_error := None; top_outputs := None; top_executing := None |}.

Definition quiet_poll (t : Q) : poll :=
  poll_at t (HistoryResponse 200 partial_history) (QueueResponse 200 empty_queue).

Definition quiet_polls : list poll :=
  [quiet_poll 1010; quiet_poll 1020; quiet_poll 1030; quiet_poll 1040;
   quiet_poll 1050].

(** A call with a one minute budget and polls ten seconds apart that
    never show a terminal state. *)
Definition short_call : call :=
  {| prompt_id := "p"; timeout_minutes := 1; status_callback := true;
     start_time := 1000 |}.


(** *** [update_workflow] and [_transform_workflow_to_api_format] *)

Section Graph.
Import Store.

(** Library conversions taken as parameters: the text of a float, the
    float a string denotes for [float()], and [str()] of a list or dict. *)
Variable float_repr : Q -> string.
Variable float_of_str : string -> option Q.
Variable container_repr : heap -> value -> string.

(** [str(v)]. *)
Definition str (v : value) : M string :=
  read (fun h =>
          Ok match v with
             | VNone => "None"
             | VBool b => if b then "True" else "False"
             | VInt z => pretty.pretty z
             | VFloat x => float_repr x
             | VStr s => s
             | VRef _ => container_repr h v
             end).

(** [float(v)]. *)
Definition float (v : value) : M Q :=
  match v with
  | VBool b => ret (if b then 1 else 0)%Q
  | VInt z => ret (inject_Z z)
  | VFloat x => ret x
  | VStr s =>
      match float_of_str s with
      | Some x => ret x
      | None => raise ValueError
      end
  | _ => raise TypeError
  end.

(** [s.lower()]. *)
Definition lower (v : value) : M string :=
  match v with
  | VStr s => ret (Py.lower s)
  | _ => raise AttributeError
  end.

(** The body of the loops of [update_workflow] over the nodes. *)
Definition update_node (prompt : string) (node : value) : M unit :=
  type <- get node "type" ;;
  if eq_str type "WanVideoTextEncode" then
    has_widgets <- contains "widgets_values" node ;;
    if has_widgets then
      widgets_values <- getitem_str node "widgets_values" ;;
      n <- len widgets_values ;;
      if 1 <=? n then setitem widgets_values (VInt 0) (VStr prompt)
      else ret tt
    else ret tt
  else ret tt.

Definition update_workflow (workflow : value) (prompt : string) : M value :=
  text <- dumps float_repr workflow ;;
  updated_workflow <- loads text ;;
  has_nodes <- contains "nodes" updated_workflow ;;
  (if has_nodes then
     nodes <- getitem_str updated_workflow "nodes" ;;
     is_list <- isinstance_list nodes ;;
     if is_list then
       items <- iterate nodes ;;
       for_each items (update_node prompt)
     else
       is_dict <- isinstance_dict nodes ;;
       if is_dict then
         values <- dict_values nodes ;;
         for_each values (update_node prompt)
       else ret tt
   else ret tt) ;;;
  ret updated_workflow.

(** [{name: widget_values[i], ...}] for the positions a schema names. *)
Fixpoint widgets (widget_values : value) (schema : list (string * Z))
    : M (list (string * value)) :=
  match schema with
  | [] => ret []
  | (name, i) :: rest =>
      v <- getitem_int widget_values i ;;
      entries <- widgets widget_values rest ;;
      ret ((name, v) :: entries)
  end.

(** [node_config["inputs"].update(entries)]. *)
Definition update_inputs (node_config : value) (entries : list (string * value))
    : M unit :=
  inputs <- getitem_str node_config "inputs" ;;
  update inputs entries.

(** The per-type translation of widget values. *)
Definition process_widgets (type widget_values node_config : value) : M unit :=
  if eq_str type "WanVideoTextEncode" then
    n <- len widget_values ;;
    if 2 <=? n then
      entries <- widgets widget_values [("positive_prompt", 0); ("negative_prompt", 1)] ;;
      force_zeros <- (if 2 <? n then getitem_int widget_values 2 else ret (VBool true)) ;;
      update_inputs node_config (entries ++ [("force_zeros", force_zeros)])
    else ret tt
  else if eq_str type "WanVideoBlockSwap" then
    n <- len widget_values ;;
    if 5 <=? n then
      entries <- widgets widget_values
                   [("blocks_to_swap", 0); ("offload_txt_emb", 1);
                    ("offload_img_emb", 2); ("non_blocking", 3);
                    ("vace_blocks_to_swap", 4)] ;;
      update_inputs node_config entries
    else ret tt
  else if eq_str type "WanVideoEmptyEmbeds" then
    n <- len widget_values ;;
    if 3 <=? n then
      entries <- widgets widget_values [("width", 0); ("height", 1); ("num_frames", 2)] ;;
      update_inputs node_config entries
    else ret tt
  else if eq_str type "WanVideoTorchCompileSettings" then
    n <- len widget_values ;;
    if 7 <=? n then
      entries <- widgets widget_values
                   [("backend", 0); ("fullgraph", 1); ("mode", 2);
                    ("max_autotune", 3); ("max_autotune_gemm_backends", 4);
                    ("use_fp16_cast", 5); ("max_autotune_gemm_warmup", 6)] ;;
      update_inputs node_config
        (entries ++ [("compile_transformer_blocks_only", VBool false);
                     ("dynamic", VBool false);
                     ("dynamo_cache_size_limit", VInt 64)])
    else ret tt
  else if eq_str type "WanVideoTeaCache" then
    n <- len widget_values ;;
    if 6 <=? n then
      first <- widgets widget_values [("start_step", 0); ("end_step", 1)] ;;
      w2 <- getitem_int widget_values 2 ;;
      x <- float w2 ;;
      let rel_l1_thresh := if Py.gt x 0 then x else 0%Q in
      w3 <- getitem_int widget_values 3 ;;
      w4 <- getitem_int widget_values 4 ;;
      let use_coefficients :=
        match w4 with
        | VStr s => VBool (String.eqb s "true")
        | _ => w4
        end in
      w5 <- getitem_int widget_values 5 ;;
      update_inputs node_config
        (first ++ [("rel_l1_thresh", VFloat rel_l1_thresh);
                   ("cache_device", w3);
                   ("use_coefficients", use_coefficients);
                   ("coeff_mode", w5)])
    else ret tt
  else if eq_str type "WanVideoEnhanceAVideo" then
    n <- len widget_values ;;
    if 3 <=? n then
      entries <- widgets widget_values
                   [("enhance_factor", 0); ("enhance_start", 1); ("enhance_end", 2)] ;;
      update_inputs node_config
        (entries ++ [("start_percent", VInt 0); ("end_percent", VInt 1);
                     ("weight", VInt 1)])
    else ret tt
  else if eq_str type "WanVideoSampler" then
    n <- len widget_values ;;
    if 10 <=? n then
      entries <- widgets widget_values
                   [("steps", 0); ("cfg", 1); ("shift", 2); ("seed", 3);
                    ("sampler_name", 4); ("diffusion_type", 5); ("scheduler", 6);
                    ("riflex_freq_index", 7)] ;;
      implementation <- (if 10 <? n then getitem_int widget_values 10
                         else ret (VStr "comfy")) ;;
      update_inputs node_config (entries ++ [("implementation", implementation)])
    else ret tt
  else if eq_str type "WanVideoDecode" then
    n <- len widget_values ;;
    if 5 <=? n then
      entries <- widgets widget_values
                   [("restore_faces", 0); ("tile_x", 1); ("tile_y", 2);
                    ("tile_stride_x", 3); ("tile_stride_y", 4)] ;;
      update_inputs node_config (entries ++ [("enable_vae_tiling", VBool true)])
    else ret tt
  else if eq_str type "WanVideoVAELoader" then
    n <- len widget_values ;;
    if 2 <=? n then
      entries <- widgets widget_values [("model_name", 0); ("precision", 1)] ;;
      update_inputs node_config entries
    else ret tt
  else if eq_str type "WanVideoModelLoader" then
    n <- len widget_values ;;
    if 5 <=? n then
      w2 <- getitem_int widget_values 2 ;;
      lowered <- lower w2 ;;
      let quantization := if Py.contains lowered "fp8" then VStr "disabled" else w2 in
      first <- widgets widget_values [("model", 0); ("base_precision", 1)] ;;
      last <- widgets widget_values [("load_device", 3); ("attention_implementation", 4)] ;;
      update_inputs node_config (first ++ [("quantization", quantization)] ++ last)
    else ret tt
  else if eq_str type "VHS_VideoCombine" then
    is_dict <- isinstance_dict widget_values ;;
    if is_dict then
      frame_rate <- get_default widget_values "frame_rate" (VInt 24) ;;
      loop_count <- get_default widget_values "loop_count" (VInt 0) ;;
      filename_prefix <- get_default widget_values "filename_prefix" (VStr "video_output") ;;
      format_type <- get_default widget_values "format" (VStr "video/h264-mp4") ;;
      pingpong <- get_default widget_values "pingpong" (VBool false) ;;
      save_output <- get_default widget_values "save_output" (VBool true) ;;
      update_inputs node_config
        [("frame_rate", frame_rate); ("loop_count", loop_count);
         ("filename_prefix", filename_prefix); ("format", format_type);
         ("pingpong", pingpong); ("save_output", save_output)]
    else ret tt
  else ret tt.

(** [for link in workflow["links"]: if link[0] == link_id: ...; break]. *)
Fixpoint connect (links : list value) (link_id input_name node_config : value)
    : M unit :=
  match links with
  | [] => ret tt
  | link :: rest =>
      first <- getitem_int link 0 ;;
      same <- equal first link_id ;;
      if same then
        source <- getitem_int link 1 ;;
        source_node_id <- str source ;;
        output_index <- getitem_int link 2 ;;
        pair <- alloc (OList [VStr source_node_id; output_index]) ;;
        inputs <- getitem_str node_config "inputs" ;;
        setitem inputs input_name (VRef pair)
      else connect rest link_id input_name node_config
  end.

Definition process_links (node node_config workflow : value) : M unit :=
  has_inputs <- contains "inputs" node ;;
  linked <- (if has_inputs then links <- get workflow "links" ;; truthy links
             else ret false) ;;
  if linked then
    inputs <- getitem_str node "inputs" ;;
    items <- iterate inputs ;;
    for_each items
      (fun input_data =>
         input_name <- getitem_str input_data "name" ;;
         link_id <- get input_data "link" ;;
         match link_id with
         | VNone => ret tt
         | _ =>
             links <- getitem_str workflow "links" ;;
             link_items <- iterate links ;;
             connect link_items link_id input_name node_config
         end)
  else ret tt.

Definition _process_node_inputs (node node_config workflow : value) : M unit :=
  has_widgets <- contains "widgets_values" node ;;
  (if has_widgets then
     widget_values <- getitem_str node "widgets_values" ;;
     type <- getitem_str node "type" ;;
     process_widgets type widget_values node_config
   else ret tt) ;;;
  process_links node node_config workflow.

(** The body of the loop over [workflow["nodes"]]. *)
Definition transform_node (workflow api_prompt node : value) : M unit :=
  type <- getitem_str node "type" ;;
  if eq_str type "Note" then ret tt
  else
    declared <- get node "class_type" ;;
    use_declared <- truthy declared ;;
    class_type <- (if use_declared then ret declared else getitem_str node "type") ;;
    inputs <- alloc (ODict []) ;;
    node_config <- alloc (ODict [(VStr "class_type", class_type);
                                 (VStr "inputs", VRef inputs)]) ;;
    title <- get node "title" ;;
    titled <- truthy title ;;
    (if titled then
       title <- getitem_str node "title" ;;
       meta <- alloc (ODict [(VStr "title", title)]) ;;
       setitem (VRef node_config) (VStr "_meta") (VRef meta)
     else ret tt) ;;;
    _process_node_inputs node (VRef node_config) workflow ;;;
    id <- getitem_str node "id" ;;
    key <- str id ;;
    setitem api_prompt (VStr key) (VRef node_config).

Definition _transform_workflow_to_api_format (workflow : value) : M value :=
  nodes <- get workflow "nodes" ;;
  has_nodes <- truthy nodes ;;
  if negb has_nodes then
    prompt <- get workflow "prompt" ;;
    has_prompt <- truthy prompt ;;
    if has_prompt then getitem_str workflow "prompt" else ret workflow
  else
    nodes <- get workflow "nodes" ;;
    is_dict <- isinstance_dict nodes ;;
    if is_dict then getitem_str workflow "nodes"
    else
      api_prompt <- alloc (ODict []) ;;
      nodes <- getitem_str workflow "nodes" ;;
      items <- iterate nodes ;;
      for_each items (transform_node workflow (VRef api_prompt)) ;;;
      ret (VRef api_prompt).

End Graph.

(** *** Sample graphs and the reading of "execution form" *)

Section GraphSamples.
Import Store.

(** Conversions good enough for graphs without floats: a float is shown
    by its integer part, no string denotes a float, a container is shown as
    nothing. *)
Definition plain_float_repr (x : Q) : string := pretty.pretty (Qfloor x).
Definition no_float_of_str (s : string) : option Q := None.
Definition no_container_repr (h : heap) (v : value) : string := "".

(** A visual graph with one text-encoding node and a note. *)
Definition visual_graph : heap :=
  list_to_map
    [(1%positive, ODict [(VStr "nodes", VRef 2%positive); (VStr "links", VRef 7%positive)]);
     (2%positive, OList [VRef 3%positive; VRef 5%positive]);
     (3%positive, ODict [(VStr "id", VInt 16);
                         (VStr "type", VStr "WanVideoTextEncode");
                         (VStr "widgets_values", VRef 4%positive);
                         (VStr "inputs", VRef 6%positive)]);
     (4%positive, OList [VStr "a cat"; VStr "blurry"]);
     (5%positive, ODict [(VStr "id", VInt 40); (VStr "type", VStr "Note")]);
     (6%positive, OList []);
     (7%positive, OList [])].

(** A payload that wraps an execution-form graph under ["prompt"]. *)
Definition wrapped_graph : heap :=
  list_to_map
    [(1%positive, ODict [(VStr "prompt", VRef 2%positive); (VStr "client_id", VStr "c")]);
     (2%positive, ODict [(VStr "38", VRef 3%positive)]);
     (3%positive, ODict [(VStr "class_type", VStr "WanVideoVAELoader");
                         (VStr "inputs", VRef 4%positive)]);
     (4%positive, ODict [(VStr "precision", VStr "bf16")])].

(** An execution-form graph: node ids mapped to compiled records. *)
Definition execution_graph : heap :=
  list_to_map
    [(1%positive, ODict [(VStr "38", VRef 2%positive)]);
     (2%positive, ODict [(VStr "class_type", VStr "WanVideoVAELoader");
                         (VStr "inputs", VRef 3%positive)]);
     (3%positive, ODict [(VStr "precision", VStr "bf16")])].

(** A graph with no node list: a dict whose ["nodes"] entry is absent or
    is not a list. *)
Definition no_node_list (h : heap) (workflow : value) : Prop :=
  exists v, get_pure h workflow "nodes" VNone = Ok v /\
            isinstance_pure false h v = Ok false.

(** The entry [k] of the dict [workflow] is absent or falsy. *)
Definition entry_empty (h : heap) (workflow : value) (k : string) : Prop :=
  exists v, get_pure h workflow k VNone = Ok v /\ truthy_pure h v = Ok false.

End GraphSamples.

(** *** Further observations on a run *)

(** The time slept after each iteration of a run, in order. *)
Fixpoint sleeps (c : call) (st : loop_state) (polls : list poll) : list Q :=
  match polls with
  | [] => []
  | p :: rest =>
      match snd (step c st p) with
      | Continue st' slept => slept :: sleeps c st' rest
      | _ => []
      end
  end.

(** A progress message to the callback: neither a log line nor an error
    message. *)
Definition is_progress (r : report) : bool :=
  match r with
  | Status (Progress _ _) => true
  | _ => false
  end.

(** The loop has gone through the polls [pre] and is still running: each
    was read within the budget and none ended the loop; [rs] is what was
    told on the way, progress messages only, and [st] what the loop
    carries. *)
Definition polled (c : call) (pre : list poll) (rs : list report)
    (st : loop_state) : Prop :=
  run c initial_state pre = (rs, Polling st) /\
  Forall (fun q => timed_out c q = false) pre /\
  Forall (fun r => is_progress r = true) rs.

(** [prompt_id] occurs in an optional queue list. *)
Definition listed (prompt_id : string) (items : option (list json)) : bool :=
  match items with
  | Some l => existsb (item_is prompt_id) l
  | None => false
  end.

(** A history in which the job is marked failed although node 30 has
    produced its output, polled while the job is still listed as pending. *)
Definition failed_with_output : history_t :=
  {| entry := Some {| entry_status :=
                        Some {| completed := Some false;
                                status_str := Some "error";
                                status_error := Some "out of memory" |};
                      entry_outputs := Some {[ "30" := JNull ]};
                      entry_executing := None |};
     top_error := None; top_outputs := None; top_executing := None |}.

Definition pending_queue : queue_t :=
  {| data_running := Some [JArr [JInt 7; JStr "other"]];
     data_pending := Some [JArr [JInt 8; JStr "q"]; JArr [JInt 9; JStr "p"]];
     data_progress := None |}.

Definition stale_poll : poll :=
  poll_at 1010 (HistoryResponse 200 failed_with_output)
    (QueueResponse 200 pending_queue).

(** A history in which the job is marked failed and node 30 is absent. *)
Definition failed_history : history_t :=
  {| entry := Some {| entry_status :=
                        Some {| completed := None;
                                status_str := Some "error";
                                status_error := Some "out of memory" |};
                      entry_outputs := None;
                      entry_executing := None |};
     top_error := None; top_outputs := None; top_executing := None |}.

Definition failed_poll : poll :=
  poll_at 1010 (HistoryResponse 200 failed_history) (QueueResponse 200 empty_queue).

(** The same failed history, polled while the job is still listed as
    pending. *)
Definition queued_failed_poll : poll :=
  poll_at 1010 (HistoryResponse 200 failed_history) (QueueResponse 200 pending_queue).

(** A poll whose queue request raises. *)
Definition broken_queue_poll : poll :=
  poll_at 1010 (HistoryResponse 200 partial_history) QueueGetRaises.

(** A run that ends with node 30 in the outputs after two quiet polls. *)
Definition done_history : history_t :=
  {| entry := Some {| entry_status := None;
                      entry_outputs := Some {[ "30" := JNull ]};
                      entry_executing := None |};
     top_error := None; top_outputs := None; top_executing := None |}.

Definition finishing_polls : list poll :=
  [quiet_poll 1010; quiet_poll 1020;
   poll_at 1030 (HistoryResponse 200 done_history) (QueueResponse 200 empty_queue)].

(** *** Further observations on submission and download *)

(** The job id a reply hands over: that of a 200 response. *)
Definition accepted (r : post_reply) : option string :=
  match r with
  | PostResponse status_code prompt_id =>
      if status_code =? 200 then prompt_id else None
  | _ => None
  end.

(** The seconds slept in a trace. *)
Fixpoint slept_in (tr : list event) : Q :=
  match tr with
  | [] => 0
  | Sleep seconds :: rest => (seconds + slept_in rest)%Q
  | _ :: rest => slept_in rest
  end.

(** A first attempt that dies of an exception other than a network one. *)
Definition crashing_post (i : nat) : post_reply :=
  match i with
  | 0%nat => PostOtherException
  | _ => PostResponse 200 (Some "job-2")
  end.

(** The status of a reply, when it has one. *)
Definition reply_status (reply : get_reply) : option Z :=
  match reply with
  | GetRaises => None
  | GetResponse status_code _ _ => Some status_code
  end.

(** A disk that already holds a file. *)
Definition used_disk : disk :=
  {| dirs := {[ "out" ]};
     files := {[ "out/old.mp4" := [Byte.x09] ]} |}.

(** *** [get_output_files] *)

(** An element of an output list: a dict, read through the keys the
    client looks at, or anything else. *)
Record item := {
  item_filename : option string;
  item_subfolder : option string;
  item_type : option string;
  item_format : option string;
  item_frame_rate : option Q
}.

Inductive element :=
| ItemDict (i : item)
| ItemOther.

(** The value under an output type of a node: a list or anything else;
    and the value under a node id: a dict of those or anything else. *)
Inductive output_data :=
| OutputList (items : list element)
| OutputOther.

Inductive node_outputs :=
| NodeDict (outputs : list (string * output_data))
| NodeOther.

(** What [get_history] hands over: nothing (a failure or an empty body),
    a body with an entry under the prompt id, or a body without one; in both
    forms the "outputs" dict may be absent. *)
Inductive outputs_reply :=
| NoHistory
| Nested (outputs : option (list (string * node_outputs)))
| Direct (outputs : option (list (string * node_outputs))).

Record file_info := {
  filename : string;
  subfolder : string;
  type : string;
  node_id : string;
  file_type : string;
  format : option string;
  frame_rate : option Q;
  url : string
}.

Section Outputs.

Variable urlencode : list (string * param) -> string.

(** The entry made for a dict item that has a "filename". *)
Definition file_of (self : client) (node_id : string) (i : item) : option file_info :=
  match item_filename i with
  | None => None
  | Some filename =>
      let is_video := Py.startswith (default "" (item_format i)) "video/" in
      let subfolder := default "" (item_subfolder i) in
      Some
        (if is_video then
           let format := default "video/h264-mp4" (item_format i) in
           let frame_rate := default 24%Q (item_frame_rate i) in
           {| filename := filename; subfolder := subfolder;
              type := default "output" (item_type i);
              node_id := node_id; file_type := "video";
              format := Some format; frame_rate := Some frame_rate;
              url := get_video_url urlencode self filename subfolder format frame_rate |}
         else
           let base_url := server_url self +:+ "/api/view" in
           let url_params :=
             [("filename", PStr filename); ("type", PStr "output")]
             ++ (if Py.truthy_str subfolder then [("subfolder", PStr subfolder)] else []) in
           {| filename := filename; subfolder := subfolder;
              type := default "output" (item_type i);
              node_id := node_id; file_type := "image";
              format := None; frame_rate := None;
              url := base_url +:+ "?" +:+ urlencode url_params |})
  end.

Definition files_of_data (self : client) (node_id : string) (data : output_data)
    : list file_info :=
  match data with
  | OutputList items =>
      omap (fun e => match e with
                     | ItemDict i => file_of self node_id i
                     | ItemOther => None
                     end) items
  | OutputOther => []
  end.

Definition files_of_node (self : client) (node_id : string)
    (outputs : list (string * output_data)) : list file_info :=
  flat_map (fun kv => files_of_data self node_id (snd kv)) outputs.

Definition is_node_dict (n : node_outputs) : bool :=
  match n with NodeDict _ => true | NodeOther => false end.

(** In the nested form a node whose outputs are not a dict is skipped;
    in the direct form [node_outputs.items()] raises on it, and the
    enclosing [except] answers with the empty list. *)
Definition get_output_files (self : client) (reply : outputs_reply) : list file_info :=
  match reply with
  | NoHistory => []
  | Nested None | Direct None => []
  | Nested (Some outputs) =>
      flat_map (fun kv => match snd kv with
                          | NodeDict o => files_of_node self (fst kv) o
                          | NodeOther => []
                          end) outputs
  | Direct (Some outputs) =>
      if forallb (fun kv => is_node_dict (snd kv)) outputs then
        flat_map (fun kv => match snd kv with
                            | NodeDict o => files_of_node self (fst kv) o
                            | NodeOther => []
                            end) outputs
      else []
  end.

End Outputs.

(** A reply that lists a clip and a still under node 30. *)
Definition demo_outputs : outputs_reply :=
  Nested (Some
    [("30", NodeDict
       [("gifs", OutputList
          [ItemDict {| item_filename := Some "clip.mp4"; item_subfolder := Some "";
                       item_type := Some "output";
                       item_format := Some "video/h264-mp4";
                       item_frame_rate := Some 16%Q |};
           ItemOther]);
        ("images", OutputList
          [ItemDict {| item_filename := Some "last.png"; item_subfolder := Some "stills";
                       item_type := None; item_format := None;
                       item_frame_rate := None |}])])]).

End Wan.

(** ** scripts/005-text-to-image-HiDream-script: the poll loop *)

Module HiDream.

(** The body of [GET /queue]: the two lists of jobs, each job an array
    with the prompt id at index 1, and whether it has any other key. *)
Record queue_t := {
  queue_running : option (list (list json));
  queue_pending : option (list (list json));
  other_keys : bool
}.

(** The truth value of the body: an object without keys is falsy. *)
Definition body_truthy (queue_data : queue_t) : bool :=
  match queue_running queue_data, queue_pending queue_data with
  | None, None => other_keys queue_data
  | _, _ => true
  end.

(** [get_queue_status] answers [None] when the GET raises, when the
    status is not 200 and when the body is not JSON. *)
Inductive queue_reply :=
| QueueFails
| QueueResponse (status_code : Z) (body : queue_t).

Definition get_queue_status (reply : queue_reply) : option queue_t :=
  match reply with
  | QueueFails => None
  | QueueResponse status_code body =>
      if status_code =? 200 then Some body else None
  end.

(** [len(job) > 1 and job[1] == prompt_id]. *)
Definition job_is (prompt_id : string) (job : list json) : bool :=
  match job with
  | _ :: JStr s :: _ => String.eqb s prompt_id
  | _ => false
  end.

Definition is_prompt_in_queue (prompt_id : string) (reply : queue_reply)
    : bool * string :=
  match get_queue_status reply with
  | None => (false, "unknown")
  | Some queue_data =>
      if negb (body_truthy queue_data) then (false, "unknown")
      else if existsb (job_is prompt_id) (default [] (queue_running queue_data))
      then (true, "running")
      else if existsb (job_is prompt_id) (default [] (queue_pending queue_data))
      then (true, "pending")
      else (false, "not_found")
  end.

(** The entry of the job in the body of [GET /history/{prompt_id}]. *)
Record status_field := {
  completed : option bool;
  status_str : option string;
  status_error : option string
}.

Record prompt_entry := {
  entry_status : option status_field;
  has_outputs : bool                    (* "outputs" in prompt_data *)
}.

(** [get_history_direct] answers [None] on any failure; otherwise the
    body, of which the client reads the entry under the prompt id. *)
Inductive history_reply :=
| HistoryFails
| HistoryBody (entry : option prompt_entry).

Definition check_workflow_status (prompt_id : string)
    (queue : queue_reply) (history : history_reply)
    : bool * option prompt_entry * option string :=
  let '(in_queue, queue_status) := is_prompt_in_queue prompt_id queue in
  if in_queue then (false, None, Some ("Still in queue: " +:+ queue_status))
  else
    let still := (false, None, Some "Still processing") in
    match history with
    | HistoryBody (Some prompt_data) =>
        match entry_status prompt_data with
        | Some st =>
            if match completed st with Some true => has_outputs prompt_data | _ => false end
            then (true, Some prompt_data, None)
            else if match status_str st with
                    | Some s => String.eqb s "error"
                    | None => false
                    end
            then
              let error := default "Unknown error" (status_error st) in
              (false, Some prompt_data, Some ("Error: " +:+ error))
            else still
        | None => still
        end
    | _ => still
    end.

(** What the callback is told and the log lines that close the loop. *)
Inductive report :=
| Running (percent_complete : Z)            (* "Running ({pct}% time elapsed)" *)
| Complete                                  (* "100% - Complete" *)
| Progress (percent_complete : Z) (text : string)   (* "{pct}% - {text}" *)
| LogTimedOut
| LogCompleted
| LogFailed (error_msg : string).

Record call := {
  prompt_id : string;
  timeout_minutes : Z;
  status_callback : bool;
  start_time : Q
}.

Definition timeout_seconds (c : call) : Z := timeout_minutes c * 60.

(** One iteration reads the clock once and may query the queue twice,
    in the loop itself and again inside [check_workflow_status]. *)
Record poll := {
  t_loop : Q;
  queue_first : queue_reply;
  queue_second : queue_reply;
  history : history_reply
}.

Inductive step_result :=
| Return (value : bool)
| Raise                                     (* ZeroDivisionError *)
| Continue (check_interval : Q) (slept : Q).

Definition tell (c : call) (r : report) : list report :=
  if status_callback c then [r] else [].

Definition timed_out (c : call) (p : poll) : bool :=
  Py.gt (t_loop p - start_time c) (inject_Z (timeout_seconds c)).

Definition step (c : call) (check_interval : Q) (p : poll)
    : list report * step_result :=
  let elapsed_time := (t_loop p - start_time c)%Q in
  if Py.gt elapsed_time (inject_Z (timeout_seconds c)) then
    ([LogTimedOut], Return false)
  else if timeout_seconds c =? 0 then ([], Raise)
  else
    let percent_complete :=
      Z.min 95 (Py.int ((elapsed_time / inject_Z (timeout_seconds c)) * 100)) in
    let '(in_queue, _) := is_prompt_in_queue (prompt_id c) (queue_first p) in
    if in_queue then
      (tell c (Running percent_complete), Continue check_interval check_interval)
    else
      let '(is_complete, _, error_msg) :=
        check_workflow_status (prompt_id c) (queue_second p) (history p) in
      let told :=
        if is_complete then tell c Complete
        else
          match error_msg with
          | Some m =>
              if Py.truthy_str m then tell c (Progress percent_complete m)
              else tell c (Progress percent_complete "Processing")
          | None => tell c (Progress percent_complete "Processing")
          end in
      if is_complete then (told ++ [LogCompleted], Return true)
      else
        let failed :=
          match error_msg with
          | Some m => if Py.truthy_str m && Py.contains m "Error:" then Some m else None
          | None => None
          end in
        match failed with
        | Some m => (told ++ [LogFailed m], Return false)
        | None =>
            let check_interval' := Py.min 10 (check_interval * (12 # 10)) in
            (told, Continue check_interval' check_interval')
        end.

Inductive run_result :=
| Returned (value : bool)
| Raised
| Polling (check_interval : Q).

Fixpoint run (c : call) (check_interval : Q) (polls : list poll)
    : list report * run_result :=
  match polls with
  | [] => ([], Polling check_interval)
  | p :: rest =>
      let '(rs, r) := step c check_interval p in
      match r with
      | Return value => (rs, Returned value)
      | Raise => (rs, Raised)
      | Continue check_interval' _ =>
          let '(rs', r') := run c check_interval' rest in
          (rs ++ rs', r')
      end
  end.

Definition wait_for_workflow_completion (c : call) (polls : list poll)
    : list report * run_result :=
  run c 2 polls.

(** The clock advances by at least the time slept between iterations. *)
Fixpoint sleeps_elapse (c : call) (check_interval : Q) (polls : list poll) : bool :=
  match polls with
  | p :: rest =>
      match snd (step c check_interval p), rest with
      | Continue check_interval' slept, p' :: _ =>
          Py.le (t_loop p + slept) (t_loop p') && sleeps_elapse c check_interval' rest
      | _, _ => true
      end
  | [] => true
  end.

Definition poll_budget (c : call) : nat :=
  Z.to_nat (Z.max 0 (timeout_seconds c) / 2) + 2.

(** A call with a one minute budget and polls three seconds apart in
    which the job stays in the running list. *)
Definition busy_queue : queue_t :=
  {| queue_running := Some [[JInt 0; JStr "p"]]; queue_pending := Some [];
     other_keys := false |}.

Definition busy_poll (t : Q) : poll :=
  {| t_loop := t; queue_first := QueueResponse 200 busy_queue;
     queue_second := QueueResponse 200 busy_queue; history := HistoryFails |}.

Definition short_call : call :=
  {| prompt_id := "p"; timeout_minutes := 1; status_callback := true;
     start_time := 1000 |}.


(** *** Observations on a run *)

(** The time slept after each iteration of a run, in order. *)
Fixpoint sleeps (c : call) (check_interval : Q) (polls : list poll) : list Q :=
  match polls with
  | [] => []
  | p :: rest =>
      match snd (step c check_interval p) with
      | Continue check_interval' slept => slept :: sleeps c check_interval' rest
      | _ => []
      end
  end.

(** What the callback is told, as opposed to the log lines that close
    the loop. *)
Definition is_told (r : report) : bool :=
  match r with
  | Running _ | Complete | Progress _ _ => true
  | _ => false
  end.

(** The loop has gone through the polls [pre] and is still running: each
    was read within the budget and none ended the loop; [rs] is what the
    callback was told on the way and [check_interval] the interval the loop
    carries. *)
Definition polled (c : call) (pre : list poll) (rs : list report)
    (check_interval : Q) : Prop :=
  run c 2 pre = (rs, Polling check_interval) /\
  Forall (fun q => timed_out c q = false) pre /\
  Forall (fun r => is_told r = true) rs.

(** The percentage a report carries. *)
Definition percentage (r : report) : option Z :=
  match r with
  | Running pct => Some pct
  | Complete => Some 100
  | Progress pct _ => Some pct
  | _ => None
  end.

(** A report is modest when its percentage, if any, is at most 95. *)
Definition modest (r : report) : Prop :=
  forall pct, percentage r = Some pct -> pct <= 95.

(** The entry of the job says completed and has an "outputs" key. *)
Definition entry_done (history : history_reply) : bool :=
  match history with
  | HistoryBody (Some prompt_data) =>
      match entry_status prompt_data with
      | Some st =>
          match completed st with
          | Some true => has_outputs prompt_data
          | _ => false
          end
      | None => false
      end
  | _ => false
  end.

(** Neither queue reply of the poll lists the job and its history entry
    is done. *)
Definition shows_done (prompt_id : string) (p : poll) : bool :=
  negb (fst (is_prompt_in_queue prompt_id (queue_first p)))
  && negb (fst (is_prompt_in_queue prompt_id (queue_second p)))
  && entry_done (history p).

(** A job that runs for two polls and is then found done. *)
Definition idle_queue : queue_t :=
  {| queue_running := Some [[JInt 0; JStr "other"]]; queue_pending := Some [];
     other_keys := false |}.

Definition done_poll (t : Q) : poll :=
  {| t_loop := t; queue_first := QueueResponse 200 idle_queue;
     queue_second := QueueResponse 200 idle_queue;
     history :=
       HistoryBody (Some {| entry_status :=
                              Some {| completed := Some true;
                                      status_str := Some "success";
                                      status_error := None |};
                            has_outputs := true |}) |}.

Definition finishing_polls : list poll :=
  [busy_poll 1003; busy_poll 1006; done_poll 1009].

End HiDream.

(** ** scripts/002-comfyui-script: [update_workflow] *)

Module SonicGraph.
Import Store.

(** [os.path.basename(path)]: what follows the last slash. *)
Fixpoint basename (path : string) : string :=
  match path with
  | EmptyString => EmptyString
  | String c rest =>
      if Py.contains rest "/" then basename rest
      else if Ascii.eqb c "/" then rest
      else path
  end.

(** [s.replace(old, new)]: every occurrence of [old], left to right and
    without overlap; an empty [old] matches before every character and at
    the end. [skip] counts the characters of a match still to be dropped. *)
Fixpoint replace_from (old new : string) (skip : nat) (s : string) : string :=
  match s with
  | EmptyString => EmptyString
  | String c rest =>
      match skip with
      | S k => replace_from old new k rest
      | O =>
          if Py.startswith s old
          then new +:+ replace_from old new (String.length old - 1) rest
          else String c (replace_from old new 0 rest)
      end
  end.

Fixpoint intersperse (new s : string) : string :=
  match s with
  | EmptyString => EmptyString
  | String c rest => String c (new +:+ intersperse new rest)
  end.

Definition replace (s old new : string) : string :=
  match old with
  | EmptyString => new +:+ intersperse new s
  | _ => replace_from old new 0 s
  end.

(** What the call finds outside: the audio file as [mutagen] reads it,
    the paths that exist, the working directory, and the image [PIL] opens
    at a path. *)
Record media := {
  audio : Sonic.audio_load;
  path_exists : string -> bool;           (* os.path.exists *)
  getcwd : string;                        (* os.getcwd() *)
  image_at : string -> Sonic.image_load
}.

(** The path at which the image is looked for. *)
Definition original_image_path (env : media) (image_name audio_path : string)
    : string :=
  let original_image_path := replace audio_path (basename audio_path) image_name in
  if negb (path_exists env original_image_path) then
    let input_dir := Wan.path_join (getcwd env) "input" in
    if path_exists env input_dir then
      let possible_path := Wan.path_join input_dir image_name in
      if path_exists env possible_path then possible_path
      else original_image_path
    else original_image_path
  else original_image_path.

Definition optimal_dimensions (env : media) (image_name audio_path : string)
    : Z * Z :=
  let path := original_image_path env image_name audio_path in
  if path_exists env path then Sonic.get_optimal_dimensions (image_at env path)
  else (576, 576).

(** [x.items()]. *)
Definition dict_items_pure (h : heap) (x : value) : outcome (list (value * value)) :=
  match x with
  | VRef l =>
      match lookup_object h l with
      | Ok (ODict items) => Ok items
      | Ok (OList _) => Exc AttributeError
      | Exc e => Exc e
      end
  | _ => Exc AttributeError
  end.
Definition dict_items (x : value) : M (list (value * value)) :=
  read (fun h => dict_items_pure h x).

(** [node["inputs"][key] = v]. *)
Definition set_input (node : value) (key : string) (v : value) : M unit :=
  inputs <- getitem_str node "inputs" ;;
  setitem inputs (VStr key) v.

(** [key in node["inputs"]]. *)
Definition has_input (node : value) (key : string) : M bool :=
  inputs <- getitem_str node "inputs" ;;
  contains key inputs.

Section Inject.

Variable image_name : string.
Variable audio_name : string.           (* os.path.basename(audio_path) *)
Variable optimal : Z * Z.               (* optimal_width, optimal_height *)
Variable audio_duration : Z.

(** "Update LoadImage node". *)
Definition update_load_image (node : value) : M unit :=
  class_type <- get node "class_type" ;;
  if eq_str class_type "LoadImage" then set_input node "image" (VStr image_name)
  else ret tt.

(** "Update Image Resize node". *)
Definition update_image_resize (node : value) : M unit :=
  class_type <- get node "class_type" ;;
  if eq_str class_type "Image Resize" then
    inputs <- getitem_str node "inputs" ;;
    get_default inputs "resize_width" (VInt 576) ;;;
    inputs <- getitem_str node "inputs" ;;
    get_default inputs "resize_height" (VInt 576) ;;;
    set_input node "resize_width" (VInt (fst optimal)) ;;;
    set_input node "resize_height" (VInt (snd optimal))
  else ret tt.

(** "Update the LoadAudio or VHS_LoadAudio node with the audio path". *)
Definition update_load_audio (node : value) : M unit :=
  class_type <- get node "class_type" ;;
  if eq_str class_type "LoadAudio" || eq_str class_type "VHS_LoadAudio" then
    has_audio <- has_input node "audio" ;;
    if has_audio then set_input node "audio" (VStr audio_name)
    else
      has_audio_file <- has_input node "audio_file" ;;
      if has_audio_file then
        set_input node "audio_file" (VStr ("input/" +:+ audio_name))
      else ret tt
  else ret tt.

(** "Update the SONIC_PreData node with the duration". *)
Definition update_pre_data (node : value) : M unit :=
  class_type <- get node "class_type" ;;
  has_duration <- (if eq_str class_type "SONIC_PreData"
                   then has_input node "duration" else ret false) ;;
  if has_duration then set_input node "duration" (VInt audio_duration)
  else ret tt.

(** "Specifically target node 33 (SONIC_PreData) if it exists". *)
Definition update_node_33 (node_id node : value) : M unit :=
  if eq_str node_id "33" then
    class_type <- get node "class_type" ;;
    if eq_str class_type "SONIC_PreData"
    then set_input node "duration" (VInt audio_duration)
    else ret tt
  else ret tt.

(** The body of [for node_id, node in updated_workflow.items()]. *)
Definition update_node (item : value * value) : M unit :=
  let '(node_id, node) := item in
  update_load_image node ;;;
  update_image_resize node ;;;
  update_load_audio node ;;;
  update_pre_data node ;;;
  update_node_33 node_id node.

End Inject.

Section Update.

Variable float_repr : Q -> string.

Definition update_workflow (env : media) (workflow : value)
    (image_name audio_path : string) : M value :=
  text <- dumps float_repr workflow ;;
  updated_workflow <- loads text ;;
  let audio_duration := Sonic.get_audio_duration (audio env) in
  let optimal := optimal_dimensions env image_name audio_path in
  items <- dict_items updated_workflow ;;
  for_each items
    (update_node image_name (basename audio_path) optimal audio_duration) ;;;
  ret updated_workflow.

End Update.

(** *** The vocabulary of the proofs *)

(** The values the loop writes, by key. *)
Definition written (image_name audio_name : string) (optimal : Z * Z)
    (audio_duration : Z) : list (string * value) :=
  [("image", VStr image_name);
   ("resize_width", VInt (fst optimal));
   ("resize_height", VInt (snd optimal));
   ("audio", VStr audio_name);
   ("audio_file", VStr ("input/" +:+ audio_name));
   ("duration", VInt audio_duration)].

(** [items'] is [items] but for entries the table prescribes. *)
Definition steady (W : list (string * value)) (items items' : list (value * value))
    : Prop :=
  forall k,
    dict_get items' (VStr k) = dict_get items (VStr k) \/
    exists v, table_get W k = Some v /\ dict_get items' (VStr k) = Some v.

(** Every object of [h] is in [h'], a list as it was and a dict changed at
    most in entries the table prescribes, and [h'] has no other objects. *)
Definition evolves (W : list (string * value)) (h h' : heap) : Prop :=
  forall l,
    match h !! l, h' !! l with
    | None, None => True
    | Some (OList xs), Some (OList xs') => xs' = xs
    | Some (ODict items), Some (ODict items') => steady W items items'
    | _, _ => False
    end.

(** The dict under ["inputs"] of the node, and its class. *)
Definition inputs_at (h : heap) (node : value) (inputs : list (value * value))
    : Prop :=
  exists n items li,
    node = VRef n /\ h !! n = Some (ODict items) /\
    dict_get items (VStr "inputs") = Some (VRef li) /\
    h !! li = Some (ODict inputs).

Definition class_is (h : heap) (node : value) (class_type : string) : Prop :=
  exists n items,
    node = VRef n /\ h !! n = Some (ODict items) /\
    dict_get items (VStr "class_type") = Some (VStr class_type).

(** What the inputs of a node of a given class look like once the node
    has been visited. *)
Definition injected (image_name audio_name : string) (optimal : Z * Z)
    (audio_duration : Z) (h : heap) (node : value) : Prop :=
  forall inputs, inputs_at h node inputs ->
    (class_is h node "LoadImage" ->
     dict_get inputs (VStr "image") = Some (VStr image_name)) /\
    (class_is h node "Image Resize" ->
     dict_get inputs (VStr "resize_width") = Some (VInt (fst optimal)) /\
     dict_get inputs (VStr "resize_height") = Some (VInt (snd optimal))) /\
    (class_is h node "LoadAudio" \/ class_is h node "VHS_LoadAudio" ->
     (dict_get inputs (VStr "audio") <> None ->
      dict_get inputs (VStr "audio") = Some (VStr audio_name)) /\
     (dict_get inputs (VStr "audio") = None ->
      dict_get inputs (VStr "audio_file") <> None ->
      dict_get inputs (VStr "audio_file") = Some (VStr ("input/" +:+ audio_name)))) /\
    (class_is h node "SONIC_PreData" ->
     dict_get inputs (VStr "duration") <> None ->
     dict_get inputs (VStr "duration") = Some (VInt audio_duration)).

(** *** A sample graph and its media *)

Definition avatar_graph : heap :=
  list_to_map
    [(1%positive, ODict [(VStr "10", VRef 2%positive);
                         (VStr "20", VRef 4%positive);
                         (VStr "32", VRef 6%positive);
                         (VStr "33", VRef 8%positive)]);
     (2%positive, ODict [(VStr "class_type", VStr "LoadImage");
                         (VStr "inputs", VRef 3%positive)]);
     (3%positive, ODict [(VStr "image", VStr "placeholder.png")]);
     (4%positive, ODict [(VStr "class_type", VStr "Image Resize");
                         (VStr "inputs", VRef 5%positive)]);
     (5%positive, ODict [(VStr "resize_width", VInt 576);
                         (VStr "resize_height", VInt 576);
                         (VStr "image", VRef 9%positive)]);
     (6%positive, ODict [(VStr "class_type", VStr "LoadAudio");
                         (VStr "inputs", VRef 7%positive)]);
     (7%positive, ODict [(VStr "audio", VStr "placeholder.wav")]);
     (8%positive, ODict [(VStr "class_type", VStr "SONIC_PreData");
                         (VStr "inputs", VRef 10%positive)]);
     (9%positive, OList [VStr "10"; VInt 0]);
     (10%positive, ODict [(VStr "duration", VInt 3); (VStr "fps", VInt 25)])].

(** A speech clip of 7.8 seconds next to a picture of 1920 by 1080 pixels. *)
Definition avatar_media : media :=
  {| audio := Sonic.Loaded (Sonic.Finite (78 # 10));
     path_exists := fun path => String.eqb path "media/face.png";
     getcwd := "/work";
     image_at := fun path =>
       if String.eqb path "media/face.png" then Sonic.Opened 1920 1080
       else Sonic.OpenRaises |}.

End SonicGraph.

(** ** scripts/002-comfyui-script: the status check and the poll loop *)

Module SonicTracker.

(** The entry of the job as [get_history] returns it, read through the
    keys the client looks at. *)
Record file_entry := {
  filename : option string;
  subfolder : option string;
  fullpath : option string
}.

Record node_output := {
  gifs : option (list file_entry);        (* node_output["gifs"] *)
  videos : option (list file_entry)       (* node_output["videos"] *)
}.

(** An element of [status["messages"]]: a pair of a kind and details. *)
Inductive message :=
| ExecutionError (node_id node_type exception_message : option string)
                                          (* ["execution_error", {...}] *)
| ExecutionErrorBare                      (* ["execution_error"] *)
| OtherMessage.                           (* any other kind *)

Record status_t := {
  status_str : option string;
  messages : list message;                (* status.get("messages", []) *)
  completed : bool                        (* status.get("completed") == True *)
}.

Record history_t := {
  status : option status_t;
  outputs : option (list (string * node_output));
  executed : bool                         (* history_data.get("executed", False) *)
}.

(** [get_history] answers [None] on a status other than 200 and on any
    exception; an empty entry is as good as none to its caller. *)
Inductive history_reply :=
| HistoryNothing
| HistoryData (history_data : history_t).

(** [GET /queue] inside [check_workflow_status]: the request or the
    decoding raises with a text, or a response arrives. *)
Inductive queue_reply :=
| QueueRaises (text : string)
| QueueResponse (status_code : Z) (queue_running queue_pending : list json).

Definition type_name (j : json) : string :=
  match j with
  | JNull => "NoneType"
  | JBool _ => "bool"
  | JInt _ => "int"
  | JFloat _ => "float"
  | JStr _ => "str"
  | JArr _ => "list"
  | JObj _ => "dict"
  end.

(** [[item.get("prompt_id") for item in items]]: the ids, or the text of
    the [AttributeError] raised at the first item that is not a dict. *)
Fixpoint prompt_ids (items : list json) : string + list (option json) :=
  match items with
  | [] => inr []
  | JObj members :: rest =>
      match prompt_ids rest with
      | inr ids => inr (table_get members "prompt_id" :: ids)
      | inl text => inl text
      end
  | item :: _ => inl ("'" +:+ type_name item +:+ "' object has no attribute 'get'")
  end.

(** [prompt_id in ids]. *)
Definition id_in (prompt_id : string) (ids : list (option json)) : bool :=
  existsb (fun id => match id with
                     | Some (JStr s) => String.eqb s prompt_id
                     | _ => false
                     end) ids.

(** The text assembled from the messages of a failed status: the last
    execution error with details wins. *)
Definition error_message_of (msgs : list message) : string :=
  fold_left
    (fun error_message msg =>
       match msg with
       | ExecutionError node_id node_type exception =>
           "Error in node " +:+ default "unknown" node_id +:+ " ("
           +:+ default "unknown" node_type +:+ "): "
           +:+ default "Unknown error" exception
       | _ => error_message
       end) msgs "Workflow execution failed".

Definition has_files (l : option (list file_entry)) : bool :=
  match l with
  | Some (_ :: _) => true
  | _ => false
  end.

Definition check_workflow_status (prompt_id : string) (history : history_reply)
    (queue : queue_reply) : bool * option history_t * option string :=
  match history with
  | HistoryNothing => (false, None, None)
  | HistoryData history_data =>
      let by_status :=
        match status history_data with
        | Some st =>
            if match status_str st with
               | Some s => String.eqb s "error"
               | None => false
               end
            then Some (false, Some history_data, Some (error_message_of (messages st)))
            else if completed st then Some (true, Some history_data, None)
            else None
        | None => None
        end in
      match by_status with
      | Some result => result
      | None =>
          match outputs history_data with
          | None => (false, Some history_data, None)
          | Some outs =>
              let node_13_output :=
                default {| gifs := None; videos := None |} (table_get outs "13") in
              let has_node_13_videos :=
                has_files (gifs node_13_output) || has_files (videos node_13_output) in
              let final :=
                if has_node_13_videos || executed history_data
                then (true, Some history_data, None)
                else (false, Some history_data, None) in
              match queue with
              | QueueRaises text => (false, None, Some text)
              | QueueResponse status_code queue_running queue_pending =>
                  if status_code =? 200 then
                    match prompt_ids queue_running with
                    | inl text => (false, None, Some text)
                    | inr running_prompts =>
                        match prompt_ids queue_pending with
                        | inl text => (false, None, Some text)
                        | inr pending_prompts =>
                            if id_in prompt_id running_prompts
                               || id_in prompt_id pending_prompts
                            then (false, Some history_data, None)
                            else if has_node_13_videos
                            then (true, Some history_data, None)
                            else final
                        end
                    end
                  else final
              end
          end
      end
  end.

(** *** [wait_for_workflow_completion] *)

Record call := {
  prompt_id : string;
  timeout_minutes : Z;
  start_time : Q
}.

Definition timeout_seconds (c : call) : Z := timeout_minutes c * 60.

(** One iteration: the clock as the loop condition reads it, and the two
    replies. *)
Record poll := {
  t_loop : Q;
  history : history_reply;
  queue : queue_reply
}.

Inductive step_result :=
| Return (value : bool)
| Continue (slept : Q).

(** [time.time() - start_time < timeout_seconds]. *)
Definition in_time (c : call) (p : poll) : bool :=
  Py.gt (inject_Z (timeout_seconds c)) (t_loop p - start_time c).

Definition step (c : call) (p : poll) : step_result :=
  if in_time c p then
    let '(is_complete, _, error_message) :=
      check_workflow_status (prompt_id c) (history p) (queue p) in
    if match error_message with
       | Some text => Py.truthy_str text
       | None => false
       end
    then Return false
    else if is_complete then Return true
    else Continue 30
  else Return false.

Inductive run_result :=
| Returned (value : bool)
| Polling.

Fixpoint run (c : call) (polls : list poll) : run_result :=
  match polls with
  | [] => Polling
  | p :: rest =>
      match step c p with
      | Return value => Returned value
      | Continue _ => run c rest
      end
  end.

Definition wait_for_workflow_completion (c : call) (polls : list poll) : run_result :=
  run c polls.

(** *** What a poll shows *)

Definition failed (d : history_t) : bool :=
  match status d with
  | Some {| status_str := Some s |} => String.eqb s "error"
  | _ => false
  end.

Definition says_completed (d : history_t) : bool :=
  match status d with
  | Some st => completed st
  | None => false
  end.

Definition node_13_videos (d : history_t) : bool :=
  match outputs d with
  | Some outs =>
      match table_get outs "13" with
      | Some o => has_files (gifs o) || has_files (videos o)
      | None => false
      end
  | None => false
  end.

(** The queue reply does not stand in the way: it is not a 200, or it is
    one that lists items as dicts, none under the id of the job. *)
Definition queue_clear (prompt_id : string) (q : queue_reply) : bool :=
  match q with
  | QueueRaises _ => false
  | QueueResponse status_code queue_running queue_pending =>
      if status_code =? 200 then
        match prompt_ids queue_running, prompt_ids queue_pending with
        | inr running_prompts, inr pending_prompts =>
            negb (id_in prompt_id running_prompts || id_in prompt_id pending_prompts)
        | _, _ => false
        end
      else true
  end.

(** The job is not marked failed, and either its status says completed
    or it has outputs with videos under node 13 or the "executed" mark while
    the queue does not stand in the way. *)
Definition shows_done (prompt_id : string) (p : poll) : bool :=
  match history p with
  | HistoryNothing => false
  | HistoryData d =>
      negb (failed d)
      && (says_completed d
          || (match outputs d with Some _ => true | None => false end
              && (node_13_videos d || executed d)
              && queue_clear prompt_id (queue p)))
  end.

(** The clock advances by at least the time slept between iterations. *)
Fixpoint sleeps_elapse (c : call) (polls : list poll) : bool :=
  match polls with
  | p :: rest =>
      match step c p, rest with
      | Continue slept, p' :: _ =>
          Py.le (t_loop p + slept) (t_loop p') && sleeps_elapse c rest
      | _, _ => true
      end
  | [] => true
  end.

Definition poll_budget (c : call) : nat :=
  Z.to_nat (Z.max 0 (timeout_seconds c) / 30) + 2.

(** A job that is pending, then running, then done with a video under
    node 13. *)
Definition clip : file_entry :=
  {| filename := Some "avatar.mp4"; subfolder := Some ""; fullpath := None |}.

Definition working : history_t :=
  {| status := Some {| status_str := Some "running"; messages := []; completed := false |};
     outputs := None; executed := false |}.

Definition finished : history_t :=
  {| status := None;
     outputs := Some [("13", {| gifs := Some [clip]; videos := None |})];
     executed := false |}.

Definition demo_call : call :=
  {| prompt_id := "p"; timeout_minutes := 25; start_time := 1000 |}.

Definition finishing_polls : list poll :=
  [{| t_loop := 1005; history := HistoryNothing; queue := QueueResponse 200 [] [] |};
   {| t_loop := 1035; history := HistoryData working; queue := QueueResponse 200 [] [] |};
   {| t_loop := 1065; history := HistoryData finished; queue := QueueResponse 200 [] [] |}].

(** A job that never shows anything, polled every 30 seconds for a
    budget of one minute. *)
Definition short_call : call :=
  {| prompt_id := "p"; timeout_minutes := 1; start_time := 1000 |}.


End SonicTracker.

(** ** scripts/006-text-to-video-Wan2.1-Script/main.py: the base64 cache *)

Module WanMain.
Import Wan.

Section Cache.

(** Library functions taken as parameters: the base64 text of a byte
    string and [Path(path).suffix]. *)
Variable b64encode : list Byte.byte -> string.
Variable suffix : string -> string.

(** The text kept for a clip. *)
Definition data_url_of (video_path : string) (video_data : list Byte.byte) : string :=
  let ext := Py.lower (suffix video_path) in
  let mime_type := if String.eqb ext ".mp4" then "video/mp4" else "video/webm" in
  let base64_data := b64encode video_data in
  "data:" +:+ mime_type +:+ ";base64," +:+ base64_data.

Definition cache_file_of (cache_dir filename : string) : string :=
  path_join cache_dir (filename +:+ ".b64").

(** [store_video_as_base64]: the path of the cache file, or [None] when
    anything raises, and the disk afterwards. A text file is kept as the
    bytes of its text. *)
Definition store_video_as_base64 (video_path cache_dir filename : string)
    (flt : faults) (d : disk) : option string * disk :=
  match makedirs flt cache_dir d with
  | (false, d1) => (None, d1)
  | (true, d1) =>
      if open_raises flt then (None, d1)
      else
        match files d1 !! video_path with
        | None => (None, d1)                      (* no such file *)
        | Some video_data =>
            let data_url := data_url_of video_path video_data in
            let cache_file := cache_file_of cache_dir filename in
            (Some cache_file,
             {| dirs := dirs d1;
                files := <[cache_file := list_byte_of_string data_url]> (files d1) |})
        end
  end.

(** [os.path.exists(path)]. *)
Definition path_exists (d : disk) (path : string) : bool :=
  bool_decide (path ∈ dom (files d)) || bool_decide (path ∈ dirs d).

Definition load_video_from_base64 (cache_dir filename : string)
    (flt : faults) (d : disk) : option string :=
  let cache_file := cache_file_of cache_dir filename in
  if path_exists d cache_file then
    if open_raises flt then None
    else
      match files d !! cache_file with
      | Some text => Some (string_of_list_byte text)
      | None => None                              (* a directory *)
      end
  else None.

End Cache.

(** Sample library functions and a disk with one clip. *)
Definition plain_encode (data : list Byte.byte) : string :=
  string_of_list_byte data.

Definition dot_suffix (path : string) : string :=
  if Py.endswith path ".mp4" then ".mp4" else "".

Definition clip_disk : disk :=
  {| dirs := {[ "out" ]};
     files := {[ "out/clip.mp4" := [Byte.x41; Byte.x42] ]} |}.

End WanMain.

(** ** scripts/005-text-to-image-HiDream-script: validation and injection *)

Module HiDreamGraph.
Import Store.

(** [f"{type(v)}"]. *)
Definition class_text (h : heap) (v : value) : outcome string :=
  match v with
  | VNone => Ok "<class 'NoneType'>"
  | VBool _ => Ok "<class 'bool'>"
  | VInt _ => Ok "<class 'int'>"
  | VFloat _ => Ok "<class 'float'>"
  | VStr _ => Ok "<class 'str'>"
  | VRef l =>
      match lookup_object h l with
      | Ok (ODict _) => Ok "<class 'dict'>"
      | Ok (OList _) => Ok "<class 'list'>"
      | Exc e => Exc e
      end
  end.

(** The four entries of [required_node_types], in the order of the dict
    literal. *)
Record required := {
  positive_prompt : bool;
  negative_prompt : bool;
  sampler : bool;
  latent_image : bool
}.

(** [s] between double quotes. *)
Definition quoted (s : string) : string :=
  String (ascii_of_nat 34) (s +:+ String (ascii_of_nat 34) EmptyString).

Definition none_found : required :=
  {| positive_prompt := false; negative_prompt := false;
     sampler := false; latent_image := false |}.

Definition in_strs (v : value) (names : list string) : bool :=
  existsb (eq_str v) names.

(** [node["type"] == "CLIPTextEncode" and node.get("title") == title]. *)
Definition is_prompt_node (node : value) (title : string) : M bool :=
  type <- getitem_str node "type" ;;
  if eq_str type "CLIPTextEncode" then
    declared <- get node "title" ;;
    ret (eq_str declared title)
  else ret false.

(** The body of the loop of [validate_workflow] over the nodes. *)
Definition note_node (node : value) (found : required) : M required :=
  is_positive <- is_prompt_node node "Positive Prompt" ;;
  if is_positive then
    ret {| positive_prompt := true; negative_prompt := negative_prompt found;
           sampler := sampler found; latent_image := latent_image found |}
  else
    is_negative <- is_prompt_node node "Negative Prompt" ;;
    if is_negative then
      ret {| positive_prompt := positive_prompt found; negative_prompt := true;
             sampler := sampler found; latent_image := latent_image found |}
    else
      type <- getitem_str node "type" ;;
      if in_strs type ["KSampler"; "SONICSampler"] then
        ret {| positive_prompt := positive_prompt found;
               negative_prompt := negative_prompt found;
               sampler := true; latent_image := latent_image found |}
      else
        type <- getitem_str node "type" ;;
        if in_strs type ["EmptySD3LatentImage"; "EmptyLatentImage"] then
          ret {| positive_prompt := positive_prompt found;
                 negative_prompt := negative_prompt found;
                 sampler := sampler found; latent_image := true |}
        else ret found.

Fixpoint note_nodes (nodes : list value) (found : required) : M required :=
  match nodes with
  | [] => ret found
  | node :: rest => found' <- note_node node found ;; note_nodes rest found'
  end.

Definition missing (found : required) : list string :=
  (if positive_prompt found then [] else ["Missing required node type: positive_prompt"])
  ++ (if negative_prompt found then [] else ["Missing required node type: negative_prompt"])
  ++ (if sampler found then [] else ["Missing required node type: sampler"])
  ++ (if latent_image found then [] else ["Missing required node type: latent_image"]).

(** [validate_workflow]: the "valid" flag and the errors. *)
Definition validate_workflow (workflow : value) : M (bool * list string) :=
  given <- truthy workflow ;;
  if negb given then ret (false, ["Workflow is null or undefined"])
  else
    is_dict <- isinstance_dict workflow ;;
    if negb is_dict then
      text <- read (fun h => class_text h workflow) ;;
      ret (false, ["Workflow is not an object: " +:+ text])
    else
      has_nodes <- contains "nodes" workflow ;;
      errors <-
        (if negb has_nodes then ret ["Workflow is missing " +:+ quoted "nodes" +:+ " property"]
         else
           nodes <- getitem_str workflow "nodes" ;;
           is_list <- isinstance_list nodes ;;
           if negb is_list then
             nodes <- getitem_str workflow "nodes" ;;
             text <- read (fun h => class_text h nodes) ;;
             ret ["Workflow " +:+ quoted "nodes" +:+ " is not an array: " +:+ text]
           else
             nodes <- getitem_str workflow "nodes" ;;
             filled <- truthy nodes ;;
             if negb filled then ret ["Workflow " +:+ quoted "nodes" +:+ " array is empty"]
             else ret []) ;;
      has_nodes <- contains "nodes" workflow ;;
      scan <-
        (if has_nodes then
           nodes <- getitem_str workflow "nodes" ;;
           isinstance_list nodes
         else ret false) ;;
      errors <-
        (if scan then
           nodes <- getitem_str workflow "nodes" ;;
           items <- iterate nodes ;;
           found <- note_nodes items none_found ;;
           ret (errors ++ missing found)
         else ret errors) ;;
      ret (match errors with [] => true | _ => false end, errors).

Section Inject.

Variable float_repr : Q -> string.

Variable positive_prompt_text : string.
Variable negative_prompt_text : string.
Variable width height : Z.
Variable seed : option Z.
Variable steps : Z.
Variable timestamp : string.            (* time.strftime("%Y%m%d-%H%M%S") *)

(** [c.isalnum()] on ASCII text. *)
Definition is_alnum (c : ascii) : bool :=
  let n := nat_of_ascii c in
  ((48 <=? n) && (n <=? 57) || (65 <=? n) && (n <=? 90)
   || (97 <=? n) && (n <=? 122))%nat.

Fixpoint slug (s : string) : string :=
  match s with
  | EmptyString => EmptyString
  | String c rest => String (if is_alnum c then c else "_"%char) (slug rest)
  end.

(** [node["widgets_values"][i] = v]. *)
Definition set_widget (node : value) (i : Z) (v : value) : M unit :=
  widgets_values <- getitem_str node "widgets_values" ;;
  setitem widgets_values (VInt i) v.

(** [len(node["widgets_values"])]. *)
Definition widget_count (node : value) : M Z :=
  widgets_values <- getitem_str node "widgets_values" ;;
  len widgets_values.

(** The body of the loop of [update_text_to_image_workflow]. *)
Definition update_node (node : value) : M unit :=
  is_positive <- is_prompt_node node "Positive Prompt" ;;
  if is_positive then
    has_widgets <- contains "widgets_values" node ;;
    if has_widgets then set_widget node 0 (VStr positive_prompt_text) else ret tt
  else
    is_negative <- is_prompt_node node "Negative Prompt" ;;
    if is_negative then
      has_widgets <- contains "widgets_values" node ;;
      if has_widgets then set_widget node 0 (VStr negative_prompt_text) else ret tt
    else
      type <- getitem_str node "type" ;;
      if eq_str type "KSampler" then
        has_widgets <- contains "widgets_values" node ;;
        if has_widgets then
          (match seed with
           | Some s =>
               n <- widget_count node ;;
               if 0 <? n then set_widget node 0 (VInt s) else ret tt
           | None => ret tt
           end) ;;;
          n <- widget_count node ;;
          if 2 <? n then set_widget node 2 (VInt steps) else ret tt
        else ret tt
      else
        type <- getitem_str node "type" ;;
        if in_strs type ["EmptyLatentImage"; "EmptySD3LatentImage"] then
          has_widgets <- contains "widgets_values" node ;;
          if has_widgets then
            n <- widget_count node ;;
            if 2 <=? n then
              set_widget node 0 (VInt width) ;;;
              set_widget node 1 (VInt height)
            else ret tt
          else ret tt
        else
          type <- getitem_str node "type" ;;
          has_widgets <- (if eq_str type "SaveImage"
                          then contains "widgets_values" node else ret false) ;;
          if has_widgets then
            let prompt_slug := slug (substring 0 20 positive_prompt_text) in
            let filename := prompt_slug +:+ "_" +:+ timestamp in
            widgets_values <- getitem_str node "widgets_values" ;;
            filled <- truthy widgets_values ;;
            if filled then set_widget node 0 (VStr filename) else ret tt
          else ret tt.

Definition update_text_to_image_workflow (workflow : value) : M value :=
  validation <- validate_workflow workflow ;;
  if negb (fst validation) then raise ValueError
  else
    text <- dumps float_repr workflow ;;
    updated_workflow <- loads text ;;
    nodes <- getitem_str updated_workflow "nodes" ;;
    len nodes ;;;
    nodes <- getitem_str updated_workflow "nodes" ;;
    items <- iterate nodes ;;
    for_each items update_node ;;;
    ret updated_workflow.

End Inject.

(** *** The vocabulary of the proofs *)

(** A program that leaves the store as it finds it. *)
Definition quiet {A} (m : M A) : Prop := forall h, snd (m h) = h.

(** The role the validation gives a node. *)
Inductive role := Positive | Negative | Sampler | Latent.

Definition title_is (h : heap) (node : value) (title : string) : bool :=
  match get_pure h node "title" VNone with
  | Ok v => eq_str v title
  | Exc _ => false
  end.

Definition role_of (h : heap) (node : value) : option role :=
  match getitem_str_pure h node "type" with
  | Ok type =>
      if eq_str type "CLIPTextEncode" && title_is h node "Positive Prompt"
      then Some Positive
      else if eq_str type "CLIPTextEncode" && title_is h node "Negative Prompt"
      then Some Negative
      else if in_strs type ["KSampler"; "SONICSampler"] then Some Sampler
      else if in_strs type ["EmptySD3LatentImage"; "EmptyLatentImage"] then Some Latent
      else None
  | Exc _ => None
  end.

(** The graph is a dict whose "nodes" entry is a list with a node of the
    given role. *)
Definition has_role (h : heap) (workflow : value) (r : role) : Prop :=
  exists nodes items node,
    getitem_str_pure h workflow "nodes" = Ok nodes /\
    isinstance_pure false h nodes = Ok true /\
    iterate_pure h nodes = Ok items /\
    In node items /\ role_of h node = Some r.

Definition flag (found : required) (r : role) : bool :=
  match r with
  | Positive => positive_prompt found
  | Negative => negative_prompt found
  | Sampler => sampler found
  | Latent => latent_image found
  end.

(** Sample graphs: one with the four required roles, one without a
    sampler. *)
Definition image_graph : heap :=
  list_to_map
    [(1%positive, ODict [(VStr "nodes", VRef 2%positive)]);
     (2%positive, OList [VRef 3%positive; VRef 5%positive; VRef 7%positive;
                         VRef 9%positive]);
     (3%positive, ODict [(VStr "type", VStr "CLIPTextEncode");
                         (VStr "title", VStr "Positive Prompt");
                         (VStr "widgets_values", VRef 4%positive)]);
     (4%positive, OList [VStr "a cat"]);
     (5%positive, ODict [(VStr "type", VStr "CLIPTextEncode");
                         (VStr "title", VStr "Negative Prompt");
                         (VStr "widgets_values", VRef 6%positive)]);
     (6%positive, OList [VStr "blurry"]);
     (7%positive, ODict [(VStr "type", VStr "KSampler");
                         (VStr "widgets_values", VRef 8%positive)]);
     (8%positive, OList [VInt 7; VStr "fixed"; VInt 20]);
     (9%positive, ODict [(VStr "type", VStr "EmptySD3LatentImage");
                         (VStr "widgets_values", VRef 10%positive)]);
     (10%positive, OList [VInt 512; VInt 512; VInt 1])].

Definition headless_graph : heap :=
  list_to_map
    [(1%positive, ODict [(VStr "nodes", VRef 2%positive)]);
     (2%positive, OList [VRef 3%positive]);
     (3%positive, ODict [(VStr "type", VStr "CLIPTextEncode");
                         (VStr "title", VStr "Positive Prompt");
                         (VStr "widgets_values", VRef 4%positive)]);
     (4%positive, OList [VStr "a cat"])].

End HiDreamGraph.

(** ** scripts/006-text-to-video-Wan2.1-Script/comput3_api.py *)

Module Comput3.

(** A workload as the service lists it, read through the two keys the
    client looks at, both strings when present. *)
Record workload := {
  type : option string;
  node : option string
}.

(** [requests.post] on the workloads address: the request or the decoding
    raises, or a response arrives with a list of workloads. *)
Inductive workloads_reply :=
| PostRaises
| PostResponse (status_code : Z) (workloads : list workload).

(** [requests.head] on the address found: a [RequestException], or a
    response. *)
Inductive head_reply :=
| HeadRaises
| HeadResponse (status_code : Z).

Definition get_running_workloads (api_key : string) (reply : workloads_reply)
    : list workload :=
  if negb (Py.truthy_str api_key) then []
  else
    match reply with
    | PostRaises => []
    | PostResponse status_code workloads =>
        if negb (status_code =? 200) then [] else workloads
    end.

Definition get_media_instance (api_key : string) (reply : workloads_reply)
    : option workload :=
  let workloads := get_running_workloads api_key reply in
  let media_instances :=
    List.filter (fun w => Py.startswith (default "" (type w)) "media") workloads in
  match media_instances with
  | [] => None
  | instance :: _ => Some instance
  end.

(** What the connection test logs; the address is returned whatever it
    finds. *)
Definition test_warns (r : head_reply) : bool :=
  match r with
  | HeadRaises => true
  | HeadResponse status_code => 400 <=? status_code
  end.

Definition get_comfyui_url (api_key : string) (reply : workloads_reply)
    (head : string -> head_reply) : option string * bool :=
  match get_media_instance api_key reply with
  | None => (None, false)
  | Some instance =>
      match node instance with
      | None => (None, false)
      | Some node =>
          let comfyui_url := "https://ui-" +:+ node in
          let comfyui_url :=
            if negb (Py.contains node "comput3.ai")
            then "https://ui-" +:+ node +:+ ".comput3.ai"
            else comfyui_url in
          (Some comfyui_url, test_warns (head comfyui_url))
      end
  end.

(** *** The vocabulary of the proofs *)

Definition is_media (w : workload) : bool :=
  Py.startswith (default "" (type w)) "media".

Definition url_of (node : string) : string :=
  if Py.contains node "comput3.ai" then "https://ui-" +:+ node
  else "https://ui-" +:+ node +:+ ".comput3.ai".

(** Two media workloads behind one of another type; an address that
    answers with a 503. *)
Definition demo_workloads : list workload :=
  [{| type := Some "fast"; node := Some "node-1.comput3.ai" |};
   {| type := Some "media:fast"; node := Some "node-7" |};
   {| type := Some "media"; node := Some "node-9.comput3.ai" |}].

Definition unreachable (url : string) : head_reply := HeadResponse 503.

End Comput3.

(** * Proofs *)

(** Case analysis along the body of a function unfolded in [H]. *)
Ltac split_cases H :=
  cbv zeta in H;
  repeat match type of H with
         | context [match ?x with _ => _ end] =>
             let E := fresh "E" in destruct x eqn:E
         end.

Module SonicSpec.
Import Sonic.

Lemma int_nonneg (x : Q) : (0 <= x)%Q -> Py.int x = Qfloor x.
Proof.
  destruct x as [n d]. unfold Py.int, Qfloor, Qle. cbn [Qnum Qden].
  intros H. rewrite Z.quot_div_nonneg; lia.
Qed.

Lemma mod1_pos_iff (x : Q) :
  Py.gt (Py.mod1 x) 0 = true <-> Qfloor x <> Qceiling x.
Proof.
  unfold Py.gt, Py.mod1.
  pose proof (Qfloor_le x) as Hf. pose proof (Qle_ceiling x) as Hc.
  destruct (Qlt_le_dec 0 (x - inject_Z (Qfloor x))) as [Hlt | Hle]; split;
    try discriminate; try reflexivity; intros H.
  - intros E. rewrite E in Hlt. lra.
  - exfalso. apply H.
    assert (Hx : (x == inject_Z (Qfloor x))%Q) by lra.
    rewrite Hx at 2. now rewrite Qceiling_Z.
Qed.

Lemma ceiling_floor_cases (x : Q) :
  Qceiling x = Qfloor x \/ Qceiling x = Qfloor x + 1.
Proof.
  pose proof (Qfloor_le x) as Hf. pose proof (Qlt_floor x) as Hf'.
  pose proof (Qle_ceiling x) as Hc. pose proof (Qceiling_lt x) as Hc'.
  assert (H2 : (inject_Z (Qfloor x) <= inject_Z (Qceiling x))%Q)
    by (eapply Qle_trans; eassumption).
  assert (H3 : (inject_Z (Qceiling x - 1) < inject_Z (Qfloor x + 1))%Q)
    by (eapply Qlt_trans; eassumption).
  rewrite <- Zle_Qle in H2. rewrite <- Zlt_Qlt in H3. lia.
Qed.

(** C2. For a non-negative raw duration d the injected duration is
    ceil(d) + 1; 3.1 gives 5, 4.0 gives 5 and 0 gives 1. *)
Theorem get_audio_duration_ceil :
  (forall d : Q, (0 <= d)%Q ->
     get_audio_duration (Loaded (Finite d)) = Qceiling d + 1) /\
  get_audio_duration (Loaded (Finite (31 # 10))) = 5 /\
  get_audio_duration (Loaded (Finite (4 # 1))) = 5 /\
  get_audio_duration (Loaded (Finite 0)) = 1.
Proof.
  split; [| repeat split].
  intros d Hd. unfold get_audio_duration, duration_of_length.
  rewrite (int_nonneg d Hd).
  destruct (Py.gt (Py.mod1 d) 0) eqn:E.
  - apply mod1_pos_iff in E. destruct (ceiling_floor_cases d); lia.
  - assert (Qfloor d = Qceiling d); [| lia].
    destruct (Z.eq_dec (Qfloor d) (Qceiling d)) as [|N]; [assumption|].
    apply mod1_pos_iff in N. congruence.
Qed.

Lemma get_audio_duration_ceil_witness :
  (0 <= 78 # 10)%Q /\ get_audio_duration (Loaded (Finite (78 # 10))) = 9.
Proof.
  split; [unfold Qle; simpl; lia |].
  apply (proj1 get_audio_duration_ceil (78 # 10)). unfold Qle; simpl; lia.
Defined.

(** C10. When the audio cannot be loaded or its length cannot be read
    (the loader returns nothing, the loader raises, the length read raises
    or is not a finite number), the function returns the default 5. *)
Theorem get_audio_duration_default :
  get_audio_duration FileNone = 5 /\
  get_audio_duration FileRaises = 5 /\
  get_audio_duration InfoRaises = 5 /\
  get_audio_duration (Loaded NonFinite) = 5.
Proof. repeat split. Qed.

(** The three-way comparison of the code picks the same bucket as the
    left-to-right search for the minimum. *)
Lemma select_closest (r : Q) :
  (if Py.le (distance r Landscape)
        (Py.min (distance r Portrait) (distance r Square)) then LANDSCAPE
   else if Py.le (distance r Portrait)
        (Py.min (distance r Landscape) (distance r Square)) then PORTRAIT
   else SQUARE) = size_of (closest_bucket r).
Proof.
  unfold closest_bucket, closer, Py.le, Py.min. cbn [fold_left].
  set (a := distance r Landscape). set (b := distance r Portrait).
  set (c := distance r Square).
  destruct (Qlt_le_dec b a) as [Hba | Hab]; fold a b c;
    repeat (destruct (Qlt_le_dec _ _); try reflexivity; try (exfalso; lra)).
Qed.

Lemma closest_bucket_minimal (r : Q) (b : bucket) :
  (distance r (closest_bucket r) < distance r b)%Q \/
  ((distance r (closest_bucket r) == distance r b)%Q /\
   (rank (closest_bucket r) <= rank b)%nat).
Proof.
  unfold closest_bucket, closer. cbn [fold_left].
  destruct (Qlt_le_dec (distance r Portrait) (distance r Landscape));
    destruct (Qlt_le_dec _ _); destruct b; cbn [rank];
    match goal with
    | |- (?x < ?y)%Q \/ _ =>
        destruct (Qlt_le_dec x y);
        [left; assumption | solve [exfalso; lra | right; split; [lra | lia]]]
    end.
Qed.

(** C3. Over positive width and height the selection is defined, returns
    one of the three canonical sizes, namely the size of the canonical ratio
    at minimal absolute distance from width/height with ties resolved
    landscape, then portrait, then square; a square image gives the square
    size and 1920x1080 gives the landscape size. *)
Theorem get_optimal_dimensions_closest :
  (forall width height : Z, 0 < width -> 0 < height ->
     let r := (inject_Z width / inject_Z height)%Q in
     get_optimal_dimensions (Opened width height) = size_of (closest_bucket r) /\
     (forall b : bucket,
        (distance r (closest_bucket r) < distance r b)%Q \/
        ((distance r (closest_bucket r) == distance r b)%Q /\
         (rank (closest_bucket r) <= rank b)%nat)) /\
     (get_optimal_dimensions (Opened width height) = (1024, 576) \/
      get_optimal_dimensions (Opened width height) = (576, 1024) \/
      get_optimal_dimensions (Opened width height) = (576, 576))) /\
  (forall n : Z, 0 < n -> get_optimal_dimensions (Opened n n) = (576, 576)) /\
  get_optimal_dimensions (Opened 1920 1080) = (1024, 576).
Proof.
  assert (Hsel : forall width height : Z, 0 < height ->
            get_optimal_dimensions (Opened width height) =
            size_of (closest_bucket (inject_Z width / inject_Z height))).
  { intros width height Hh. unfold get_optimal_dimensions.
    destruct (Z.eqb_spec height 0) as [E | _]; [lia |].
    apply (select_closest (inject_Z width / inject_Z height)). }
  split; [| split].
  - intros width height Hw Hh r. split; [| split].
    + apply Hsel, Hh.
    + apply closest_bucket_minimal.
    + rewrite (Hsel width height Hh). destruct (closest_bucket _); auto.
  - intros n Hn. rewrite (Hsel n n Hn).
    assert (Hr : (inject_Z n / inject_Z n == 1)%Q).
    { apply Qmult_inv_r. unfold Qeq, inject_Z. simpl. lia. }
    pose proof (closest_bucket_minimal (inject_Z n / inject_Z n) Square) as Hm.
    unfold distance in Hm. cbn [ratio_of] in Hm.
    assert (Hz : (Qabs (inject_Z n / inject_Z n - 1) == 0)%Q).
    { rewrite Hr. reflexivity. }
    destruct (closest_bucket (inject_Z n / inject_Z n)) eqn:E;
      cbn [ratio_of rank] in Hm; try reflexivity; exfalso.
    + assert (Hl : (Qabs (inject_Z n / inject_Z n - (16 # 9)) == 7 # 9)%Q).
      { rewrite Hr. reflexivity. }
      rewrite Hl, Hz in Hm. destruct Hm as [Hm | [Hm _]]; lra.
    + assert (Hl : (Qabs (inject_Z n / inject_Z n - (9 # 16)) == 7 # 16)%Q).
      { rewrite Hr. reflexivity. }
      rewrite Hl, Hz in Hm. destruct Hm as [Hm | [Hm _]]; lra.
  - reflexivity.
Qed.

Lemma get_optimal_dimensions_closest_witness :
  0 < 1080 /\ 0 < 1920 /\
  get_optimal_dimensions (Opened 1080 1920) = (576, 1024).
Proof.
  split; [lia | split; [lia |]].
  destruct (proj1 get_optimal_dimensions_closest 1080 1920) as [H _]; [lia | lia |].
  rewrite H. reflexivity.
Defined.

End SonicSpec.

Module WanSubmitSpec.
Import Wan.

Lemma attempts_cons_post (i : nat) (tr : list event) :
  attempts (Post i :: tr) = S (attempts tr).
Proof. reflexivity. Qed.

Lemma attempts_cons_sleep (d : Q) (tr : list event) :
  attempts (Sleep d :: tr) = attempts tr.
Proof. reflexivity. Qed.

(** Each remaining retry index costs at most one attempt. *)
Lemma retry_loop_attempts (post : nat -> post_reply) (m : nat)
    (retries : list nat) (d : Z) :
  (attempts (snd (retry_loop post m retries d)) <= length retries)%nat.
Proof.
  revert d. induction retries as [| retry rest IH]; intros d; cbn [retry_loop].
  - cbn. lia.
  - specialize (IH (d * 2)).
    destruct (retry_loop post m rest (d * 2)) as [r tr].
    cbn [snd] in IH.
    destruct (post retry) as [| | code pid]; [| | destruct (code =? 200)];
      destruct (retry <? m - 1)%nat; cbn [snd length];
      rewrite ?attempts_cons_post, ?attempts_cons_sleep;
      try change (attempts []) with 0%nat; lia.
Qed.

(** C5. Submission makes at most three attempts. When the first [k]
    replies are transient (a network error or a non-200 status) and reply
    [k] is a 200, with [k < 3], the job id of that reply is returned at once,
    after waits of 1, 2, 4 seconds before attempts 1, 2, 3. When all three
    replies are transient the call returns nothing after the third attempt,
    with no further wait or attempt. *)
Theorem queue_workflow_retries :
  (forall prelude_raises post,
     (attempts (snd (queue_workflow prelude_raises post)) <= 3)%nat) /\
  (forall post (k : nat) prompt_id,
     (k < 3)%nat ->
     (forall j, (j < k)%nat -> transient (post j) = true) ->
     post k = PostResponse 200 prompt_id ->
     queue_workflow false post = (prompt_id, backoff_trace (S k))) /\
  (forall post,
     (forall j, (j < 3)%nat -> transient (post j) = true) ->
     queue_workflow false post = (None, backoff_trace 3)).
Proof.
  split; [| split].
  - intros [] post; unfold queue_workflow; [cbn; lia |].
    pose proof (retry_loop_attempts post 3 (seq 0 3) 2) as H.
    destruct (retry_loop post 3 (seq 0 3) 2) as [r tr].
    cbn [snd] in *. rewrite attempts_cons_sleep. exact H.
  - intros post k pid Hk Htr Hok.
    unfold queue_workflow. cbn [seq retry_loop].
    destruct k as [| [| [| k]]]; [| | | lia].
    + rewrite Hok. reflexivity.
    + pose proof (Htr 0%nat ltac:(lia)) as H0.
      rewrite Hok.
      destruct (post 0%nat) as [| | c p]; try discriminate;
        [| cbn [transient] in H0; destruct (c =? 200); try discriminate];
        reflexivity.
    + pose proof (Htr 0%nat ltac:(lia)) as H0.
      pose proof (Htr 1%nat ltac:(lia)) as H1.
      rewrite Hok.
      destruct (post 0%nat) as [| | c p]; try discriminate;
        [| cbn [transient] in H0; destruct (c =? 200); try discriminate];
        (destruct (post 1%nat) as [| | c' p']; try discriminate;
         [| cbn [transient] in H1; destruct (c' =? 200); try discriminate]);
        reflexivity.
  - intros post Htr.
    pose proof (Htr 0%nat ltac:(lia)) as H0.
    pose proof (Htr 1%nat ltac:(lia)) as H1.
    pose proof (Htr 2%nat ltac:(lia)) as H2.
    unfold queue_workflow. cbn [seq retry_loop].
    destruct (post 0%nat) as [| | c p]; try discriminate;
      [| cbn [transient] in H0; destruct (c =? 200); try discriminate];
      (destruct (post 1%nat) as [| | c' p']; try discriminate;
       [| cbn [transient] in H1; destruct (c' =? 200); try discriminate]);
      (destruct (post 2%nat) as [| | c'' p'']; try discriminate;
       [| cbn [transient] in H2; destruct (c'' =? 200); try discriminate]);
      reflexivity.
Qed.

Lemma queue_workflow_retries_witness :
  queue_workflow false flaky_post =
  (Some "job-1",
   [Sleep 1; Post 0; Sleep 2; Post 1; Sleep 4; Post 2]).
Proof.
  apply (proj1 (proj2 queue_workflow_retries) flaky_post 2%nat (Some "job-1")).
  - lia.
  - intros [| [| j]] Hj; [reflexivity | reflexivity | lia].
  - reflexivity.
Defined.

End WanSubmitSpec.

Module WanDownloadSpec.
Import Wan.

Section Download.

Variable urlencode : list (string * param) -> string.

Lemma attempt_ok_inv (flt : faults) (output_dir : string) (reply : get_reply) :
  attempt_ok flt output_dir reply = true ->
  exists chunks,
    reply = GetResponse 200 chunks true /\
    makedirs_raises flt = false /\ open_raises flt = false /\
    Py.truthy_str output_dir = true.
Proof.
  destruct reply as [| code chunks complete]; cbn [attempt_ok]; [discriminate |].
  rewrite !andb_true_iff, !negb_true_iff, Z.eqb_eq.
  intros [[[[-> ->] Hm] Hd] Ho]. eauto.
Qed.

(** A successful attempt stores the stream under the joined path. *)
Lemma store_ok (flt : faults) (output_dir filename : string)
    (chunks : list (list Byte.byte)) (d : disk) :
  makedirs_raises flt = false -> open_raises flt = false ->
  Py.truthy_str output_dir = true ->
  exists d',
    store flt output_dir filename chunks true d =
      (Some (path_join output_dir filename), d') /\
    output_dir ∈ dirs d' /\
    files d' !! path_join output_dir filename =
      Some (concat (List.filter nonempty chunks)).
Proof.
  intros Hm Ho Hd. unfold store, makedirs, save_stream.
  rewrite Hm, Hd, Ho. cbn [dirs files].
  eexists. split; [reflexivity |]. cbn [dirs files]. split.
  - set_solver.
  - apply lookup_insert_eq.
Qed.

(** A failing attempt returns nothing. *)
Lemma store_fails (flt : faults) (output_dir filename : string)
    (chunks : list (list Byte.byte)) (complete : bool) (d : disk) :
  attempt_ok flt output_dir (GetResponse 200 chunks complete) = false ->
  fst (store flt output_dir filename chunks complete d) = None.
Proof.
  cbn [attempt_ok]. unfold store, makedirs, save_stream.
  destruct (makedirs_raises flt), (Py.truthy_str output_dir),
    (open_raises flt), complete; cbn; congruence.
Qed.

(** C6, amended. The direct GET, to the same URL with
    [&api_key=<key>] appended, is issued exactly when the session GET
    delivers a response with a status other than 200 whose body can be read
    for the error log, and then once. The call returns nothing exactly when
    the session attempt fails and the direct attempt is not made or fails as
    well: so also, with no second attempt, when the session GET raises, when
    the body of its refusal cannot be read and when its 200 cannot be stored.
    A path returned is [output_dir/filename], with the directory present and
    the file holding the body of the attempt that succeeded. *)
Theorem download_file_fallback
    (self : client) (filename output_dir subfolder : string)
    (format_type : option string) (frame_rate : option Q)
    (primary fallback : get_reply) (flt : faults) (d : disk) :
  let url := download_url_of urlencode self filename subfolder format_type frame_rate in
  let path := path_join output_dir filename in
  let result := download_file urlencode self filename output_dir subfolder
                  format_type frame_rate primary fallback flt d in
  let r := fst (fst result) in
  let tr := snd (fst result) in
  let d' := snd result in
  fallback_gets tr =
    (if falls_back primary then [url +:+ "&api_key=" +:+ api_key self] else []) /\
  (r = None <->
   attempt_ok flt output_dir primary = false /\
   (falls_back primary = false \/ attempt_ok flt output_dir fallback = false)) /\
  (forall p, r = Some p ->
     p = path /\ output_dir ∈ dirs d' /\
     exists reply,
       (reply = primary \/ (reply = fallback /\ falls_back primary = true)) /\
       attempt_ok flt output_dir reply = true /\
       files d' !! path =
         Some (concat (List.filter nonempty (reply_chunks reply)))).
Proof.
  intros url path result r tr d'. subst r tr d' result path.
  unfold download_file. fold url.
  set (prepared := if is_video_name filename then [Head url] else []).
  assert (Hprep : forall l, fallback_gets (prepared ++ l) = fallback_gets l).
  { intros l. unfold prepared. destruct (is_video_name filename); reflexivity. }
  assert (Hstore : forall chunks complete,
    let s := store flt output_dir filename chunks complete d in
    let ok := attempt_ok flt output_dir (GetResponse 200 chunks complete) in
    (fst s = None <-> ok = false) /\
    (forall p, fst s = Some p ->
       p = path_join output_dir filename /\ output_dir ∈ dirs (snd s) /\
       ok = true /\
       files (snd s) !! path_join output_dir filename =
         Some (concat (List.filter nonempty chunks)))).
  { intros chunks complete s ok. subst s ok.
    destruct (attempt_ok flt output_dir (GetResponse 200 chunks complete)) eqn:E.
    - destruct (attempt_ok_inv _ _ _ E) as (c & Heq & Hm & Ho & Hd).
      injection Heq as <- ->.
      destruct (store_ok flt output_dir filename chunks d Hm Ho Hd)
        as (d1 & Hs & Hdir & Hfile).
      rewrite Hs. cbn [fst snd]. split; [split; discriminate |].
      intros p [= <-]. auto.
    - pose proof (store_fails flt output_dir filename chunks complete d E) as Hs.
      split; [split; auto |]. intros p Hp. congruence. }
  cbv zeta in Hstore.
  destruct primary as [| code chunks complete].
  { cbn [fst snd attempt_ok falls_back]. rewrite Hprep.
    split; [reflexivity |]. split; [split; auto | discriminate]. }
  destruct (Z.eqb_spec code 200) as [-> | Hcode].
  { destruct (Hstore chunks complete) as [Hnone Hsome].
    destruct (store flt output_dir filename chunks complete d) as [r1 d1].
    cbn [fst snd falls_back Z.eqb Pos.eqb negb andb] in *. rewrite Hprep.
    split; [reflexivity |]. split.
    - rewrite Hnone. split; [auto | intros [H _]; exact H].
    - intros p Hp. destruct (Hsome p Hp) as (-> & Hdir & Hok & Hfile).
      split; [reflexivity |]. split; [exact Hdir |].
      exists (GetResponse 200 chunks complete). auto. }
  assert (Hprim : attempt_ok flt output_dir (GetResponse code chunks complete) = false).
  { cbn [attempt_ok]. destruct (Z.eqb_spec code 200); [contradiction | reflexivity]. }
  rewrite Hprim. cbn [falls_back].
  destruct (Z.eqb_spec code 200) as [| _]; [contradiction |]. cbn [negb andb].
  destruct complete; cbn [negb fst snd].
  2: { rewrite Hprep. split; [reflexivity |]. split; [split; auto | discriminate]. }
  destruct fallback as [| code2 chunks2 complete2].
  { cbn [fst snd attempt_ok]. rewrite Hprep.
    split; [reflexivity |]. split; [split; auto | discriminate]. }
  destruct (Z.eqb_spec code2 200) as [-> | Hcode2].
  - destruct (Hstore chunks2 complete2) as [Hnone Hsome].
    destruct (store flt output_dir filename chunks2 complete2 d) as [r1 d1].
    cbn [fst snd] in *. rewrite Hprep.
    split; [reflexivity |]. split.
    + rewrite Hnone. split; [auto | intros [_ [H | H]]; [discriminate H | exact H]].
    + intros p Hp. destruct (Hsome p Hp) as (-> & Hdir & Hok & Hfile).
      split; [reflexivity |]. split; [exact Hdir |].
      exists (GetResponse 200 chunks2 complete2). auto.
  - assert (E : attempt_ok flt output_dir (GetResponse code2 chunks2 complete2) = false).
    { cbn [attempt_ok]. destruct (Z.eqb_spec code2 200); [contradiction | reflexivity]. }
    rewrite E. cbn [fst snd]. rewrite Hprep.
    split; [reflexivity |]. split; [split; auto | discriminate].
Qed.

End Download.

Lemma download_file_fallback_witness :
  let result :=
    download_file plain_urlencode demo_client "clip.mp4" "out" "" None None
      (GetResponse 403 [] true) (GetResponse 200 demo_chunks true)
      no_faults empty_disk in
  "out/clip.mp4" = path_join "out" "clip.mp4" /\
  "out" ∈ dirs (snd result) /\
  exists reply,
    (reply = GetResponse 403 [] true \/
     (reply = GetResponse 200 demo_chunks true /\
      falls_back (GetResponse 403 [] true) = true)) /\
    attempt_ok no_faults "out" reply = true /\
    files (snd result) !! path_join "out" "clip.mp4" =
      Some (concat (List.filter nonempty (reply_chunks reply))).
Proof.
  destruct (download_file_fallback plain_urlencode demo_client "clip.mp4" "out" ""
              None None (GetResponse 403 [] true) (GetResponse 200 demo_chunks true)
              no_faults empty_disk) as (_ & _ & H).
  apply (H "out/clip.mp4"). vm_compute. reflexivity.
Defined.

(** C6 as stated fails: when the session GET raises, the call returns
    nothing without a second attempt, although the direct GET would have
    delivered the file. *)
Lemma download_file_gives_up_without_fallback :
  ~ (forall (primary fallback : get_reply),
       let result :=
         download_file plain_urlencode demo_client "clip.mp4" "out" "" None None
           primary fallback no_faults empty_disk in
       (forall status_code chunks complete,
          primary = GetResponse status_code chunks complete -> status_code <> 200 ->
          length (fallback_gets (snd (fst result))) = 1%nat) /\
       (fst (fst result) = None <->
        attempt_ok no_faults "out" primary = false /\
        attempt_ok no_faults "out" fallback = false)).
Proof.
  intros H.
  destruct (H GetRaises (GetResponse 200 demo_chunks true)) as [_ [Hnone _]].
  destruct (Hnone eq_refl) as [_ Hfb]. discriminate Hfb.
Qed.

End WanDownloadSpec.

Module WanTrackerSpec.
Import Wan.


(** ** Tables and percentages *)

Lemma stage_percentages_bound (k : string) (v : Z) :
  table_get stage_percentages k = Some v -> 0 <= v <= 95.
Proof.
  unfold stage_percentages. cbn [table_get].
  repeat (destruct (String.eqb _ k); [intros [= <-]; lia |]).
  discriminate.
Qed.

Lemma generation_progress_bound (elapsed : Q) (otherwise : Z) :
  otherwise <= 95 -> generation_progress elapsed otherwise <= 95.
Proof.
  intros H. unfold generation_progress, generating_progress_base,
    generating_progress_max.
  destruct (Py.gt _ _); lia.
Qed.

Lemma time_based_progress_bound (elapsed : Q) : time_based_progress elapsed <= 95.
Proof. unfold time_based_progress. lia. Qed.

Lemma stage_progress_bound (elapsed : Q) (k : string) (v : Z) :
  stage_progress elapsed k = Some v -> v <= 95.
Proof.
  unfold stage_progress. destruct (table_get stage_percentages k) as [pct |] eqn:E;
    [| discriminate].
  apply stage_percentages_bound in E. intros [= <-].
  destruct (String.eqb k "27"); [apply generation_progress_bound |]; lia.
Qed.

Lemma completed_percentage_bound (nodes : gset string) :
  completed_percentage_of nodes <= 95.
Proof.
  unfold completed_percentage_of.
  assert (H : forall l acc, acc <= 95 ->
            fold_left (fun acc node_id =>
                         match table_get stage_percentages node_id with
                         | Some pct => Z.max acc pct
                         | None => acc
                         end) l acc <= 95).
  { induction l as [| x l IH]; intros acc Hacc; cbn [fold_left]; [assumption |].
    apply IH. destruct (table_get stage_percentages x) as [pct |] eqn:E; [| assumption].
    apply stage_percentages_bound in E. lia. }
  apply H. lia.
Qed.

Lemma modest_progress (pct : Z) (d : detail) :
  pct <= 95 -> modest (Status (Progress pct d)).
Proof. intros H q [= <-]. exact H. Qed.

Lemma modest_tell (c : call) (pct : Z) (d : detail) :
  pct <= 95 -> Forall modest (tell c (Progress pct d)).
Proof.
  intros H. unfold tell. destruct (status_callback c); repeat constructor.
  now apply modest_progress.
Qed.

Lemma modest_tell_error (c : call) (m : string) : Forall modest (tell c (ErrorStatus m)).
Proof.
  unfold tell. destruct (status_callback c); repeat constructor. intros q [=].
Qed.

Lemma modest_log (l : log_line) : modest (Log l).
Proof. intros q [=]. Qed.

(** ** The blocks of the loop body, one by one *)

Lemma same_queue_fields_refl (a : loop_state) : same_queue_fields a a.
Proof. repeat split. Qed.

Lemma same_queue_fields_trans (a b c : loop_state) :
  same_queue_fields a b -> same_queue_fields b c -> same_queue_fields a c.
Proof.
  unfold same_queue_fields. intros (? & ? & ? & ?) (? & ? & ? & ?).
  repeat split; congruence.
Qed.

Lemma progress_summary_spec (c : call) (st : loop_state) (p : poll)
    (outputs : gmap string json) (st' : loop_state) (rs : list report) :
  progress_summary c st p outputs = (st', rs) ->
  same_queue_fields st st' /\ Forall modest rs.
Proof.
  unfold progress_summary. intros H. split_cases H;
    injection H as <- <-; (split; [repeat split |]); repeat constructor.
  apply modest_progress, completed_percentage_bound.
Qed.

Lemma running_report_spec (c : call) (st : loop_state) (p : poll) (elapsed : Q)
    (info : queue_info_t) (st' : loop_state) (rs : list report) :
  running_report c st p elapsed info = (st', rs) ->
  same_queue_fields st st' /\ Forall modest rs.
Proof.
  unfold running_report. intros H.
  destruct (current_node (details info)) as [[s |] |];
    cbv zeta beta iota in H;
    match type of H with
    | context [default ?d ?o] =>
        assert (Hpct : default d o <= 95)
    end.
  1, 3, 5: shelve.
  all: destruct (_ && _); injection H as <- <-;
    (split; [repeat split |]); repeat constructor;
    now apply modest_progress.
  Unshelve.
  - destruct (Py.truthy_str s && Py.isdigit s).
    + destruct (stage_progress elapsed s) as [v |] eqn:E; cbn [default].
      * eapply stage_progress_bound, E.
      * destruct (table_get stage_percentages s) as [v |] eqn:E'; cbn [default];
          [apply (stage_percentages_bound _ _ E') | apply time_based_progress_bound].
    + destruct (table_get stage_percentages s) as [v |] eqn:E'; cbn [default];
        [apply (stage_percentages_bound _ _ E') | apply time_based_progress_bound].
  - cbn [default]. apply time_based_progress_bound.
  - cbn [default]. apply time_based_progress_bound.
Qed.

Lemma queue_check_spec (c : call) (st : loop_state) (p : poll) (elapsed : Q)
    (outputs : gmap string json) (executing : list string) :
  match queue_check c st p elapsed outputs executing with
  | QueueRaise => True
  | QueueContinue st' rs => queue_check_post c st p executing st' rs
  | QueueNext st' rs => queue_check_post c st p executing st' rs
  end.
Proof.
  unfold queue_check, queue_check_post, standing, queried.
  destruct (negb (prompt_left_queue st) &&
            Py.gt (t_queue p - last_queue_check_time st) queue_check_interval) eqn:G;
    [| repeat split; constructor].
  destruct (get_queue_status (prompt_id c) (queue p)) as [info |]; [| exact I].
  destruct (is_in_queue info).
  - assert (Hrun : forall st1,
              consecutive_not_in_queue st1 = 0 ->
              check_interval st1 = check_interval st ->
              prompt_left_queue st1 = prompt_left_queue st ->
              match (let '(st2, rs) := running_report c st1 p elapsed info in
                     QueueContinue st2 rs) with
              | QueueRaise => True
              | QueueContinue st' rs | QueueNext st' rs =>
                  Forall modest rs /\ check_interval st' = check_interval st /\
                  queue_effect Found st st'
              end).
    { intros st1 H0 Hci Hfl.
      destruct (running_report c st1 p elapsed info) as [st2 rs] eqn:E.
      apply running_report_spec in E as [(Hc & _ & Hf & Hn) Hm].
      cbn [queue_effect]. repeat split; congruence. }
    destruct (queue_position info) as [pos |].
    + destruct (0 <? pos).
      * cbn [queue_effect]. repeat split. apply modest_tell. lia.
      * destruct (queue_running info); [apply Hrun; reflexivity |].
        cbn [queue_effect]. repeat split. constructor.
    + destruct (queue_running info); [apply Hrun; reflexivity |].
      cbn [queue_effect]. repeat split. constructor.
  - destruct (nonempty executing) eqn:Ex; cbv zeta.
    + change (required_not_in_queue <=? 0) with false.
      cbn [queue_effect]. repeat split. constructor.
    + cbn [set_queue_check consecutive_not_in_queue].
      destruct (Z.leb_spec required_not_in_queue (consecutive_not_in_queue st + 1))
        as [Hge | Hlt]; unfold required_not_in_queue in *.
      * destruct (negb (bool_decide (outputs = ∅))).
        -- destruct (negb _ && status_callback c); cbn [queue_effect];
             (split; [| split; [reflexivity | split; [reflexivity | right; split; [reflexivity | exact Hge]]]]);
             repeat constructor.
           apply modest_progress. lia.
        -- cbn [queue_effect]. repeat split; [constructor | left; reflexivity].
      * cbn [queue_effect]. repeat split; [constructor | left; reflexivity].
Qed.

Lemma executing_report_spec (c : call) (p : poll) (elapsed : Q)
    (executing : list string) (i : nat) (st st' : loop_state) (rs : list report) :
  executing_report c p elapsed executing i st = (st', rs) ->
  same_queue_fields st st' /\ Forall modest rs.
Proof.
  revert i st st' rs.
  induction executing as [| node_id rest IH]; intros i st st' rs H;
    cbn [executing_report] in H.
  - injection H as <- <-. split; [apply same_queue_fields_refl | constructor].
  - match type of H with
    | context [let '(_, _) := ?body in _] =>
        destruct body as [st1 rs1] eqn:E1
    end.
    destruct (executing_report c p elapsed rest (S i) st1) as [st2 rs2] eqn:E2.
    injection H as <- <-.
    apply IH in E2 as [Hs2 Hm2].
    assert (H1 : same_queue_fields st st1 /\ Forall modest rs1).
    { split_cases E1; injection E1 as <- <-;
        (split; [repeat split |]); repeat constructor.
      all: apply modest_progress.
      all: match goal with
           | Hs : String.eqb _ "27" = true |- _ => apply generation_progress_bound
           | _ => idtac
           end.
      all: match goal with
           | |- default 50 ?o <= 95 =>
               destruct o as [v |] eqn:Ev; cbn [default];
               [apply (stage_percentages_bound _ _ Ev) | lia]
           end. }
    destruct H1 as [Hs1 Hm1]. split.
    + eapply same_queue_fields_trans; eassumption.
    + apply Forall_app; split; assumption.
Qed.

Lemma idle_report_spec (c : call) (st : loop_state) (p : poll) (elapsed : Q)
    (st' : loop_state) (rs : list report) :
  idle_report c st p elapsed = (st', rs) ->
  same_queue_fields st st' /\ Forall modest rs.
Proof.
  unfold idle_report. intros H.
  destruct (Py.gt _ _); injection H as <- <-;
    (split; [repeat split |]); [| constructor].
  apply modest_tell.
  match goal with
  | |- default _ ?o <= 95 => destruct o as [v |] eqn:Ev; cbn [default]
  end; [| apply time_based_progress_bound].
  destruct (match last_node_executing _ with Some _ => _ | None => _ end);
    [| discriminate].
  eapply stage_progress_bound, Ev.
Qed.

(** ** What makes the status check answer "complete" *)

Lemma has_node_plain (d : gmap string json) :
  bool_decide ("30" ∈ plain_nodes d) = true -> has_node (Some d) "30" = true.
Proof.
  unfold plain_nodes, has_node. rewrite !bool_decide_eq_true.
  intros H. apply elem_of_filter in H. tauto.
Qed.

Lemma check_top_level_complete (h : history_t) hd err :
  check_top_level h = (true, hd, err) ->
  (match entry h with
   | Some e => has_node (entry_outputs e) "30"
   | None => false
   end || has_node (top_outputs h) "30" = true) \/
  (exists m, top_error h = Some m).
Proof.
  unfold check_top_level. intros H.
  destruct (top_error h) as [m |]; [right; eauto |]. left.
  destruct (has_node (top_outputs h) "30") eqn:Etop; [apply orb_true_r |].
  injection H as H _ _. unfold executed_nodes_of in H.
  destruct (entry h) as [[s [d |] x] |]; cbn [entry_outputs].
  - apply has_node_plain in H. rewrite H. reflexivity.
  - destruct (top_outputs h) as [d |]; [apply has_node_plain in H; congruence |].
    rewrite bool_decide_eq_true in H. set_solver.
  - destruct (top_outputs h) as [d |]; [apply has_node_plain in H; congruence |].
    rewrite bool_decide_eq_true in H. set_solver.
Qed.

Lemma check_workflow_status_complete (p : poll) hd err :
  check_workflow_status (history p) = (true, hd, err) ->
  shows_terminal_output p = true \/ shows_completed p = true \/
  shows_top_level_error p = true.
Proof.
  unfold check_workflow_status, shows_terminal_output, shows_completed,
    shows_top_level_error.
  destruct (history p) as [m | code h]; [discriminate |].
  destruct (Z.eqb_spec code 200) as [-> | _]; [| discriminate].
  cbn [andb].
  assert (Htop : check_top_level h = (true, hd, err) ->
            (match entry h with
             | Some e => has_node (entry_outputs e) "30"
             | None => false
             end || has_node (top_outputs h) "30") = true \/
            match top_error h with Some _ => true | None => false end = true).
  { intros H. apply check_top_level_complete in H as [H | [m H]];
      [left; exact H | right; rewrite H; reflexivity]. }
  destruct (entry h) as [[[st |] outs exe] |] eqn:Ee;
    cbn [entry_status entry_outputs] in *.
  - destruct (completed_true st) eqn:Ec; [intros _; right; left; reflexivity |].
    destruct (status_is_error st); [discriminate |].
    destruct (has_node outs "30") eqn:En; [intros _; left; reflexivity |].
    intros H. destruct (Htop H) as [H1 | H1]; [left | right; right]; exact H1.
  - destruct (has_node outs "30") eqn:En; [intros _; left; reflexivity |].
    intros H. destruct (Htop H) as [H1 | H1]; [left | right; right]; exact H1.
  - intros H. destruct (Htop H) as [H1 | H1]; [left | right; right]; exact H1.
Qed.

(** The data handed back is the body of a 200 reply. *)
Lemma check_workflow_status_data (r : history_reply) b h err :
  check_workflow_status r = (b, Some h, err) -> r = HistoryResponse 200 h.
Proof.
  unfold check_workflow_status, check_top_level.
  destruct r as [m | code body]; [discriminate |].
  destruct (Z.eqb_spec code 200) as [-> | _]; [| discriminate].
  intros H. split_cases H; injection H as _ <- _; reflexivity.
Qed.

Lemma outputs_show_terminal (p : poll) b hd err :
  check_workflow_status (history p) = (b, hd, err) ->
  "30" ∈ dom (outputs_of hd) -> shows_terminal_output p = true.
Proof.
  intros H Hin. destruct hd as [h |]; [| cbn in Hin; set_solver].
  apply check_workflow_status_data in H.
  unfold shows_terminal_output. rewrite H. cbn [Z.eqb Pos.eqb andb].
  unfold outputs_of in Hin.
  destruct (entry h) as [[s [d |] x] |]; cbn [entry_outputs has_node].
  - rewrite bool_decide_eq_true_2; [reflexivity | exact Hin].
  - destruct (top_outputs h) as [d |]; cbn [default has_node] in *;
      [rewrite bool_decide_eq_true_2; [reflexivity | exact Hin] | set_solver].
  - destruct (top_outputs h) as [d |]; cbn [default has_node] in *;
      [rewrite bool_decide_eq_true_2; [reflexivity | exact Hin] | set_solver].
Qed.

(** ** One iteration *)

Lemma standing_same (c : call) (st st1 : loop_state) (p : poll)
    (executing : list string) :
  same_queue_fields st st1 -> standing c st1 p executing = standing c st p executing.
Proof.
  intros (_ & Hq & Hf & _). unfold standing, queried. rewrite Hq, Hf. reflexivity.
Qed.

Lemma queue_effect_same (o : queue_poll) (a a1 b1 b : loop_state) :
  same_queue_fields a a1 ->
  prompt_left_queue b = prompt_left_queue b1 ->
  consecutive_not_in_queue b = consecutive_not_in_queue b1 ->
  queue_effect o a1 b1 -> queue_effect o a b.
Proof.
  intros (_ & _ & Hf & Hn) Hf' Hn'.
  destruct o; cbn [queue_effect]; rewrite ?Hf, ?Hn, ?Hf', ?Hn'; tauto.
Qed.

Lemma step_spec (c : call) (st : loop_state) (p : poll) :
  step_post c st p (fst (step c st p)) (snd (step c st p)).
Proof.
  unfold step. fold (timed_out c p).
  destruct (timed_out c p) eqn:Et.
  { cbn [fst snd step_post]. split; [repeat constructor; apply modest_log |].
    left. split; [exact Et | reflexivity]. }
  destruct (check_workflow_status (history p)) as [[is_complete hd] err] eqn:Ecws.
  destruct is_complete.
  { cbn [fst snd step_post]. split.
    - exists []. split; [reflexivity | constructor].
    - eapply check_workflow_status_complete, Ecws. }
  cbv zeta.
  destruct (bool_decide ("30" ∈ dom (outputs_of hd))) eqn:E30.
  { cbn [fst snd step_post]. split.
    - exists []. split; [reflexivity | constructor].
    - left. apply bool_decide_eq_true in E30.
      eapply outputs_show_terminal; eassumption. }
  destruct (progress_summary c st p (outputs_of hd)) as [st1 rs1] eqn:E1.
  apply progress_summary_spec in E1 as [Hs1 Hm1].
  pose proof (queue_check_spec c st1 p (t_loop p - start_time c)
                (outputs_of hd) (executing_of hd)) as Hq.
  assert (Hcl : classify c st p = standing c st p (executing_of hd)).
  { unfold classify, standing. rewrite Ecws. reflexivity. }
  destruct (queue_check c st1 p (t_loop p - start_time c) (outputs_of hd)
              (executing_of hd)) as [| st2 rs2 | st2 rs2].
  - cbn [fst snd step_post]. exact Hm1.
  - destruct Hq as (Hm2 & Hci & Heff).
    cbn [fst snd step_post]. split; [apply Forall_app; split; assumption |].
    split; [exact Et |]. split; [reflexivity |]. split.
    + left. destruct Hs1 as (Hc1 & _). congruence.
    + rewrite Hcl. rewrite (standing_same c st st1 p _ Hs1) in Heff.
      eapply queue_effect_same; [exact Hs1 | reflexivity | reflexivity | exact Heff].
  - destruct Hq as (Hm2 & Hci & Heff).
    match goal with
    | |- context [match ?f with Some _ => _ | None => _ end] =>
        destruct f as [m |] eqn:Ef
    end.
    { cbn [fst snd step_post]. split.
      - repeat (apply Forall_app; split); try assumption;
          [repeat constructor; apply modest_log | apply modest_tell_error].
      - right. split; [exact Et |]. exists (rs1 ++ rs2), m.
        rewrite <- !app_assoc. reflexivity. }
    destruct (negb (bool_decide (outputs_of hd = ∅)) &&
              bool_decide ("30" ∈ digit_nodes (outputs_of hd))) eqn:E3.
    { cbn [fst snd step_post]. split.
      - exists (rs1 ++ rs2). split;
          [rewrite <- app_assoc; reflexivity | apply Forall_app; split; assumption].
      - left. apply andb_true_iff in E3 as [_ E3].
        apply bool_decide_eq_true in E3. unfold digit_nodes in E3.
        apply elem_of_filter in E3 as [_ E3].
        eapply outputs_show_terminal; eassumption. }
    set (st3 := if bool_decide (outputs_of hd = ∅) then st2
                else set_known_executed st2 (digit_nodes (outputs_of hd))).
    assert (Hs3 : same_queue_fields st2 st3).
    { subst st3. destruct (bool_decide (outputs_of hd = ∅)); repeat split. }
    destruct (executing_report c p (t_loop p - start_time c) (executing_of hd) 0 st3)
      as [st4 rs4] eqn:E4.
    apply executing_report_spec in E4 as [Hs4 Hm4].
    destruct (idle_report c st4 p (t_loop p - start_time c)) as [st5 rs5] eqn:E5.
    apply idle_report_spec in E5 as [Hs5 Hm5].
    cbn [fst snd step_post set_check_interval check_interval].
    assert (Hs25 : same_queue_fields st2 st5).
    { eapply same_queue_fields_trans; [exact Hs3 |].
      eapply same_queue_fields_trans; eassumption. }
    split; [repeat (apply Forall_app; split); assumption |].
    split; [exact Et |]. split; [reflexivity |]. split.
    + right. destruct Hs25 as (Hc & _). destruct Hs1 as (Hc1 & _).
      rewrite Hc, Hci, Hc1. reflexivity.
    + rewrite Hcl. rewrite (standing_same c st st1 p _ Hs1) in Heff.
      destruct Hs25 as (_ & _ & Hf5 & Hn5).
      eapply queue_effect_same; [exact Hs1 | exact Hf5 | exact Hn5 | exact Heff].
Qed.

Lemma step_cases (c : call) (st : loop_state) (p : poll) rs r :
  step c st p = (rs, r) -> step_post c st p rs r.
Proof. intros H. pose proof (step_spec c st p) as S. rewrite H in S. exact S. Qed.


(** ** Runs *)

Lemma timed_out_step (c : call) (st : loop_state) (p : poll) :
  timed_out c p = true -> step c st p = ([Log TimedOut], Return false).
Proof. unfold step, timed_out. intros ->. reflexivity. Qed.

(** Every report of a run is modest, except for the closing "100% -
    Complete" of a run that returns [True]; such a run saw a completion
    signal in one of its polls. *)
Lemma run_reports (c : call) (polls : list poll) :
  forall st rs r, run c st polls = (rs, r) ->
  exists rs0, Forall modest rs0 /\
    match r with
    | Returned true =>
        rs = rs0 ++ complete_reports c /\
        exists p, In p polls /\ completion_signal p
    | _ => rs = rs0
    end.
Proof.
  induction polls as [| p rest IH]; intros st rs r H; cbn [run] in H.
  - injection H as <- <-. exists []. split; [constructor | reflexivity].
  - destruct (step c st p) as [rs1 r1] eqn:E. apply step_cases in E.
    destruct r1 as [[] | | st1 slept]; cbn [step_post] in E.
    + injection H as <- <-. destruct E as [(rs0 & -> & Hm) Hsig].
      exists rs0. split; [exact Hm |]. split; [reflexivity |].
      exists p. split; [left; reflexivity | exact Hsig].
    + injection H as <- <-. destruct E as [Hm _]. exists rs1. split; [exact Hm | reflexivity].
    + injection H as <- <-. exists rs1. split; [exact E | reflexivity].
    + destruct E as (Hm & _).
      destruct (run c st1 rest) as [rs2 r2] eqn:E2. injection H as <- <-.
      destruct (IH _ _ _ E2) as (rs0 & Hm0 & Hr).
      exists (rs1 ++ rs0). split; [apply Forall_app; split; assumption |].
      destruct r2 as [[] | |].
      * destruct Hr as (-> & q & Hin & Hsig). split; [apply app_assoc |].
        exists q. split; [right; exact Hin | exact Hsig].
      * rewrite Hr. reflexivity.
      * rewrite Hr. reflexivity.
      * rewrite Hr. reflexivity.
Qed.

(** C1 (the code departs from the claim). A single poll whose history
    carries nothing but a top-level "error" key makes the tracker report
    "100% - Complete" and return [True], though node 30 is in no recorded
    output and no status says completed. *)
Theorem complete_reported_on_history_error :
  wait_for_workflow_completion demo_call [error_poll] =
    ([Status (Progress 100 Complete); Log CompletedSuccessfully], Returned true) /\
  shows_terminal_output error_poll = false /\
  shows_completed error_poll = false.
Proof. vm_compute. repeat split. Qed.

(** What does hold of every run: a [True] return needs node 30 in the
    outputs of a poll, a status that says completed, or a top-level error in
    a poll; and every percentage told to the callback before the closing
    report is at most 95. *)
Lemma complete_needs_signal (c : call) (polls : list poll) (rs : list report) :
  wait_for_workflow_completion c polls = (rs, Returned true) ->
  (exists p, In p polls /\ completion_signal p) /\
  (exists rs0, rs = rs0 ++ complete_reports c /\
     forall r pct, In r rs0 -> percentage r = Some pct -> pct < 100).
Proof.
  intros H. apply run_reports in H as (rs0 & Hm & -> & Hp).
  split; [exact Hp |]. exists rs0. split; [reflexivity |].
  intros r pct Hin Hpct. rewrite Forall_forall in Hm.
  specialize (Hm r). rewrite <- list_elem_of_In in Hin.
  specialize (Hm Hin pct Hpct). lia.
Qed.

Lemma unfinished_reports_below_100 (c : call) (polls : list poll)
    (rs : list report) (r : run_result) :
  wait_for_workflow_completion c polls = (rs, r) -> r <> Returned true ->
  forall x pct, In x rs -> percentage x = Some pct -> pct < 100.
Proof.
  intros H Hr. apply run_reports in H as (rs0 & Hm & Hrs).
  assert (rs = rs0) as -> by (destruct r as [[] | |]; congruence).
  intros x pct Hin Hpct. rewrite Forall_forall in Hm.
  rewrite <- list_elem_of_In in Hin. specialize (Hm x Hin pct Hpct). lia.
Qed.


(** ** Leaving the queue *)

Lemma queue_polls_app (a b : list queue_poll) :
  queue_polls (a ++ b) = queue_polls a ++ queue_polls b.
Proof. unfold queue_polls. apply List.filter_app. Qed.

Lemma repeat_snoc (n : nat) : repeat Quiet n ++ [Quiet] = repeat Quiet (S n).
Proof. symmetry. apply repeat_cons. Qed.

Lemma repeat_suffix (pre : list queue_poll) (n : nat) :
  (5 <= n)%nat -> exists pre', pre ++ repeat Quiet n = pre' ++ repeat Quiet 5.
Proof.
  intros H. exists (pre ++ repeat Quiet (n - 5)).
  rewrite <- app_assoc, <- repeat_app. do 2 f_equal. lia.
Qed.

Lemma queue_invariant_initial : queue_invariant initial_state [].
Proof.
  split; [cbn; lia |]. split; [| discriminate].
  intros _. exists []. reflexivity.
Qed.

Lemma classify_left_queue (c : call) (st : loop_state) (p : poll) :
  prompt_left_queue st = true -> classify c st p = Skipped.
Proof. intros H. unfold classify, queried. rewrite H. reflexivity. Qed.

(** One more iteration keeps the reading of the counter. *)
Lemma queue_invariant_step (c : call) (st st' : loop_state) (p : poll)
    (obs : list queue_poll) :
  queue_effect (classify c st p) st st' ->
  queue_invariant st obs -> queue_invariant st' (obs ++ [classify c st p]).
Proof.
  intros Heff (Hpos & Hfalse & Htrue). unfold queue_invariant.
  rewrite queue_polls_app.
  destruct (prompt_left_queue st) eqn:Hflag.
  - rewrite (classify_left_queue c st p Hflag) in *.
    cbn [queue_effect] in Heff. destruct Heff as [Hn Hf].
    cbn [queue_polls List.filter queue_poll_eqb negb]. rewrite app_nil_r.
    split; [lia |]. split; [congruence |]. intros _. apply Htrue. reflexivity.
  - destruct (Hfalse eq_refl) as [pre Hpre].
    destruct (classify c st p); cbn [queue_effect] in Heff;
      cbn [queue_polls List.filter queue_poll_eqb negb].
    + destruct Heff as [Hn Hf]. rewrite app_nil_r, Hn.
      split; [lia |]. split; [intros _; eauto | congruence].
    + destruct Heff as [Hn Hf]. rewrite Hn.
      split; [lia |]. split; [| congruence].
      intros _. exists (queue_polls obs ++ [Found]). cbn. now rewrite app_nil_r.
    + destruct Heff as [Hn Hf]. rewrite Hn.
      split; [lia |]. split; [| congruence].
      intros _. exists (queue_polls obs ++ [Evidence]). cbn. now rewrite app_nil_r.
    + destruct Heff as [Hn Hf]. rewrite Hn, Hpre, <- app_assoc, repeat_snoc.
      replace (S (Z.to_nat (consecutive_not_in_queue st)))
        with (Z.to_nat (consecutive_not_in_queue st + 1)) by lia.
      split; [lia |]. split; [intros _; eauto |].
      intros Hset. destruct Hf as [Hf | [_ Hge]]; [congruence |].
      apply repeat_suffix. lia.
Qed.

Lemma queue_invariant_run (c : call) (polls : list poll) :
  forall st obs rs st',
    queue_invariant st obs ->
    run c st polls = (rs, Polling st') ->
    queue_invariant st' (obs ++ observations c st polls).
Proof.
  induction polls as [| p rest IH]; intros st obs rs st' Hinv H;
    cbn [run observations] in *.
  - injection H as <- <-. rewrite app_nil_r. exact Hinv.
  - destruct (step c st p) as [rs1 r1] eqn:E. cbn [snd].
    pose proof (step_cases _ _ _ _ _ E) as Hpost.
    destruct r1 as [b | | st1 slept]; try discriminate.
    destruct (run c st1 rest) as [rs2 r2] eqn:E2. injection H as <- ->.
    destruct Hpost as (_ & _ & _ & _ & Heff).
    replace (obs ++ classify c st p :: observations c st1 rest)
      with ((obs ++ [classify c st p]) ++ observations c st1 rest)
      by (rewrite <- app_assoc; reflexivity).
    eapply IH; [| exact E2].
    apply queue_invariant_step; assumption.
Qed.

(** An iteration that queried the queue without finding the job sleeps
    more than the query interval and records when it queried. *)
Lemma queue_check_not_found (c : call) (st : loop_state) (p : poll) (elapsed : Q)
    (outputs : gmap string json) (executing : list string) (info : queue_info_t) :
  queried st p = true ->
  get_queue_status (prompt_id c) (queue p) = Some info ->
  is_in_queue info = false ->
  exists st2 rs2,
    queue_check c st p elapsed outputs executing = QueueNext st2 rs2 /\
    last_queue_check_time st2 = t_queue_set p.
Proof.
  unfold queue_check, queried. intros -> -> ->. cbv zeta.
  repeat match goal with
         | |- context [if ?b then _ else _] => destruct b
         end; eauto.
Qed.

Lemma step_after_not_found (c : call) (st st' : loop_state) (p : poll) rs slept :
  step c st p = (rs, Continue st' slept) ->
  classify c st p = Quiet \/ classify c st p = Evidence ->
  last_queue_check_time st' = t_queue_set p /\
  check_interval st' = Py.min 8 (check_interval st * (105 # 100)).
Proof.
  intros H Hcl.
  assert (Hq : queried st p = true /\
               exists info, get_queue_status (prompt_id c) (queue p) = Some info /\
                            is_in_queue info = false).
  { unfold classify in Hcl. destruct (queried st p); [| destruct Hcl; discriminate].
    split; [reflexivity |].
    destruct (get_queue_status (prompt_id c) (queue p)) as [info |];
      [| destruct Hcl; discriminate].
    exists info. split; [reflexivity |].
    destruct (is_in_queue info); [destruct Hcl; discriminate | reflexivity]. }
  destruct Hq as (Hq & info & Hinfo & Hnot).
  unfold step in H.
  destruct (Py.gt _ _); [discriminate |].
  destruct (check_workflow_status (history p)) as [[is_complete hd] err].
  destruct is_complete; [discriminate |]. cbv zeta in H.
  destruct (bool_decide ("30" ∈ dom (outputs_of hd))); [discriminate |].
  destruct (progress_summary c st p (outputs_of hd)) as [st1 rs1] eqn:E1.
  apply progress_summary_spec in E1 as [(Hc1 & Hl1 & Hf1 & _) _].
  assert (Hq1 : queried st1 p = true).
  { unfold queried in *. rewrite Hl1, Hf1. exact Hq. }
  destruct (queue_check_not_found c st1 p (t_loop p - start_time c) (outputs_of hd)
              (executing_of hd) info Hq1 Hinfo Hnot) as (st2 & rs2 & Eq & Hl2).
  pose proof (queue_check_spec c st1 p (t_loop p - start_time c)
                (outputs_of hd) (executing_of hd)) as Hspec.
  rewrite Eq in H, Hspec. destruct Hspec as (_ & Hc2 & _).
  match type of H with
  | context [match ?f with Some _ => _ | None => _ end] => destruct f; [discriminate |]
  end.
  destruct (_ && _); [discriminate |].
  match type of H with
  | context [executing_report c p ?e ?x 0 ?s] =>
      assert (Hs3 : same_queue_fields st2 s)
        by (destruct (bool_decide (outputs_of hd = ∅)); repeat split);
      destruct (executing_report c p e x 0 s) as [st4 rs4] eqn:E4
  end.
  apply executing_report_spec in E4 as [Hs4 _].
  destruct (idle_report c st4 p (t_loop p - start_time c)) as [st5 rs5] eqn:E5.
  apply idle_report_spec in E5 as [Hs5 _].
  injection H as _ <- _. cbn [set_check_interval last_queue_check_time check_interval].
  destruct Hs3 as (Hc3 & Hl3 & _), Hs4 as (Hc4 & Hl4 & _), Hs5 as (Hc5 & Hl5 & _).
  split; [congruence |]. rewrite Hc5, Hc4, Hc3, Hc2, Hc1. reflexivity.
Qed.

Lemma next_poll_queries (c : call) (st st' : loop_state) (p p' : poll) rs slept :
  step c st p = (rs, Continue st' slept) ->
  classify c st p = Quiet \/ classify c st p = Evidence ->
  (5 <= check_interval st)%Q ->
  prompt_left_queue st' = false ->
  (t_queue_set p + slept <= t_queue p')%Q ->
  queried st' p' = true.
Proof.
  intros H Hcl Hci Hflag Hclock.
  destruct (step_after_not_found _ _ _ _ _ _ H Hcl) as [Hl Hc].
  apply step_cases in H as (_ & _ & -> & _).
  unfold queried. rewrite Hflag, Hl. cbn [negb andb].
  unfold Py.gt, queue_check_interval.
  destruct (Qlt_le_dec 5 (t_queue p' - t_queue_set p)) as [| Hle]; [reflexivity |].
  exfalso. rewrite Hc in Hclock. unfold Py.min in Hclock.
  destruct (Qlt_le_dec (check_interval st * (105 # 100)) 8); lra.
Qed.

(** C4. Whatever the polls, once the tracker has concluded that the job
    left the queue, the iterations that queried the queue end in five
    consecutive ones that found the job in neither the running nor the
    pending list and saw no executing node; the conclusion is drawn in an
    iteration of that kind with the counter at five or more; an iteration
    that finds the job in the queue, or sees executing nodes, leaves the
    counter at zero; and after an iteration that did not find the job the
    next one queries the queue again as soon as the clock has advanced by the
    time slept, so that no iteration without a query comes in between. *)
Theorem queue_exit_after_five_quiet_polls :
  (forall c polls rs st',
     wait_for_workflow_completion c polls = (rs, Polling st') ->
     prompt_left_queue st' = true ->
     exists pre,
       queue_polls (observations c initial_state polls) = pre ++ repeat Quiet 5) /\
  (forall c st p rs st' slept,
     step c st p = (rs, Continue st' slept) ->
     prompt_left_queue st = false -> prompt_left_queue st' = true ->
     classify c st p = Quiet /\ 5 <= consecutive_not_in_queue st') /\
  (forall c st p rs st' slept,
     step c st p = (rs, Continue st' slept) ->
     classify c st p = Found \/ classify c st p = Evidence ->
     consecutive_not_in_queue st' = 0) /\
  (forall c st p rs st' slept p',
     step c st p = (rs, Continue st' slept) ->
     classify c st p = Quiet \/ classify c st p = Evidence ->
     (5 <= check_interval st)%Q ->
     prompt_left_queue st' = false ->
     (t_queue_set p + slept <= t_queue p')%Q ->
     queried st' p' = true).
Proof.
  split; [| split; [| split; [| intros; eapply next_poll_queries; eassumption]]].
  - intros c polls rs st' H Hflag.
    pose proof (queue_invariant_run c polls initial_state [] rs st'
                  queue_invariant_initial H) as (_ & _ & Htrue).
    exact (Htrue Hflag).
  - intros c st p rs st' slept H Hf Hf'.
    apply step_cases in H as (_ & _ & _ & _ & Heff).
    destruct (classify c st p); cbn [queue_effect] in Heff.
    + destruct Heff as [_ E]. congruence.
    + destruct Heff as [_ E]. congruence.
    + destruct Heff as [_ E]. congruence.
    + destruct Heff as [Hn [E | [_ Hge]]]; [congruence |].
      split; [reflexivity | lia].
  - intros c st p rs st' slept H Hcl.
    apply step_cases in H as (_ & _ & _ & _ & Heff).
    destruct Hcl as [E | E]; rewrite E in Heff; cbn [queue_effect] in Heff; tauto.
Qed.

Lemma queue_exit_after_five_quiet_polls_witness :
  exists pre,
    queue_polls (observations demo_call initial_state quiet_polls) =
    pre ++ repeat Quiet 5.
Proof.
  eapply (proj1 queue_exit_after_five_quiet_polls demo_call quiet_polls).
  - vm_compute. reflexivity.
  - vm_compute. reflexivity.
Defined.

End WanTrackerSpec.

(** ** What the loop tells, block by block *)

Module WanReportSpec.
Import Wan WanTrackerSpec.

Abbreviation progress_only := (Forall (fun r => is_progress r = true)).

Lemma tell_progress (c : call) (pct : Z) (d : detail) :
  progress_only (tell c (Progress pct d)).
Proof. unfold tell. destruct (status_callback c); repeat constructor. Qed.

Lemma progress_summary_tells (c : call) (st : loop_state) (p : poll)
    (outputs : gmap string json) (st' : loop_state) (rs : list report) :
  progress_summary c st p outputs = (st', rs) -> progress_only rs.
Proof.
  unfold progress_summary. intros H. split_cases H; injection H as <- <-;
    repeat constructor.
Qed.

Lemma running_report_tells (c : call) (st : loop_state) (p : poll) (elapsed : Q)
    (info : queue_info_t) (st' : loop_state) (rs : list report) :
  running_report c st p elapsed info = (st', rs) -> progress_only rs.
Proof.
  unfold running_report. intros H.
  destruct (current_node (details info)) as [[s |] |]; cbv zeta beta iota in H;
    destruct (_ && _); injection H as <- <-; repeat constructor.
Qed.

Lemma queue_check_tells (c : call) (st : loop_state) (p : poll) (elapsed : Q)
    (outputs : gmap string json) (executing : list string) :
  match queue_check c st p elapsed outputs executing with
  | QueueRaise => True
  | QueueContinue _ rs | QueueNext _ rs => progress_only rs
  end.
Proof.
  unfold queue_check.
  destruct (negb (prompt_left_queue st) && _); [| constructor].
  destruct (get_queue_status (prompt_id c) (queue p)) as [info |]; [| exact I].
  assert (Hrun : forall st1,
            match (let '(st2, rs) := running_report c st1 p elapsed info in
                   QueueContinue st2 rs) with
            | QueueRaise => True
            | QueueContinue _ rs | QueueNext _ rs => progress_only rs
            end).
  { intros st1. destruct (running_report c st1 p elapsed info) as [st2 rs] eqn:E.
    eapply running_report_tells, E. }
  destruct (is_in_queue info).
  - destruct (queue_position info) as [pos |].
    + destruct (0 <? pos); [apply tell_progress |].
      destruct (queue_running info); [apply Hrun | constructor].
    + destruct (queue_running info); [apply Hrun | constructor].
  - cbv zeta. destruct (required_not_in_queue <=? _); [| constructor].
    destruct (negb (bool_decide (outputs = ∅))); [| constructor].
    destruct (negb _ && status_callback c); repeat constructor.
Qed.






End WanReportSpec.

Module TimeoutSpec.







(** *** The Wan client *)

Section Wan.
Import Wan WanTrackerSpec.







End Wan.


(** *** The HiDream client *)

Section HiDream.
Import HiDream.



Lemma hidream_step_failed (c : call) (ci : Q) (p : poll) rs :
  step c ci p = (rs, Return false) -> timed_out c p = false ->
  exists rs0 m, rs = rs0 ++ [LogFailed m].
Proof.
  unfold step, timed_out. intros H Ht. rewrite Ht in H.
  split_cases H; try discriminate; injection H as <-; eauto.
Qed.










End HiDream.



End TimeoutSpec.

Module FrameFacts.
Import Store Frame.

(** ** The rules *)

Section Rules.

Variable h0 : heap.
Variable good : object -> Prop.

Lemma kept_start : kept h0 good h0.
Proof.
  split; [reflexivity |]. intros l o Hl Hn.
  exfalso. apply Hn. apply elem_of_dom. eauto.
Qed.

Lemma safe_ret {A} (a : A) (Q : A -> Prop) : Q a -> safe h0 good (ret a) Q.
Proof. intros HQ h Hk. split; [exact Hk |]. cbn. intros b [= <-]. exact HQ. Qed.

Lemma safe_raise {A} (e : exn) (Q : A -> Prop) : safe h0 good (raise e) Q.
Proof. intros h Hk. split; [exact Hk |]. cbn. discriminate. Qed.

Lemma safe_bind {A B} (m : M A) (f : A -> M B) (R : A -> Prop) (Q : B -> Prop) :
  safe h0 good m R -> (forall a, R a -> safe h0 good (f a) Q) ->
  safe h0 good (bind m f) Q.
Proof.
  intros Hm Hf h Hk. unfold bind.
  destruct (Hm h Hk) as [Hk1 HR]. destruct (m h) as [[a | e] h1]; cbn [fst snd] in *.
  - apply (Hf a (HR a eq_refl) h1 Hk1).
  - split; [exact Hk1 | discriminate].
Qed.

Lemma safe_weaken {A} (m : M A) (R Q : A -> Prop) :
  safe h0 good m R -> (forall a, R a -> Q a) -> safe h0 good m Q.
Proof.
  intros Hm HRQ h Hk. destruct (Hm h Hk) as [Hk1 HR].
  split; [exact Hk1 |]. intros a Ha. apply HRQ, HR, Ha.
Qed.

Lemma safe_read {A} (f : heap -> outcome A) (Q : A -> Prop) :
  (forall h a, kept h0 good h -> f h = Ok a -> Q a) ->
  safe h0 good (read f) Q.
Proof.
  intros HQ h Hk. split; [exact Hk |]. cbn. intros a Ha. eapply HQ; eassumption.
Qed.

Lemma safe_read_any {A} (f : heap -> outcome A) :
  safe h0 good (read f) (fun _ => True).
Proof. apply safe_read. auto. Qed.

Lemma fresh_not_old (h : heap) : h0 ⊆ h -> fresh (dom h) ∉ dom h0.
Proof.
  intros Hsub Hin. apply (is_fresh (dom h)).
  apply (subseteq_dom h0 h Hsub), Hin.
Qed.

Lemma kept_insert (h : heap) (l : loc) (o : object) :
  kept h0 good h -> l ∉ dom h0 -> good o -> kept h0 good (<[l := o]> h).
Proof.
  intros [Hsub Hgood] Hl Ho. split.
  - apply insert_subseteq_r; [| exact Hsub]. apply not_elem_of_dom, Hl.
  - intros l' o' Hl' Hn. destruct (decide (l = l')) as [<- | Hne].
    + rewrite lookup_insert_eq in Hl'. injection Hl' as <-. exact Ho.
    + rewrite lookup_insert_ne in Hl' by exact Hne. eapply Hgood; eassumption.
Qed.

Lemma safe_alloc (o : object) :
  good o -> safe h0 good (alloc o) (fun l => l ∉ dom h0).
Proof.
  intros Ho h Hk. unfold alloc. cbn [fst snd].
  pose proof (fresh_not_old h (proj1 Hk)) as Hf. split.
  - apply kept_insert; assumption.
  - intros a [= <-]. exact Hf.
Qed.

Lemma safe_modify (l : loc) (g : object -> outcome object) :
  l ∉ dom h0 ->
  (forall o o', good o -> g o = Ok o' -> good o') ->
  safe h0 good (modify l g) (fun _ => True).
Proof.
  intros Hl Hg h Hk. unfold modify.
  destruct (h !! l) as [o |] eqn:E; [| split; [exact Hk | auto]].
  destruct (g o) as [o' | e] eqn:Eg; [| split; [exact Hk | auto]].
  cbn [fst snd]. split; [| auto].
  apply kept_insert; [exact Hk | exact Hl |].
  eapply Hg; [| exact Eg]. eapply (proj2 Hk); eassumption.
Qed.

Lemma safe_for_each {A} (xs : list A) (body : A -> M unit) (P : A -> Prop) :
  Forall P xs -> (forall x, P x -> safe h0 good (body x) (fun _ => True)) ->
  safe h0 good (for_each xs body) (fun _ => True).
Proof.
  intros HP Hbody. induction xs as [| x rest IH]; cbn [for_each].
  - apply safe_ret. exact I.
  - apply Forall_cons in HP as [Hx Hrest].
    eapply safe_bind; [apply Hbody, Hx |]. intros _ _. apply IH, Hrest.
Qed.

(** What a safe program run from [h0] itself leaves behind. *)
Lemma safe_run {A} (m : M A) (Q : A -> Prop) :
  safe h0 good m Q ->
  kept h0 good (snd (m h0)) /\ forall a, fst (m h0) = Ok a -> Q a.
Proof. intros Hm. apply Hm, kept_start. Qed.

End Rules.


(** ** Dict items *)

Lemma dict_get_in (items : list (value * value)) (k v : value) :
  dict_get items k = Some v -> In v (map snd items).
Proof.
  induction items as [| [k' v'] rest IH]; cbn [dict_get map snd]; [discriminate |].
  destruct (atom_eqb k' k); [intros [= <-]; left; reflexivity |].
  intros H. right. apply IH, H.
Qed.

Lemma dict_get_set (items : list (value * value)) (k v k' w : value) :
  dict_get (dict_set items k v) k' = Some w ->
  w = v \/ dict_get items k' = Some w.
Proof.
  induction items as [| [k0 v0] rest IH]; cbn [dict_set dict_get].
  - destruct (atom_eqb k k'); [intros [= <-]; left; reflexivity | discriminate].
  - destruct (atom_eqb k0 k); cbn [dict_get];
      destruct (atom_eqb k0 k'); auto.
    intros [= <-]. left. reflexivity.
Qed.

Lemma dict_get_set_str (items : list (value * value)) (s s' : string) (v : value) :
  String.eqb s s' = false ->
  dict_get (dict_set items (VStr s) v) (VStr s') = dict_get items (VStr s').
Proof.
  intros Hne. induction items as [| [k0 v0] rest IH]; cbn [dict_set dict_get].
  - cbn [atom_eqb]. rewrite Hne. reflexivity.
  - destruct (atom_eqb k0 (VStr s)) eqn:E; cbn [dict_get].
    + destruct k0 as [| | | | t |]; cbn in E; try discriminate.
      apply String.eqb_eq in E as ->. cbn [atom_eqb]. rewrite Hne. reflexivity.
    + destruct (atom_eqb k0 (VStr s')); [reflexivity | exact IH].
Qed.

Lemma dict_set_forall (P : value -> Prop) (items : list (value * value)) (k v : value) :
  Forall (fun kv => P (fst kv) /\ P (snd kv)) items -> P k -> P v ->
  Forall (fun kv => P (fst kv) /\ P (snd kv)) (dict_set items k v).
Proof.
  intros H Hk Hv. induction H as [| [k0 v0] rest [Hk0 Hv0] Hrest IH];
    cbn [dict_set].
  - repeat constructor; assumption.
  - destruct (atom_eqb k0 k); constructor; cbn; auto.
Qed.

Lemma dict_update_forall (P : value -> Prop) (entries items : list (value * value)) :
  Forall (fun kv => P (fst kv) /\ P (snd kv)) items ->
  Forall (fun kv => P (fst kv) /\ P (snd kv)) entries ->
  Forall (fun kv => P (fst kv) /\ P (snd kv)) (dict_update items entries).
Proof.
  unfold dict_update. revert items.
  induction entries as [| [k v] rest IH]; intros items Hi He; cbn [fold_left];
    [exact Hi |].
  apply Forall_cons in He as [[Hk Hv] Hrest].
  apply IH; [apply dict_set_forall; assumption | exact Hrest].
Qed.

Lemma values_of_dict (P : value -> Prop) (items : list (value * value)) :
  Forall P (values_of (ODict items)) <->
  Forall (fun kv => P (fst kv) /\ P (snd kv)) items.
Proof.
  cbn [values_of]. rewrite Forall_app, !Forall_forall. split.
  - intros [Hk Hv] [k v] Hin. split.
    + apply Hk. apply list_elem_of_fmap. exists (k, v). auto.
    + apply Hv. apply list_elem_of_fmap. exists (k, v). auto.
  - intros H. split; intros x Hx; apply list_elem_of_fmap in Hx as ([k v] & -> & Hin);
      apply (H _ Hin).
Qed.

(** ** A deep copy shares nothing *)

Lemma json_nested_ind (P : json -> Prop) :
  P JNull -> (forall b, P (JBool b)) -> (forall z, P (JInt z)) ->
  (forall x, P (JFloat x)) -> (forall s, P (JStr s)) ->
  (forall items, Forall P items -> P (JArr items)) ->
  (forall members, Forall (fun kv => P (snd kv)) members -> P (JObj members)) ->
  forall j, P j.
Proof.
  intros Hnull Hbool Hint Hfloat Hstr Harr Hobj.
  fix IH 1. intros [| b | z | x | s | items | members].
  - apply Hnull.
  - apply Hbool.
  - apply Hint.
  - apply Hfloat.
  - apply Hstr.
  - apply Harr. induction items as [| j rest IHl]; constructor; [apply IH | exact IHl].
  - apply Hobj. induction members as [| [k j] rest IHl]; constructor;
      [apply IH | exact IHl].
Qed.

Section Closed.

Variable h0 : heap.

Abbreviation old := (dom h0).
Abbreviation closed := (all_fresh (dom h0)).

Lemma safe_map_m {A B} (f : A -> M B) (xs : list A) (Q : B -> Prop) :
  Forall (fun x => safe h0 closed (f x) Q) xs ->
  safe h0 closed (map_m f xs) (Forall Q).
Proof.
  induction 1 as [| x rest Hx Hrest IH]; cbn [map_m].
  - apply safe_ret. constructor.
  - eapply safe_bind; [exact Hx |]. intros y Hy.
    eapply safe_bind; [exact IH |]. intros ys Hys.
    apply safe_ret. constructor; assumption.
Qed.

Lemma safe_loads (j : json) : safe h0 closed (loads j) (fresh_val old).
Proof.
  induction j as [| b | z | x | s | items IH | members IH] using json_nested_ind;
    cbn [loads]; try (apply safe_ret; exact I).
  - eapply safe_bind; [apply safe_map_m, IH |]. intros vs Hvs.
    eapply safe_bind; [apply safe_alloc; exact Hvs |]. intros l Hl.
    apply safe_ret. exact Hl.
  - eapply safe_bind.
    + apply (safe_map_m _ _ (fun kv => fresh_val old (fst kv) /\ fresh_val old (snd kv))).
      eapply Forall_impl; [exact IH |]. intros [k j] Hj. cbn [fst snd] in *.
      eapply safe_bind; [exact Hj |]. intros v Hv. apply safe_ret. split; [exact I | exact Hv].
    + intros kvs Hkvs.
      eapply safe_bind.
      * apply safe_alloc. apply values_of_dict.
        apply dict_update_forall; [constructor | exact Hkvs].
      * intros l Hl. apply safe_ret. exact Hl.
Qed.

(** Reading a part of a new object gives a new object or an atom. *)
Lemma fresh_object (h : heap) (l : loc) (o : object) :
  kept h0 closed h -> l ∉ old -> h !! l = Some o ->
  Forall (fresh_val old) (values_of o).
Proof. intros [_ Hgood] Hl Ho. exact (Hgood l o Ho Hl). Qed.

Lemma lookup_object_ok (h : heap) (l : loc) (o : object) :
  lookup_object h l = Ok o -> h !! l = Some o.
Proof. unfold lookup_object. destruct (h !! l); [intros [= ->]; reflexivity | discriminate]. Qed.

Lemma safe_getitem_str (x : value) (k : string) :
  fresh_val old x -> safe h0 closed (getitem_str x k) (fresh_val old).
Proof.
  intros Hx. apply safe_read. intros h a Hk. unfold getitem_str_pure.
  destruct x as [| | | | | l]; try discriminate.
  destruct (lookup_object h l) as [[items | items] | e] eqn:E; try discriminate.
  apply lookup_object_ok in E.
  destruct (dict_get items (VStr k)) as [v |] eqn:Eg; [| discriminate].
  intros [= <-]. pose proof (fresh_object h l _ Hk Hx E) as Hf.
  rewrite Forall_forall in Hf. apply Hf. cbn [values_of].
  apply list_elem_of_In, in_or_app. right. eapply dict_get_in, Eg.
Qed.

Lemma safe_iterate (x : value) :
  fresh_val old x -> safe h0 closed (iterate x) (Forall (fresh_val old)).
Proof.
  intros Hx. apply safe_read. intros h a Hk. unfold iterate_pure.
  destruct x as [| | | | s | l]; try discriminate.
  - intros [= <-]. unfold chars. apply Forall_forall. intros v Hv.
    apply list_elem_of_fmap in Hv as (c & -> & _). exact I.
  - destruct (lookup_object h l) as [[items | items] | e] eqn:E; try discriminate;
      apply lookup_object_ok in E; intros [= <-];
      pose proof (fresh_object h l _ Hk Hx E) as Hf; cbn [values_of] in Hf.
    + apply Forall_app in Hf. tauto.
    + exact Hf.
Qed.

Lemma safe_dict_values (x : value) :
  fresh_val old x -> safe h0 closed (dict_values x) (Forall (fresh_val old)).
Proof.
  intros Hx. apply safe_read. intros h a Hk. unfold dict_values_pure.
  destruct x as [| | | | s | l]; try discriminate.
  destruct (lookup_object h l) as [[items | items] | e] eqn:E; try discriminate.
  apply lookup_object_ok in E. intros [= <-].
  pose proof (fresh_object h l _ Hk Hx E) as Hf. cbn [values_of] in Hf.
  apply Forall_app in Hf. tauto.
Qed.

Lemma setitem_object_closed (k v : value) (o o' : object) :
  fresh_val old k -> fresh_val old v ->
  closed o -> setitem_object k v o = Ok o' -> closed o'.
Proof.
  intros Hk Hv Ho. unfold all_fresh in *. destruct o as [items | items];
    cbn [setitem_object].
  - destruct (is_ref k); [discriminate |]. intros [= <-].
    apply values_of_dict. apply values_of_dict in Ho.
    apply dict_set_forall; assumption.
  - cbn [values_of] in Ho.
    destruct k as [| b | i | | |]; try discriminate;
      (destruct (list_index items _) as [n |]; [| discriminate]);
      intros [= <-]; cbn [values_of]; apply Forall_insert; assumption.
Qed.

Lemma safe_setitem (x k v : value) :
  fresh_val old x -> fresh_val old k -> fresh_val old v ->
  safe h0 closed (setitem x k v) (fun _ => True).
Proof.
  intros Hx Hk Hv. unfold setitem.
  destruct x as [| | | | | l]; try apply safe_raise.
  apply safe_modify; [exact Hx |].
  intros o o' Ho. apply setitem_object_closed; assumption.
Qed.


Variable float_repr : Q -> string.

Lemma safe_update_node (prompt : string) (node : value) :
  fresh_val old node ->
  safe h0 closed (Wan.update_node prompt node) (fun _ => True).
Proof.
  intros Hnode. unfold Wan.update_node.
  eapply safe_bind; [apply safe_read_any |]. intros type _.
  destruct (eq_str type "WanVideoTextEncode"); [| apply safe_ret; exact I].
  eapply safe_bind; [apply safe_read_any |]. intros [] _; [| apply safe_ret; exact I].
  eapply safe_bind; [apply safe_getitem_str, Hnode |]. intros widgets_values Hw.
  eapply safe_bind; [apply safe_read_any |]. intros n _.
  destruct (1 <=? n); [| apply safe_ret; exact I].
  apply safe_setitem; [exact Hw | exact I | exact I].
Qed.

Lemma safe_update_workflow (workflow : value) (prompt : string) :
  safe h0 closed (Wan.update_workflow float_repr workflow prompt) (fresh_val old).
Proof.
  unfold Wan.update_workflow.
  eapply safe_bind; [apply safe_read_any |]. intros text _.
  eapply safe_bind; [apply safe_loads |]. intros updated_workflow Hu.
  eapply safe_bind; [apply safe_read_any |]. intros has_nodes _.
  eapply safe_bind with (R := fun _ => True); [| intros _ _; apply safe_ret; exact Hu].
  destruct has_nodes; [| apply safe_ret; exact I].
  eapply safe_bind; [apply safe_getitem_str, Hu |]. intros nodes Hn.
  eapply safe_bind; [apply safe_read_any |]. intros [] _.
  - eapply safe_bind; [apply safe_iterate, Hn |]. intros items Hi.
    eapply safe_for_each; [exact Hi |]. intros x Hx. apply safe_update_node, Hx.
  - eapply safe_bind; [apply safe_read_any |]. intros [] _; [| apply safe_ret; exact I].
    eapply safe_bind; [apply safe_dict_values, Hn |]. intros items Hi.
    eapply safe_for_each; [exact Hi |]. intros x Hx. apply safe_update_node, Hx.
Qed.

(** Everything reachable from a new value in a closed store is new. *)
Lemma reach_fresh (h : heap) (v : value) (l : loc) :
  kept h0 closed h -> fresh_val old v -> reach h v l -> l ∉ old.
Proof.
  intros Hk Hv Hr. induction Hr as [l | l o v l' Ho Hin Hr IH].
  - exact Hv.
  - apply IH. pose proof (fresh_object h l o Hk Hv Ho) as Hf.
    rewrite Forall_forall in Hf. apply Hf, list_elem_of_In, Hin.
Qed.

End Closed.


(** ** Compilation writes to its own objects only *)

Section Compile.

Variable h0 : heap.
Variable float_repr : Q -> string.
Variable float_of_str : string -> option Q.
Variable container_repr : heap -> value -> string.

Abbreviation old := (dom h0).
Abbreviation tidy := (inputs_fresh (dom h0)).

Lemma safe_getitem_inputs (x : value) :
  fresh_val old x -> safe h0 tidy (getitem_str x "inputs") (fresh_val old).
Proof.
  intros Hx. apply safe_read. intros h a [_ Hgood]. unfold getitem_str_pure.
  destruct x as [| | | | | l]; try discriminate.
  destruct (lookup_object h l) as [[items | items] | e] eqn:E; try discriminate.
  apply lookup_object_ok in E.
  destruct (dict_get items (VStr "inputs")) as [v |] eqn:Eg; [| discriminate].
  intros [= <-]. exact (Hgood l _ E Hx v Eg).
Qed.

Lemma setitem_object_tidy (k v : value) (o o' : object) :
  fresh_val old v -> tidy o -> setitem_object k v o = Ok o' -> tidy o'.
Proof.
  intros Hv Ho. destruct o as [items | items]; cbn [setitem_object].
  - destruct (is_ref k); [discriminate |]. intros [= <-].
    intros w Hw. apply dict_get_set in Hw as [-> | Hw]; [exact Hv | exact (Ho w Hw)].
  - destruct k as [| b | i | | |]; try discriminate;
      (destruct (list_index items _) as [n |]; [| discriminate]);
      intros [= <-]; exact I.
Qed.

Lemma safe_setitem_new (x k v : value) :
  fresh_val old x -> fresh_val old v ->
  safe h0 tidy (setitem x k v) (fun _ => True).
Proof.
  intros Hx Hv. unfold setitem.
  destruct x as [| | | | | l]; try apply safe_raise.
  apply safe_modify; [exact Hx |].
  intros o o' Ho. apply setitem_object_tidy; assumption.
Qed.

Lemma dict_update_inputs (entries : list (string * value)) :
  names_ok (map fst entries) = true ->
  forall items,
    dict_get (dict_update items (map (fun kv => (VStr (fst kv), snd kv)) entries))
      (VStr "inputs") = dict_get items (VStr "inputs").
Proof.
  unfold dict_update, names_ok.
  induction entries as [| [name v] rest IH]; intros Hn items; cbn [map fold_left fst snd];
    [reflexivity |].
  cbn [map fst forallb] in Hn. apply andb_true_iff in Hn as [Hname Hrest].
  rewrite (IH Hrest). apply dict_get_set_str.
  apply negb_true_iff, Hname.
Qed.

Lemma safe_update (x : value) (entries : list (string * value)) :
  fresh_val old x -> names_ok (map fst entries) = true ->
  safe h0 tidy (update x entries) (fun _ => True).
Proof.
  intros Hx Hn. unfold update.
  destruct x as [| | | | | l]; try apply safe_raise.
  apply safe_modify; [exact Hx |].
  intros [items | items] o' Ho; cbn [update_object]; [| discriminate].
  intros [= <-] w. rewrite (dict_update_inputs entries Hn). apply Ho.
Qed.

Lemma safe_update_inputs (node_config : value) (entries : list (string * value)) :
  fresh_val old node_config -> names_ok (map fst entries) = true ->
  safe h0 tidy (Wan.update_inputs node_config entries) (fun _ => True).
Proof.
  intros Hc Hn. unfold Wan.update_inputs.
  eapply safe_bind; [apply safe_getitem_inputs, Hc |]. intros inputs Hi.
  apply safe_update; assumption.
Qed.

Lemma safe_widgets (widget_values : value) (schema : list (string * Z)) :
  safe h0 tidy (Wan.widgets widget_values schema)
    (fun entries => map fst entries = map fst schema).
Proof.
  induction schema as [| [name i] rest IH]; cbn [Wan.widgets].
  - apply safe_ret. reflexivity.
  - eapply safe_bind; [apply safe_read_any |]. intros v _.
    eapply safe_bind; [exact IH |]. intros entries He.
    apply safe_ret. cbn [map fst]. rewrite He. reflexivity.
Qed.

Lemma safe_float (v : value) : safe h0 tidy (Wan.float float_of_str v) (fun _ => True).
Proof.
  destruct v; cbn [Wan.float]; try apply safe_raise; try (apply safe_ret; exact I).
  destruct (float_of_str s); [apply safe_ret; exact I | apply safe_raise].
Qed.

Lemma safe_lower (v : value) : safe h0 tidy (Wan.lower v) (fun _ => True).
Proof. destruct v; cbn [Wan.lower]; try apply safe_raise. apply safe_ret. exact I. Qed.

(** One step through a program made of reads, conversions and updates of
    the inputs of a new node record. *)
Ltac names :=
  rewrite ?List.map_app;
  repeat match goal with
         | H : map fst _ = _ |- _ => rewrite H; clear H
         end;
  reflexivity.

Ltac stride :=
  match goal with
  | |- safe _ _ (ret _) _ => apply safe_ret; exact I
  | |- safe _ _ (raise _) _ => apply safe_raise
  | |- safe _ _ (Wan.update_inputs _ _) _ =>
      apply safe_update_inputs; [assumption | names]
  | |- safe _ _ (bind (Wan.widgets _ _) _) _ =>
      eapply safe_bind;
      [apply safe_widgets | let H := fresh "Hnames" in intros ? H; cbv beta in H]
  | |- safe _ _ (bind (Wan.float _ _) _) _ =>
      eapply safe_bind; [apply safe_float | intros ? _]
  | |- safe _ _ (bind (Wan.lower _) _) _ =>
      eapply safe_bind; [apply safe_lower | intros ? _]
  | |- safe _ _ (bind (if ?b then _ else _) _) _ =>
      eapply safe_bind with (R := fun _ => True);
      [destruct b; [apply safe_read_any | apply safe_ret; exact I] | intros ? _]
  | |- safe _ _ (bind _ _) _ =>
      eapply safe_bind; [apply safe_read_any | intros ? _]
  | |- safe _ _ (if ?b then _ else _) _ => destruct b
  end.

Lemma safe_process_widgets (type widget_values node_config : value) :
  fresh_val old node_config ->
  safe h0 tidy (Wan.process_widgets float_of_str type widget_values node_config)
    (fun _ => True).
Proof.
  intros Hc. unfold Wan.process_widgets. repeat stride.
Qed.


Tactic Notation "reads" ident(x) :=
  eapply safe_bind; [apply safe_read_any | intros x _].

Lemma safe_connect (links : list value) (link_id input_name node_config : value) :
  fresh_val old node_config ->
  safe h0 tidy (Wan.connect float_repr container_repr links link_id input_name node_config)
    (fun _ => True).
Proof.
  intros Hc. induction links as [| link rest IH]; cbn [Wan.connect].
  - apply safe_ret. exact I.
  - reads first. reads same. destruct same; [| exact IH].
    reads source. reads source_node_id. reads output_index.
    eapply safe_bind; [apply safe_alloc; exact I |]. intros pair Hp.
    eapply safe_bind; [apply safe_getitem_inputs, Hc |]. intros inputs Hi.
    apply safe_setitem_new; [exact Hi | exact Hp].
Qed.

Lemma safe_process_links (node node_config workflow : value) :
  fresh_val old node_config ->
  safe h0 tidy (Wan.process_links float_repr container_repr node node_config workflow)
    (fun _ => True).
Proof.
  intros Hc. unfold Wan.process_links. reads has_inputs.
  eapply safe_bind with (R := fun _ => True).
  { destruct has_inputs; [| apply safe_ret; exact I].
    reads links. apply safe_read_any. }
  intros linked _. destruct linked; [| apply safe_ret; exact I].
  reads inputs. reads items.
  eapply safe_for_each with (P := fun _ => True);
    [apply Forall_forall; auto |].
  intros input_data _. reads input_name. reads link_id.
  destruct link_id; try (apply safe_ret; exact I);
    reads links; reads link_items; apply safe_connect, Hc.
Qed.

Lemma safe_process_node_inputs (node node_config workflow : value) :
  fresh_val old node_config ->
  safe h0 tidy
    (Wan._process_node_inputs float_repr float_of_str container_repr
       node node_config workflow) (fun _ => True).
Proof.
  intros Hc. unfold Wan._process_node_inputs. reads has_widgets.
  eapply safe_bind with (R := fun _ => True).
  - destruct has_widgets; [| apply safe_ret; exact I].
    reads widget_values. reads type. apply safe_process_widgets, Hc.
  - intros _ _. apply safe_process_links, Hc.
Qed.

Lemma tidy_config (class_type : value) (inputs : loc) :
  inputs ∉ old ->
  tidy (ODict [(VStr "class_type", class_type); (VStr "inputs", VRef inputs)]).
Proof. intros Hi v. cbn. intros [= <-]. exact Hi. Qed.

Lemma safe_transform_node (workflow api_prompt node : value) :
  fresh_val old api_prompt ->
  safe h0 tidy
    (Wan.transform_node float_repr float_of_str container_repr
       workflow api_prompt node) (fun _ => True).
Proof.
  intros Ha. unfold Wan.transform_node. reads type.
  destruct (eq_str type "Note"); [apply safe_ret; exact I |].
  reads declared. reads use_declared.
  eapply safe_bind with (R := fun _ => True).
  { destruct use_declared; [apply safe_ret; exact I | apply safe_read_any]. }
  intros class_type _.
  eapply safe_bind; [apply safe_alloc; intros v; discriminate |]. intros inputs Hi.
  eapply safe_bind; [apply safe_alloc, tidy_config, Hi |]. intros node_config Hc.
  reads title. reads titled.
  eapply safe_bind with (R := fun _ => True).
  { destruct titled; [| apply safe_ret; exact I]. reads title'.
    eapply safe_bind; [apply safe_alloc; intros v; discriminate |]. intros meta Hm.
    apply safe_setitem_new; [exact Hc | exact Hm]. }
  intros _ _.
  eapply safe_bind; [apply safe_process_node_inputs; exact Hc |]. intros _ _.
  reads id. reads key. apply safe_setitem_new; [exact Ha | exact Hc].
Qed.

Lemma safe_transform (workflow : value) :
  safe h0 tidy
    (Wan._transform_workflow_to_api_format float_repr float_of_str container_repr
       workflow) (fun _ => True).
Proof.
  unfold Wan._transform_workflow_to_api_format. reads nodes. reads has_nodes.
  destruct (negb has_nodes).
  - reads prompt. reads has_prompt.
    destruct has_prompt; [apply safe_read_any | apply safe_ret; exact I].
  - reads nodes'. reads is_dict. destruct is_dict; [apply safe_read_any |].
    eapply safe_bind; [apply safe_alloc; intros v; discriminate |]. intros api_prompt Ha.
    reads nodes''. reads items.
    eapply safe_bind; [| intros _ _; apply safe_ret; exact I].
    eapply safe_for_each with (P := fun _ => True); [apply Forall_forall; auto |].
    intros node _. apply safe_transform_node. exact Ha.
Qed.

End Compile.

End FrameFacts.

Module WanGraphSpec.
Import Store Frame FrameFacts.

Lemma kept_lookup (h0 : heap) (good : object -> Prop) (h : heap) (l : loc) (o : object) :
  kept h0 good h -> h0 !! l = Some o -> h !! l = Some o.
Proof. intros [Hsub _] Hl. eapply lookup_weaken; eassumption. Qed.

(** C7. Neither function changes an object that existed before the call,
    whether it returns or raises: the store afterwards holds every earlier
    object with its earlier content. What [update_workflow] returns is built
    from objects made during the call only: nothing reachable from it
    existed before, so the changes it makes fall on the copy. *)
Theorem graph_functions_keep_their_argument
    (float_repr : Q -> string) (float_of_str : string -> option Q)
    (container_repr : heap -> value -> string)
    (h : heap) (workflow : value) (prompt : string) :
  (let result := Wan.update_workflow float_repr workflow prompt h in
   (forall l o, h !! l = Some o -> snd result !! l = Some o) /\
   (forall copy, fst result = Ok copy ->
      forall l, reach (snd result) copy l -> h !! l = None)) /\
  (let result :=
     Wan._transform_workflow_to_api_format float_repr float_of_str container_repr
       workflow h in
   forall l o, h !! l = Some o -> snd result !! l = Some o).
Proof.
  split.
  - destruct (safe_run h _ _ _ (safe_update_workflow h float_repr workflow prompt))
      as [Hk Hcopy].
    cbv zeta. split.
    + intros l o. eapply kept_lookup, Hk.
    + intros copy Hc l Hr. apply not_elem_of_dom.
      eapply reach_fresh; [exact Hk | apply Hcopy, Hc | exact Hr].
  - destruct (safe_run h _ _ _
                (safe_transform h float_repr float_of_str container_repr workflow))
      as [Hk _].
    cbv zeta. intros l o. eapply kept_lookup, Hk.
Qed.

(** On the sample graph the copy receives the prompt and the widget list
    of the original keeps its text. *)
Lemma graph_functions_keep_their_argument_witness :
  let result :=
    Wan.update_workflow Wan.plain_float_repr (VRef 1%positive) "a dog" Wan.visual_graph in
  snd result !! 4%positive = Some (OList [VStr "a cat"; VStr "blurry"]) /\
  (exists copy widgets,
     fst result = Ok (VRef copy) /\
     snd result !! copy <> None /\
     Wan.visual_graph !! copy = None /\
     snd result !! widgets = Some (OList [VStr "a dog"; VStr "blurry"])).
Proof.
  pose proof (graph_functions_keep_their_argument Wan.plain_float_repr
                Wan.no_float_of_str Wan.no_container_repr
                Wan.visual_graph (VRef 1%positive) "a dog") as [[Hkeep Hnew] _].
  cbv zeta in *. split.
  - apply Hkeep. reflexivity.
  - exists 14%positive, 8%positive. split; [vm_compute; reflexivity |].
    split; [vm_compute; discriminate |]. split.
    + apply (Hnew (VRef 14%positive)); [vm_compute; reflexivity | constructor].
    + vm_compute. reflexivity.
Defined.


(** C8 as stated fails: a payload that wraps its graph under "prompt"
    has no node list, yet compilation returns the wrapped graph and not the
    payload. *)
Lemma transform_unwraps_prompt :
  ~ (forall (h : heap) (workflow : value),
       Wan.no_node_list h workflow ->
       fst (Wan._transform_workflow_to_api_format Wan.plain_float_repr
              Wan.no_float_of_str Wan.no_container_repr workflow h)
       = Ok workflow).
Proof.
  intros H.
  specialize (H Wan.wrapped_graph (VRef 1%positive)).
  assert (Hno : Wan.no_node_list Wan.wrapped_graph (VRef 1%positive)).
  { exists VNone. split; reflexivity. }
  specialize (H Hno). vm_compute in H. discriminate H.
Qed.

(** C8, amended. When the "nodes" entry of the graph is absent or empty
    and so is its "prompt" entry, compilation returns the graph it was given,
    the same object, and the store is as before. *)
Theorem transform_identity_on_execution_form
    (float_repr : Q -> string) (float_of_str : string -> option Q)
    (container_repr : heap -> value -> string)
    (h : heap) (workflow : value) :
  Wan.entry_empty h workflow "nodes" ->
  Wan.entry_empty h workflow "prompt" ->
  Wan._transform_workflow_to_api_format float_repr float_of_str container_repr
    workflow h = (Ok workflow, h).
Proof.
  intros (nodes & Hn & Hnt) (prompt & Hp & Hpt).
  unfold Wan._transform_workflow_to_api_format, bind, get, truthy, read, ret.
  rewrite Hn, Hnt. cbn [negb]. rewrite Hp, Hpt. reflexivity.
Qed.

Lemma transform_identity_on_execution_form_witness :
  Wan._transform_workflow_to_api_format Wan.plain_float_repr Wan.no_float_of_str
    Wan.no_container_repr (VRef 1%positive) Wan.execution_graph
  = (Ok (VRef 1%positive), Wan.execution_graph).
Proof.
  apply transform_identity_on_execution_form.
  - exists VNone. split; reflexivity.
  - exists VNone. split; reflexivity.
Defined.

(** The two other ways out before any node is compiled: a non-empty
    "prompt" entry is returned in place of the graph, and so is a "nodes"
    entry that is a dict. *)
Lemma transform_returns_prompt_entry
    (float_repr : Q -> string) (float_of_str : string -> option Q)
    (container_repr : heap -> value -> string)
    (h : heap) (workflow prompt : value) :
  Wan.entry_empty h workflow "nodes" ->
  getitem_str_pure h workflow "prompt" = Ok prompt ->
  truthy_pure h prompt = Ok true ->
  Wan._transform_workflow_to_api_format float_repr float_of_str container_repr
    workflow h = (Ok prompt, h).
Proof.
  intros (nodes & Hn & Hnt) Hp Hpt.
  unfold Wan._transform_workflow_to_api_format, bind, get, truthy, read, ret,
    getitem_str.
  rewrite Hn, Hnt. cbn [negb].
  assert (Hg : get_pure h workflow "prompt" VNone = Ok prompt).
  { unfold get_pure, getitem_str_pure in *.
    destruct workflow as [| | | | | l]; try discriminate.
    destruct (lookup_object h l) as [[items | items] | e]; try discriminate.
    destruct (dict_get items (VStr "prompt")); [| discriminate].
    exact Hp. }
  rewrite Hg, Hpt. unfold read. rewrite Hp. reflexivity.
Qed.

End WanGraphSpec.

(** ** Further facts about the Wan tracker *)

Module WanTrackerFacts.
Import Wan WanTrackerSpec.

Lemma status_200_data (code : Z) (h : history_t) b hd err :
  check_workflow_status (HistoryResponse code h) = (b, hd, err) ->
  code = 200 -> hd = Some h.
Proof.
  intros H ->. cbn in H. unfold check_top_level in H.
  split_cases H; injection H as <- <- <-; reflexivity.
Qed.

(** X1. Node 30 among the outputs settles the iteration: when the budget
    is not spent and the history answers 200 with node 30 in the outputs the
    loop reads (those of the entry under the prompt id when it has any, else
    the top-level ones), the iteration reports "100% - Complete" and returns
    [True], whatever the status field, the queue and the loop variables say;
    the queue is not even asked. *)
Theorem terminal_output_completes (c : call) (st : loop_state) (p : poll)
    (h : history_t) :
  timed_out c p = false ->
  history p = HistoryResponse 200 h ->
  "30" ∈ dom (outputs_of (Some h)) ->
  step c st p = (complete_reports c, Return true).
Proof.
  intros Ht Hh H30. unfold step. fold (timed_out c p). rewrite Ht.
  destruct (check_workflow_status (history p)) as [[is_complete hd] err] eqn:E.
  destruct is_complete; [reflexivity |].
  rewrite Hh in E. apply status_200_data in E; [| reflexivity]. subst hd.
  cbv zeta. rewrite bool_decide_eq_true_2 by exact H30. reflexivity.
Qed.

Lemma terminal_output_completes_witness :
  step demo_call initial_state stale_poll =
    ([Status (Progress 100 Complete); Log CompletedSuccessfully], Return true).
Proof.
  apply (terminal_output_completes demo_call initial_state stale_poll
           failed_with_output).
  - vm_compute. reflexivity.
  - reflexivity.
  - vm_compute. reflexivity.
Defined.

Lemma return_true_in_time (c : call) (st : loop_state) (p : poll) rs :
  step c st p = (rs, Return true) -> timed_out c p = false.
Proof.
  intros H. destruct (timed_out c p) eqn:E; [| reflexivity].
  rewrite (timed_out_step c st p E) in H. discriminate.
Qed.

Lemma wan_run_true_poll (c : call) (polls : list poll) :
  forall st rs, run c st polls = (rs, Returned true) ->
  exists pre p post,
    polls = pre ++ p :: post /\ completion_signal p /\
    Forall (fun q => timed_out c q = false) (pre ++ [p]) /\
    length (sleeps c st polls) = length pre.
Proof.
  induction polls as [| p rest IH]; intros st rs H; cbn [run] in H; [discriminate |].
  cbn [sleeps].
  destruct (step c st p) as [rs1 r1] eqn:E. pose proof (step_cases _ _ _ _ _ E) as Hp.
  cbn [snd]. destruct r1 as [[] | | st1 slept]; try discriminate;
    cbn [step_post] in Hp; cbn iota.
  - exists [], p, rest. split; [reflexivity |]. split; [apply Hp |].
    split; [| reflexivity]. repeat constructor. eapply return_true_in_time, E.
  - destruct (run c st1 rest) as [rs2 r2] eqn:E2. injection H as <- ->.
    destruct (IH _ _ E2) as (pre & q & post & -> & Hsig & Hin & Hlen).
    exists (p :: pre), q, post. split; [reflexivity |]. split; [exact Hsig |].
    split; [| cbn [length]; congruence].
    cbn [app]. constructor; [apply Hp | exact Hin].
Qed.

(** X2. A [True] return is earned in the last iteration that ran: the
    polls split into those consumed before it, one of which each ended in a
    sleep, the poll of the returning iteration, and polls never looked at.
    The returning poll carries a completion signal (node 30 in the outputs, a
    status that says completed, or a top-level error), and it and all polls
    before it were read within the budget. The callback hears percentages of
    at most 95 before the closing "100% - Complete". *)
Theorem true_return_at_signal (c : call) (polls : list poll) (rs : list report) :
  wait_for_workflow_completion c polls = (rs, Returned true) ->
  exists pre p post rs0,
    polls = pre ++ p :: post /\ completion_signal p /\
    Forall (fun q => timed_out c q = false) (pre ++ [p]) /\
    length (sleeps c initial_state polls) = length pre /\
    rs = rs0 ++ complete_reports c /\ Forall modest rs0.
Proof.
  intros H. unfold wait_for_workflow_completion in H.
  destruct (wan_run_true_poll _ _ _ _ H) as (pre & p & post & Hs & Hsig & Ht & Hlen).
  apply run_reports in H as (rs0 & Hm & -> & _).
  exists pre, p, post, rs0. repeat split; try assumption; reflexivity.
Qed.

Lemma true_return_at_signal_witness :
  exists pre p post rs0,
    finishing_polls = pre ++ p :: post /\ completion_signal p /\
    Forall (fun q => timed_out demo_call q = false) (pre ++ [p]) /\
    length (sleeps demo_call initial_state finishing_polls) = length pre /\
    fst (wait_for_workflow_completion demo_call finishing_polls)
      = rs0 ++ complete_reports demo_call /\ Forall modest rs0.
Proof.
  destruct (true_return_at_signal demo_call finishing_polls
              (fst (wait_for_workflow_completion demo_call finishing_polls)))
    as (pre & p & post & rs0 & H1 & H2 & H3 & H4 & H5 & H6).
  - vm_compute. reflexivity.
  - exists pre, p, post, rs0. repeat split; try assumption.
Defined.

(** *** The polling interval *)

Lemma wan_interval_step (c : call) (st st' : loop_state) (p : poll) rs slept :
  step c st p = (rs, Continue st' slept) ->
  (5 <= check_interval st <= 8)%Q ->
  slept = check_interval st' /\
  (check_interval st <= check_interval st' <= 8)%Q.
Proof.
  intros H [Hlo Hhi]. apply step_cases in H as (_ & _ & -> & Hnext & _).
  split; [reflexivity |].
  destruct Hnext as [-> | ->]; [lra |].
  unfold Py.min. destruct (Qlt_le_dec _ _); lra.
Qed.

Lemma ascending_nil : ascending [].
Proof. intros i x y Hx. destruct i; discriminate. Qed.

Lemma wan_sleeps_bounds (c : call) (polls : list poll) :
  forall st, (5 <= check_interval st <= 8)%Q ->
  Forall (fun s => (check_interval st <= s <= 8)%Q) (sleeps c st polls) /\
  ascending (sleeps c st polls).
Proof.
  induction polls as [| p rest IH]; intros st Hst; cbn [sleeps].
  - split; [constructor | apply ascending_nil].
  - destruct (step c st p) as [rs r] eqn:E. cbn [snd].
    destruct r as [b | | st1 slept]; cbn iota;
      try (split; [constructor | apply ascending_nil]).
    destruct (wan_interval_step _ _ _ _ _ _ E Hst) as [-> H1].
    destruct (IH st1 ltac:(lra)) as [Hall Hasc]. split.
    + constructor; [lra |].
      eapply Forall_impl; [exact Hall |]. cbn. intros s Hs. lra.
    + intros [| i] a b Ha Hb; cbn in Ha, Hb.
      * injection Ha as <-. destruct (sleeps c st1 rest) as [| s l]; [discriminate |].
        injection Hb as <-. apply Forall_cons in Hall as [Hs _]. lra.
      * eapply Hasc; eassumption.
Qed.


(** *** The queue query *)

Lemma find_item_bounds (prompt_id : string) (items : list json) :
  forall k idx, find_item prompt_id items k = Some idx ->
  k <= idx < k + Z.of_nat (length items).
Proof.
  induction items as [| item rest IH]; intros k idx H; cbn [find_item] in H;
    [discriminate |].
  cbn [length]. destruct (item_is prompt_id item).
  - injection H as <-. lia.
  - apply IH in H. lia.
Qed.

Lemma find_item_listed (prompt_id : string) (items : list json) :
  forall k, existsb (item_is prompt_id) items =
            match find_item prompt_id items k with Some _ => true | None => false end.
Proof.
  induction items as [| item rest IH]; intros k; cbn [existsb find_item];
    [reflexivity |].
  destruct (item_is prompt_id item); [reflexivity |]. cbn [orb]. apply IH.
Qed.

Lemma queue_status_facts (prompt_id : string) (q : queue_t) :
  exists info,
    get_queue_status prompt_id (QueueResponse 200 q) = Some info /\
    queue_running info = listed prompt_id (data_running q) /\
    is_in_queue info =
      listed prompt_id (data_running q) || listed prompt_id (data_pending q) /\
    (queue_running info = true -> queue_position info = Some 0) /\
    (queue_running info = false -> is_in_queue info = true ->
     exists pos, queue_position info = Some pos /\ 1 <= pos <= queue_size info) /\
    (is_in_queue info = false -> queue_position info = None).
Proof.
  eexists. split; [reflexivity |]. unfold listed.
  destruct q as [running pending progress]. cbn [data_running data_pending data_progress].
  set (hit := match running with
              | Some items => existsb (item_is prompt_id) items
              | None => false
              end).
  destruct hit.
  { destruct pending, progress; cbn; repeat split; try discriminate; reflexivity. }
  destruct pending as [pending |].
  2: { destruct progress; cbn; repeat split; try discriminate; reflexivity. }
  cbn [is_in_queue default_queue_info queue_size Z.add orb].
  rewrite (find_item_listed prompt_id pending 0).
  destruct (find_item prompt_id pending 0) as [idx |] eqn:E.
  - apply find_item_bounds in E.
    destruct progress; cbn; repeat split; try discriminate;
      intros _ _; exists (idx + 1); (split; [reflexivity | lia]).
  - destruct progress; cbn; repeat split; try discriminate; reflexivity.
Qed.

(** X4. What [get_queue_status] reads off a 200 reply: the job counts
    as running exactly when the running list names it and as in the queue
    exactly when the running or the pending list names it. A running job has
    position 0; a job that is only pending has a position between 1 and the
    reported queue size; a job in neither list has no position. *)
Theorem queue_status_reads_lists (prompt_id : string) (q : queue_t) :
  exists info,
    get_queue_status prompt_id (QueueResponse 200 q) = Some info /\
    queue_running info = listed prompt_id (data_running q) /\
    is_in_queue info =
      listed prompt_id (data_running q) || listed prompt_id (data_pending q) /\
    (queue_running info = true -> queue_position info = Some 0) /\
    (queue_running info = false -> is_in_queue info = true ->
     exists pos, queue_position info = Some pos /\ 1 <= pos <= queue_size info) /\
    (is_in_queue info = false -> queue_position info = None).
Proof. apply queue_status_facts. Qed.

Lemma queue_status_reads_lists_witness :
  exists info,
    get_queue_status "p" (QueueResponse 200 pending_queue) = Some info /\
    queue_running info = false /\ is_in_queue info = true /\
    exists pos, queue_position info = Some pos /\ 1 <= pos <= queue_size info.
Proof.
  destruct (queue_status_reads_lists "p" pending_queue)
    as (info & Hget & Hrun & Hin & _ & Hpos & _).
  exists info. split; [exact Hget |]. split; [exact Hrun |]. split; [exact Hin |].
  apply Hpos; [exact Hrun | exact Hin].
Defined.

(** A job found in the queue always sends the loop into its next
    iteration from inside the queue check. *)
Lemma found_continues (c : call) (st : loop_state) (p : poll) (elapsed : Q)
    (outputs : gmap string json) (executing : list string) :
  standing c st p executing = Found ->
  exists st' rs, queue_check c st p elapsed outputs executing = QueueContinue st' rs.
Proof.
  unfold standing, queue_check. fold (queried st p).
  destruct (queried st p); [| discriminate].
  destruct (queue p) as [| | code q] eqn:Eq;
    [discriminate | cbn; destruct (nonempty executing); discriminate |].
  destruct (Z.eqb_spec code 200) as [-> | Hne].
  2: { unfold get_queue_status. destruct (Z.eqb_spec code 200); [contradiction |].
       cbn. destruct (nonempty executing); discriminate. }
  destruct (queue_status_facts (prompt_id c) q)
    as (info & Hget & _ & _ & Hrun & Hpos & _).
  rewrite Hget.
  destruct (is_in_queue info) eqn:Ein; [intros _ | destruct (nonempty _); discriminate].
  destruct (queue_running info) eqn:Er.
  - rewrite (Hrun eq_refl). cbn [Z.ltb Z.compare].
    destruct (running_report _ _ _ _ _) as [st2 rs]. eauto.
  - destruct (Hpos eq_refl eq_refl) as (pos & -> & Hp).
    destruct (Z.ltb_spec 0 pos); [eauto | lia].
Qed.

Lemma no_signal_step (p : poll) is_complete hd err :
  check_workflow_status (history p) = (is_complete, hd, err) ->
  shows_terminal_output p = false -> shows_completed p = false ->
  shows_top_level_error p = false ->
  is_complete = false /\ bool_decide ("30" ∈ dom (outputs_of hd)) = false.
Proof.
  intros E H1 H2 H3. split.
  - destruct is_complete; [| reflexivity].
    apply check_workflow_status_complete in E as [H | [H | H]]; congruence.
  - apply bool_decide_eq_false. intros Hin.
    pose proof (outputs_show_terminal _ _ _ _ E Hin). congruence.
Qed.

(** X5. A queue request that raises ends the wait with an exception:
    in an iteration within the budget whose history shows no completion
    signal and that is due to query the queue, the exception raised by the
    GET of [get_queue_status] surfaces as an [UnboundLocalError] of that
    function, which the loop does not catch. *)
Theorem queue_failure_raises (c : call) (st : loop_state) (p : poll) :
  timed_out c p = false ->
  shows_terminal_output p = false -> shows_completed p = false ->
  shows_top_level_error p = false ->
  queried st p = true ->
  queue p = QueueGetRaises ->
  snd (step c st p) = Raise.
Proof.
  intros Ht H1 H2 H3 Hq Hraise. unfold step. fold (timed_out c p). rewrite Ht.
  destruct (check_workflow_status (history p)) as [[is_complete hd] err] eqn:E.
  destruct (no_signal_step _ _ _ _ E H1 H2 H3) as [-> H30].
  cbv zeta. rewrite H30.
  destruct (progress_summary c st p (outputs_of hd)) as [st1 rs1] eqn:E1.
  apply progress_summary_spec in E1 as [(_ & Hl & Hf & _) _].
  unfold queue_check. unfold queried in Hq. rewrite Hl, Hf, Hq, Hraise.
  reflexivity.
Qed.

Lemma queue_failure_raises_witness :
  snd (step demo_call initial_state broken_queue_poll) = Raise.
Proof.
  apply (queue_failure_raises demo_call initial_state broken_queue_poll);
    vm_compute; reflexivity.
Defined.


(** *** A reported error and the queue *)

Lemma get_queue_status_none (prompt_id : string) (reply : queue_reply) :
  get_queue_status prompt_id reply = None -> reply = QueueGetRaises.
Proof.
  destruct reply as [| | code q]; [reflexivity | discriminate |].
  unfold get_queue_status. destruct (code =? 200); discriminate.
Qed.

Lemma queue_check_raise_inv (c : call) (st : loop_state) (p : poll) (elapsed : Q)
    (outputs : gmap string json) (executing : list string) :
  queue_check c st p elapsed outputs executing = QueueRaise ->
  queried st p = true /\ queue p = QueueGetRaises.
Proof.
  unfold queue_check. fold (queried st p).
  destruct (queried st p); [| discriminate].
  destruct (get_queue_status (prompt_id c) (queue p)) as [info |] eqn:G.
  - intros H. exfalso. split_cases H; discriminate.
  - intros _. split; [reflexivity |]. eapply get_queue_status_none, G.
Qed.

Lemma queue_check_continue_inv (c : call) (st : loop_state) (p : poll) (elapsed : Q)
    (outputs : gmap string json) (executing : list string) st' rs :
  queue_check c st p elapsed outputs executing = QueueContinue st' rs ->
  standing c st p executing = Found.
Proof.
  unfold queue_check, standing. fold (queried st p).
  destruct (queried st p); [| discriminate].
  destruct (get_queue_status (prompt_id c) (queue p)) as [info |]; [| discriminate].
  destruct (is_in_queue info); [reflexivity |].
  intros H. split_cases H; discriminate.
Qed.

Lemma error_text (x : string) :
  Py.truthy_str ("Error: " +:+ x) && Py.contains ("Error: " +:+ x) "Error:" = true.
Proof. reflexivity. Qed.

(** The interval after an iteration that goes on: the one it came with
    when the job was found in the queue, and else that one multiplied by 1.05
    and capped at 8; the iteration sleeps the new interval. *)
Lemma wan_interval_law (c : call) (st st' : loop_state) (p : poll) rs slept :
  step c st p = (rs, Continue st' slept) ->
  slept = check_interval st' /\
  check_interval st' =
    if queue_poll_eqb (classify c st p) Found then check_interval st
    else Py.min 8 (check_interval st * (105 # 100)).
Proof.
  unfold step. intros H.
  destruct (Py.gt _ _); [discriminate H |].
  destruct (check_workflow_status (history p)) as [[is_complete hd] err] eqn:Ecws.
  destruct is_complete; [discriminate H |]. cbv zeta in H.
  destruct (bool_decide ("30" ∈ dom (outputs_of hd))); [discriminate H |].
  assert (Hcl : classify c st p = standing c st p (executing_of hd)).
  { unfold classify, standing. rewrite Ecws. reflexivity. }
  destruct (progress_summary c st p (outputs_of hd)) as [st1 rs1] eqn:E1.
  apply progress_summary_spec in E1 as [Hs1 _].
  pose proof (queue_check_spec c st1 p (t_loop p - start_time c)
                (outputs_of hd) (executing_of hd)) as Hq.
  rewrite Hcl, <- (standing_same c st st1 p _ Hs1).
  destruct (queue_check c st1 p (t_loop p - start_time c) (outputs_of hd)
              (executing_of hd)) as [| st2 rs2 | st2 rs2] eqn:Eq.
  - discriminate H.
  - injection H as <- <- <-.
    rewrite (queue_check_continue_inv _ _ _ _ _ _ _ _ Eq). cbn [queue_poll_eqb].
    destruct Hq as (_ & Hci & _). destruct Hs1 as (Hc1 & _).
    split; [reflexivity | congruence].
  - assert (Hnf : queue_poll_eqb (standing c st1 p (executing_of hd)) Found = false).
    { destruct (standing c st1 p (executing_of hd)) eqn:Est; try reflexivity.
      destruct (found_continues c st1 p (t_loop p - start_time c)
                  (outputs_of hd) _ Est) as (sx & rx & Hx). congruence. }
    rewrite Hnf. destruct Hq as (_ & Hci & _).
    match type of H with
    | context [match ?f with Some _ => _ | None => _ end] => destruct f as [m |]
    end; [discriminate H |].
    destruct (negb (bool_decide (outputs_of hd = ∅)) && _); [discriminate H |].
    set (st3 := if bool_decide (outputs_of hd = ∅) then st2
                else set_known_executed st2 (digit_nodes (outputs_of hd))) in H.
    assert (Hs3 : check_interval st3 = check_interval st2).
    { subst st3. destruct (bool_decide (outputs_of hd = ∅)); reflexivity. }
    destruct (executing_report c p (t_loop p - start_time c) (executing_of hd) 0 st3)
      as [st4 rs4] eqn:E4.
    apply executing_report_spec in E4 as [(Hc4 & _) _].
    destruct (idle_report c st4 p (t_loop p - start_time c)) as [st5 rs5] eqn:E5.
    apply idle_report_spec in E5 as [(Hc5 & _) _].
    injection H as <- <- <-. cbn [set_check_interval check_interval].
    destruct Hs1 as (Hc1 & _). split; [reflexivity |].
    rewrite Hc5, Hc4, Hs3, Hci, Hc1. reflexivity.
Qed.

Lemma wan_sleeps_cadence (c : call) (polls : list poll) :
  forall st, cadence (105 # 100) 8 (check_interval st) (sleeps c st polls).
Proof.
  induction polls as [| p rest IH]; intros st; cbn [sleeps]; [exact I |].
  destruct (step c st p) as [rs r] eqn:E. cbn [snd].
  destruct r as [b | | st1 slept]; cbn iota; try exact I.
  destruct (wan_interval_law _ _ _ _ _ _ E) as [-> Hlaw].
  cbn [cadence]. split; [| apply IH].
  rewrite Hlaw. destruct (queue_poll_eqb _ _); auto.
Qed.

(** X6. An error status is acted on only once the queue no longer lists
    the job. When the history entry of the job says "error" (and neither
    completed nor node 30), an iteration that finds the job in the queue
    tells the callback of progress only, neither logging the failure nor
    passing on the error, sleeps the interval it came with and polls again;
    any other iteration logs the failure, passes "Error: <text>" to the
    callback and returns [False], unless the queue request itself raises. *)
Theorem reported_error_waits_for_queue (c : call) (st : loop_state) (p : poll)
    (h : history_t) (e : prompt_entry) (s : status_field) :
  timed_out c p = false ->
  history p = HistoryResponse 200 h ->
  entry h = Some e -> entry_status e = Some s ->
  completed_true s = false -> status_is_error s = true ->
  "30" ∉ dom (outputs_of (Some h)) ->
  let m := "Error: " +:+ default "Unknown error" (status_error s) in
  match classify c st p with
  | Found =>
      exists st' rs,
        step c st p = (rs, Continue st' (check_interval st)) /\
        check_interval st' = check_interval st /\
        Forall (fun r => is_progress r = true) rs
  | _ =>
      (queried st p = true /\ queue p = QueueGetRaises /\
       snd (step c st p) = Raise) \/
      (snd (step c st p) = Return false /\
       exists rs0,
         fst (step c st p) =
           rs0 ++ [Log (WorkflowFailed m)] ++ tell c (ErrorStatus m))
  end.
Proof.
  intros Ht Hh He Hs Hc Herr H30 m.
  assert (Ecws : check_workflow_status (history p) = (false, Some h, Some m)).
  { rewrite Hh. cbn [check_workflow_status Z.eqb Pos.eqb]. rewrite He, Hs, Hc, Herr.
    reflexivity. }
  assert (Hcl : classify c st p = standing c st p (executing_of (Some h))).
  { unfold classify, standing. rewrite Ecws. reflexivity. }
  unfold step. fold (timed_out c p). rewrite Ht, Ecws. cbv zeta.
  rewrite bool_decide_eq_false_2 by exact H30.
  destruct (progress_summary c st p (outputs_of (Some h))) as [st1 rs1] eqn:E1.
  pose proof (WanReportSpec.progress_summary_tells _ _ _ _ _ _ E1) as Hp1.
  apply progress_summary_spec in E1 as [Hs1 _].
  rewrite Hcl, <- (standing_same c st st1 p _ Hs1).
  assert (Hq : queried st1 p = queried st p).
  { destruct Hs1 as (_ & Hl & Hf & _). unfold queried. rewrite Hl, Hf. reflexivity. }
  pose proof (WanReportSpec.queue_check_tells c st1 p (t_loop p - start_time c)
                (outputs_of (Some h)) (executing_of (Some h))) as Hp2.
  pose proof (queue_check_spec c st1 p (t_loop p - start_time c)
                (outputs_of (Some h)) (executing_of (Some h))) as Hspec.
  destruct (queue_check c st1 p (t_loop p - start_time c) (outputs_of (Some h))
              (executing_of (Some h))) as [| st2 rs2 | st2 rs2] eqn:Eq.
  - destruct (queue_check_raise_inv _ _ _ _ _ _ Eq) as [Hq1 Hr].
    assert (Hst : standing c st1 p (executing_of (Some h)) = Skipped).
    { unfold standing. rewrite Hq1, Hr. reflexivity. }
    rewrite Hst. left. rewrite <- Hq. auto.
  - rewrite (queue_check_continue_inv _ _ _ _ _ _ _ _ Eq).
    destruct Hspec as (_ & Hci & _). destruct Hs1 as (Hc1 & _).
    assert (Hsame : check_interval st2 = check_interval st) by congruence.
    exists st2, (rs1 ++ rs2). rewrite Hsame. split; [reflexivity |].
    split; [reflexivity | apply Forall_app; split; assumption].
  - subst m. rewrite error_text. cbn [fst snd].
    assert (Hgoal :
      (queried st p = true /\ queue p = QueueGetRaises /\
       Return false = Raise) \/
      (Return false = Return false /\
       exists rs0,
         rs1 ++ rs2 ++
           [Log (WorkflowFailed ("Error: " +:+ default "Unknown error" (status_error s)))]
           ++ tell c (ErrorStatus ("Error: " +:+ default "Unknown error" (status_error s)))
         = rs0 ++
           [Log (WorkflowFailed ("Error: " +:+ default "Unknown error" (status_error s)))]
           ++ tell c (ErrorStatus ("Error: " +:+ default "Unknown error" (status_error s))))).
    { right. split; [reflexivity |]. exists (rs1 ++ rs2).
      rewrite <- app_assoc. reflexivity. }
    destruct (standing c st1 p (executing_of (Some h))) eqn:Est; try exact Hgoal.
    destruct (found_continues c st1 p (t_loop p - start_time c)
                (outputs_of (Some h)) _ Est) as (st' & rs' & Hc').
    congruence.
Qed.

(** The failed job of the samples: while it is listed as pending the
    iteration tells its place in the queue and sleeps five seconds; once the
    queue is empty the failure is logged and passed on. *)
Lemma reported_error_waits_for_queue_witness :
  (exists st' rs,
     step demo_call initial_state queued_failed_poll = (rs, Continue st' 5) /\
     check_interval st' = 5%Q /\
     Forall (fun r => is_progress r = true) rs) /\
  (snd (step demo_call initial_state failed_poll) = Return false /\
   exists rs0,
     fst (step demo_call initial_state failed_poll) =
       rs0 ++ [Log (WorkflowFailed "Error: out of memory");
               Status (ErrorStatus "Error: out of memory")]).
Proof.
  assert (H30 : "30" ∉ dom (outputs_of (Some failed_history))).
  { vm_compute. discriminate. }
  split.
  - pose proof (reported_error_waits_for_queue demo_call initial_state
                  queued_failed_poll failed_history _ _
                  eq_refl eq_refl eq_refl eq_refl eq_refl eq_refl H30) as H.
    cbv zeta in H.
    change (classify demo_call initial_state queued_failed_poll) with Found in H.
    exact H.
  - pose proof (reported_error_waits_for_queue demo_call initial_state failed_poll
                  failed_history _ _ eq_refl eq_refl eq_refl eq_refl eq_refl eq_refl
                  H30) as H.
    cbv zeta in H.
    change (classify demo_call initial_state failed_poll) with Quiet in H.
    destruct H as [(_ & Hr & _) | H]; [discriminate Hr | exact H].
Defined.

End WanTrackerFacts.

(** ** Facts about the HiDream tracker *)

Module HiDreamFacts.
Import HiDream.

Lemma status_complete_iff (prompt_id : string) (queue : queue_reply)
    (history : history_reply) :
  fst (fst (check_workflow_status prompt_id queue history)) =
  negb (fst (is_prompt_in_queue prompt_id queue)) && entry_done history.
Proof.
  unfold check_workflow_status, entry_done.
  destruct (is_prompt_in_queue prompt_id queue) as [[] text]; [reflexivity |].
  cbn [fst negb andb].
  destruct history as [| [prompt_data |]]; try reflexivity.
  destruct (entry_status prompt_data) as [st |]; [| reflexivity].
  destruct (completed st) as [[] |]; cbn [fst];
    [destruct (has_outputs prompt_data) | |];
    try destruct (match status_str st with Some _ => _ | None => _ end); reflexivity.
Qed.

Lemma hidream_step_true_iff (c : call) (check_interval : Q) (p : poll) :
  snd (step c check_interval p) = Return true <->
  timed_out c p = false /\ timeout_seconds c <> 0 /\
  shows_done (prompt_id c) p = true.
Proof.
  unfold step, shows_done. fold (timed_out c p).
  destruct (timed_out c p); [cbn; split; [discriminate | intros [? _]; discriminate] |].
  destruct (Z.eqb_spec (timeout_seconds c) 0) as [E0 | E0];
    [cbn; split; [discriminate | intros (_ & H & _); contradiction] |].
  destruct (is_prompt_in_queue (prompt_id c) (queue_first p)) as [[] text1];
    [cbn; split; [discriminate | intros (_ & _ & H); discriminate] |].
  cbn [fst negb andb].
  pose proof (status_complete_iff (prompt_id c) (queue_second p) (history p)) as Hs.
  destruct (check_workflow_status (prompt_id c) (queue_second p) (history p))
    as [[is_complete data] error_msg]. cbn [fst] in Hs. rewrite <- Hs.
  destruct is_complete; cbn [snd].
  - split; auto.
  - split; [| intros (_ & _ & H); discriminate].
    destruct (match error_msg with Some _ => _ | None => _ end); discriminate.
Qed.

Lemma hidream_modest_tell (c : call) (r : report) : modest r -> Forall modest (tell c r).
Proof. intros H. unfold tell. destruct (status_callback c); repeat constructor; exact H. Qed.

Lemma step_reports (c : call) (check_interval : Q) (p : poll) :
  exists rs0, Forall modest rs0 /\
    fst (step c check_interval p) =
      rs0 ++ match snd (step c check_interval p) with
             | Return true => tell c Complete ++ [LogCompleted]
             | _ => []
             end.
Proof.
  unfold step.
  destruct (Py.gt _ _).
  { exists [LogTimedOut]. split; [repeat constructor; intros q [=] | reflexivity]. }
  destruct (timeout_seconds c =? 0).
  { exists []. split; [constructor | reflexivity]. }
  set (pct := Z.min 95 _).
  assert (Hpct : pct <= 95) by (subst pct; lia).
  assert (Hrun : modest (Running pct)) by (intros q [= <-]; exact Hpct).
  assert (Hpro : forall text, modest (Progress pct text)) by (intros t q [= <-]; exact Hpct).
  destruct (is_prompt_in_queue (prompt_id c) (queue_first p)) as [[] text1].
  { exists (tell c (Running pct)).
    split; [apply hidream_modest_tell, Hrun | symmetry; apply app_nil_r]. }
  destruct (check_workflow_status (prompt_id c) (queue_second p) (history p))
    as [[[] data] error_msg].
  { exists []. split; [constructor | reflexivity]. }
  set (told := match error_msg with
               | Some m => if Py.truthy_str m then tell c (Progress pct m)
                           else tell c (Progress pct "Processing")
               | None => tell c (Progress pct "Processing")
               end).
  assert (Htold : Forall modest told).
  { subst told. destruct error_msg as [m |]; [destruct (Py.truthy_str m) |];
      apply hidream_modest_tell, Hpro. }
  clearbody told.
  destruct error_msg as [m |];
    [destruct (Py.truthy_str m && Py.contains m "Error:") |].
  - exists (told ++ [LogFailed m]). split; [| symmetry; apply app_nil_r].
    apply Forall_app. split; [exact Htold | repeat constructor; intros q [=]].
  - exists told. split; [exact Htold | symmetry; apply app_nil_r].
  - exists told. split; [exact Htold | symmetry; apply app_nil_r].
Qed.

Lemma hidream_run_true_poll (c : call) (polls : list poll) :
  forall check_interval rs,
    run c check_interval polls = (rs, Returned true) ->
    exists pre p post rs0,
      polls = pre ++ p :: post /\ shows_done (prompt_id c) p = true /\
      Forall (fun q => timed_out c q = false) (pre ++ [p]) /\
      rs = rs0 ++ tell c Complete ++ [LogCompleted] /\ Forall modest rs0.
Proof.
  induction polls as [| p rest IH]; intros ci rs H; cbn [run] in H; [discriminate |].
  pose proof (hidream_step_true_iff c ci p) as Hiff.
  pose proof (step_reports c ci p) as (rs0 & Hm & Hrs).
  destruct (step c ci p) as [rs1 r1] eqn:E. cbn [fst snd] in *.
  destruct r1 as [[] | | ci1 slept]; try discriminate.
  - injection H as <-. destruct (proj1 Hiff eq_refl) as (Ht & _ & Hd).
    exists [], p, rest, rs0. repeat split; try assumption.
    repeat constructor. exact Ht.
  - destruct (run c ci1 rest) as [rs2 r2] eqn:E2. injection H as <- ->.
    destruct (IH _ _ E2) as (pre & q & post & rs3 & -> & Hd & Ht & -> & Hm3).
    exists (p :: pre), q, post, (rs1 ++ rs3). split; [reflexivity |].
    split; [exact Hd |]. split; [| split].
    + cbn [app]. constructor; [| exact Ht].
      destruct (timed_out c p) eqn:Et; [| reflexivity].
      unfold step in E. fold (timed_out c p) in E. rewrite Et in E. discriminate.
    + apply app_assoc.
    + apply Forall_app. split; [| exact Hm3]. rewrite Hrs, app_nil_r. exact Hm.
Qed.

(** X7. The HiDream tracker returns [True] from an iteration exactly when
    the budget is neither spent nor zero, neither of the two queue replies of
    the iteration lists the job, and the history entry of the job says
    completed and has outputs. A [True] return therefore comes from a poll
    that shows all of this, read within the budget like all polls before it;
    the reports end with "100% - Complete" and the completion log line, and
    every percentage told before is at most 95. *)
Theorem done_exactly_when_shown :
  (forall c check_interval p,
     snd (step c check_interval p) = Return true <->
     timed_out c p = false /\ timeout_seconds c <> 0 /\
     shows_done (prompt_id c) p = true) /\
  (forall c polls rs,
     wait_for_workflow_completion c polls = (rs, Returned true) ->
     exists pre p post rs0,
       polls = pre ++ p :: post /\ shows_done (prompt_id c) p = true /\
       Forall (fun q => timed_out c q = false) (pre ++ [p]) /\
       rs = rs0 ++ tell c Complete ++ [LogCompleted] /\
       forall r pct, In r rs0 -> percentage r = Some pct -> pct <= 95).
Proof.
  split; [exact hidream_step_true_iff |].
  intros c polls rs H.
  destruct (hidream_run_true_poll c polls 2 rs H) as (pre & p & post & rs0 & H1 & H2 & H3 & H4 & H5).
  exists pre, p, post, rs0. repeat split; try assumption.
  intros r pct Hin. rewrite Forall_forall in H5. apply H5, list_elem_of_In, Hin.
Qed.

Lemma done_exactly_when_shown_witness :
  exists pre p post rs0,
    finishing_polls = pre ++ p :: post /\ shows_done "p" p = true /\
    Forall (fun q => timed_out short_call q = false) (pre ++ [p]) /\
    fst (wait_for_workflow_completion short_call finishing_polls) =
      rs0 ++ tell short_call Complete ++ [LogCompleted] /\
    forall r pct, In r rs0 -> percentage r = Some pct -> pct <= 95.
Proof.
  apply (proj2 done_exactly_when_shown short_call finishing_polls).
  vm_compute. reflexivity.
Defined.

Lemma hidream_interval_step (c : call) (ci ci' : Q) (p : poll) rs slept :
  step c ci p = (rs, Continue ci' slept) ->
  (2 <= ci <= 10)%Q ->
  slept = ci' /\ (ci <= ci' <= 10)%Q.
Proof.
  unfold step. intros H Hci.
  assert (Hmin : (ci <= Py.min 10 (ci * (12 # 10)) <= 10)%Q).
  { unfold Py.min. destruct (Qlt_le_dec _ _); lra. }
  split_cases H; try discriminate; injection H as <- <- <-;
    (split; [reflexivity |]); solve [lra | exact Hmin].
Qed.

Lemma hidream_sleeps_bounds (c : call) (polls : list poll) :
  forall ci, (2 <= ci <= 10)%Q ->
  Forall (fun s => (ci <= s <= 10)%Q) (sleeps c ci polls) /\
  ascending (sleeps c ci polls).
Proof.
  induction polls as [| p rest IH]; intros ci Hci; cbn [sleeps].
  - split; [constructor | apply WanTrackerFacts.ascending_nil].
  - destruct (step c ci p) as [rs r] eqn:E. cbn [snd].
    destruct r as [b | | ci1 slept]; cbn iota;
      try (split; [constructor | apply WanTrackerFacts.ascending_nil]).
    destruct (hidream_interval_step _ _ _ _ _ _ E Hci) as [-> H1].
    destruct (IH ci1 ltac:(lra)) as [Hall Hasc]. split.
    + constructor; [lra |].
      eapply Forall_impl; [exact Hall |]. cbn. intros s Hs. lra.
    + intros [| i] x y Hx Hy; cbn in Hx, Hy.
      * injection Hx as <-. destruct (sleeps c ci1 rest) as [| s l]; [discriminate |].
        injection Hy as <-. apply Forall_cons in Hall as [Hs _]. lra.
      * eapply Hasc; eassumption.
Qed.

(** The interval after an iteration that goes on: the one it came with
    when the first queue reply lists the job, and else that one multiplied by
    1.2 and capped at 10; the iteration sleeps the new interval. *)
Lemma hidream_interval_law (c : call) (ci ci' : Q) (p : poll) rs slept :
  step c ci p = (rs, Continue ci' slept) ->
  slept = ci' /\
  ci' = if fst (is_prompt_in_queue (prompt_id c) (queue_first p)) then ci
        else Py.min 10 (ci * (12 # 10)).
Proof.
  unfold step. intros H.
  destruct (Py.gt _ _); [discriminate H |].
  destruct (timeout_seconds c =? 0); [discriminate H |]. cbv zeta in H.
  destruct (is_prompt_in_queue (prompt_id c) (queue_first p)) as [[] text1];
    cbn [fst].
  - injection H as <- <- <-. auto.
  - split_cases H; try discriminate H; injection H as <- <- <-; auto.
Qed.

Lemma hidream_sleeps_cadence (c : call) (polls : list poll) :
  forall ci, cadence (12 # 10) 10 ci (sleeps c ci polls).
Proof.
  induction polls as [| p rest IH]; intros ci; cbn [sleeps]; [exact I |].
  destruct (step c ci p) as [rs r] eqn:E. cbn [snd].
  destruct r as [b | | ci1 slept]; cbn iota; try exact I.
  destruct (hidream_interval_law _ _ _ _ _ _ E) as [-> Hlaw].
  cbn [cadence]. split; [| apply IH].
  rewrite Hlaw. destruct (fst _); auto.
Qed.

End HiDreamFacts.

(** ** The polling cadence of both trackers *)

Module CadenceFacts.

(** X3. The polling cadence of both trackers. An iteration of the Wan
    tracker that goes on sleeps the interval it leaves behind: the interval it
    came with when it found the job in the queue, and else that interval
    multiplied by 1.05 and capped at 8. In the HiDream tracker the interval
    is kept when the first queue reply of the iteration lists the job, and
    else multiplied by 1.2 and capped at 10. So in every run the sleeps form
    such a cadence from 5 and from 2 seconds, lie between 5 and 8 and between
    2 and 10 seconds, and none is shorter than the one before it. The
    products are those of exact arithmetic. *)
Theorem sleeps_grow_to_cap :
  (forall (c : Wan.call) st p rs st' slept,
     Wan.step c st p = (rs, Wan.Continue st' slept) ->
     slept = Wan.check_interval st' /\
     Wan.check_interval st' =
       if Wan.queue_poll_eqb (Wan.classify c st p) Wan.Found
       then Wan.check_interval st
       else Py.min 8 (Wan.check_interval st * (105 # 100))) /\
  (forall (c : Wan.call) (polls : list Wan.poll),
     cadence (105 # 100) 8 5 (Wan.sleeps c Wan.initial_state polls) /\
     Forall (fun s => (5 <= s <= 8)%Q) (Wan.sleeps c Wan.initial_state polls) /\
     ascending (Wan.sleeps c Wan.initial_state polls)) /\
  (forall (c : HiDream.call) ci p rs ci' slept,
     HiDream.step c ci p = (rs, HiDream.Continue ci' slept) ->
     slept = ci' /\
     ci' = if fst (HiDream.is_prompt_in_queue (HiDream.prompt_id c)
                     (HiDream.queue_first p))
           then ci else Py.min 10 (ci * (12 # 10))) /\
  (forall (c : HiDream.call) (polls : list HiDream.poll),
     cadence (12 # 10) 10 2 (HiDream.sleeps c 2 polls) /\
     Forall (fun s => (2 <= s <= 10)%Q) (HiDream.sleeps c 2 polls) /\
     ascending (HiDream.sleeps c 2 polls)).
Proof.
  split; [intros c st p rs st' slept; apply WanTrackerFacts.wan_interval_law |]. split.
  { intros c polls.
    split; [apply (WanTrackerFacts.wan_sleeps_cadence c polls Wan.initial_state) |].
    apply (WanTrackerFacts.wan_sleeps_bounds c polls Wan.initial_state). cbn. lra. }
  split; [intros c ci p rs ci' slept; apply HiDreamFacts.hidream_interval_law |].
  intros c polls. split; [apply HiDreamFacts.hidream_sleeps_cadence |].
  apply (HiDreamFacts.hidream_sleeps_bounds c polls 2). lra.
Qed.

(** A Wan iteration that finds the job pending sleeps the 5 seconds it
    came with, one that does not find it sleeps 5.25; a HiDream iteration
    that finds the job running sleeps the 2 seconds it came with. *)
Lemma sleeps_grow_to_cap_witness :
  (exists rs st',
     Wan.step Wan.demo_call Wan.initial_state Wan.queued_failed_poll
       = (rs, Wan.Continue st' (Wan.check_interval st')) /\
     Wan.check_interval st' = 5%Q) /\
  (exists rs st',
     Wan.step Wan.demo_call Wan.initial_state (Wan.quiet_poll 1010)
       = (rs, Wan.Continue st' (Wan.check_interval st')) /\
     Wan.check_interval st' = Py.min 8 (5 * (105 # 100))) /\
  (exists rs ci',
     HiDream.step HiDream.short_call 2 (HiDream.busy_poll 1003)
       = (rs, HiDream.Continue ci' ci') /\ ci' = 2%Q).
Proof.
  split; [| split].
  - eassert (E : Wan.step Wan.demo_call Wan.initial_state Wan.queued_failed_poll
                 = (_, Wan.Continue _ _)) by (vm_compute; reflexivity).
    destruct (proj1 sleeps_grow_to_cap _ _ _ _ _ _ E) as [Hs Hl].
    eexists _, _. split; [| exact Hl].
    etransitivity; [exact E | reflexivity].
  - eassert (E : Wan.step Wan.demo_call Wan.initial_state (Wan.quiet_poll 1010)
                 = (_, Wan.Continue _ _)) by (vm_compute; reflexivity).
    destruct (proj1 sleeps_grow_to_cap _ _ _ _ _ _ E) as [Hs Hl].
    eexists _, _. split; [| exact Hl].
    etransitivity; [exact E | reflexivity].
  - eassert (E : HiDream.step HiDream.short_call 2 (HiDream.busy_poll 1003)
                 = (_, HiDream.Continue _ _)) by (vm_compute; reflexivity).
    destruct (proj1 (proj2 (proj2 sleeps_grow_to_cap)) _ _ _ _ _ _ E) as [Hs Hl].
    eexists _, _. split; [| exact Hl].
    etransitivity; [exact E | reflexivity].
Defined.

End CadenceFacts.

(** ** Further facts about submission and download *)

Module WanTransferFacts.
Import Wan.

(** X8. Every submission, whatever the server answers: between one and
    three POSTs, each preceded by its wait of 1, 2, 4 seconds and nothing
    else, so at most 7 seconds of sleep; every attempt but the last met a
    network error or a status other than 200; the call stops before the third
    attempt only on a 200 or on an exception that is not a network error; and
    the job id returned is the "prompt_id" of the last reply when that is a
    200, otherwise nothing. *)
Theorem queue_workflow_outcomes (post : nat -> post_reply) :
  exists n,
    (1 <= n <= 3)%nat /\
    snd (queue_workflow false post) = backoff_trace n /\
    (forall j, (j < n - 1)%nat -> transient (post j) = true) /\
    ((n < 3)%nat -> transient (post (n - 1)%nat) = false) /\
    fst (queue_workflow false post) = accepted (post (n - 1)%nat) /\
    (slept_in (snd (queue_workflow false post)) <= 7)%Q.
Proof.
  unfold queue_workflow. cbn [seq retry_loop].
  assert (Hlt1 : forall j, (j < 1 - 1)%nat -> transient (post j) = true)
    by (intros j Hj; lia).
  destruct (post 0%nat) as [| | c0 p0] eqn:E0.
  2: { exists 1%nat. cbn [Nat.sub]. rewrite E0.
       repeat split; try lia; try reflexivity; auto.
       vm_compute. discriminate. }
  all: destruct (post 1%nat) as [| | c1 p1] eqn:E1.
  all: destruct (post 2%nat) as [| | c2 p2] eqn:E2.
  all: try destruct (c0 =? 200) eqn:C0.
  all: try destruct (c1 =? 200) eqn:C1.
  all: try destruct (c2 =? 200) eqn:C2.
  all: cbn [Nat.ltb Nat.leb Nat.sub fst snd].
  all: first
    [ solve [ exists 1%nat; cbn [Nat.sub]; rewrite ?E0; cbn [transient accepted];
              rewrite ?C0; repeat split; try lia; try reflexivity;
              try (intros j Hj; lia); vm_compute; discriminate ]
    | solve [ exists 2%nat; cbn [Nat.sub]; rewrite ?E1; cbn [transient accepted];
              rewrite ?C1; repeat split; try lia; try reflexivity;
              try (intros [| j] Hj; [rewrite E0; cbn [transient]; rewrite ?C0;
                                     reflexivity | lia]);
              vm_compute; discriminate ]
    | solve [ exists 3%nat; cbn [Nat.sub]; rewrite ?E2; cbn [transient accepted];
              rewrite ?C2; repeat split; try lia; try reflexivity;
              try (intros [| [| j]] Hj;
                     [rewrite E0; cbn [transient]; rewrite ?C0; reflexivity
                     | rewrite E1; cbn [transient]; rewrite ?C1; reflexivity
                     | lia]);
              vm_compute; discriminate ] ].
Qed.

Lemma queue_workflow_outcomes_witness :
  exists n,
    (1 <= n <= 3)%nat /\
    snd (queue_workflow false crashing_post) = backoff_trace n /\
    fst (queue_workflow false crashing_post) = accepted (crashing_post (n - 1)%nat) /\
    transient (crashing_post (n - 1)%nat) = false.
Proof.
  destruct (queue_workflow_outcomes crashing_post)
    as (n & Hn & Htr & _ & Hstop & Hres & _).
  exists n. split; [exact Hn |]. split; [exact Htr |]. split; [exact Hres |].
  destruct n as [| [| [| n]]]; [lia | reflexivity | reflexivity |].
  destruct n; [discriminate Htr | lia].
Defined.

Section Download.

Variable urlencode : list (string * param) -> string.

Lemma append_snoc (a : string) (c : ascii) (r : string) :
  (a +:+ String c EmptyString) +:+ r = a +:+ String c r.
Proof.
  induction a as [| x a IH]; [reflexivity |].
  change (String x ((a +:+ String c EmptyString) +:+ r) = String x (a +:+ String c r)).
  f_equal. exact IH.
Qed.

(** A directory above a path is a prefix of it that ends before a
    separator. *)
Lemma parents_from_above (rest : string) :
  forall before a, a ∈ parents_from before rest ->
  exists r, before +:+ rest = a +:+ "/" +:+ r.
Proof.
  induction rest as [| c rest IH]; intros before a Ha; cbn [parents_from] in Ha.
  - apply elem_of_nil in Ha. destruct Ha.
  - apply elem_of_app in Ha as [Ha | Ha].
    + destruct (Ascii.eqb_spec c "/") as [-> | _]; cbn [andb] in Ha;
        [| apply elem_of_nil in Ha; destruct Ha].
      destruct (Py.truthy_str before && negb (Py.endswith before "/"));
        [| apply elem_of_nil in Ha; destruct Ha].
      apply list_elem_of_singleton in Ha as ->. exists rest. reflexivity.
    + destruct (IH _ _ Ha) as (r & Hr). exists r. rewrite <- Hr.
      symmetry. apply append_snoc.
Qed.

Lemma parents_above (path a : string) :
  a ∈ parents path -> exists r, path = a +:+ "/" +:+ r.
Proof. intros Ha. apply (parents_from_above path "" a Ha). Qed.

Lemma add_dirs_frame (names : list string) (d : disk) :
  files (add_dirs names d) = files d /\
  dirs d ⊆ dirs (add_dirs names d) /\
  forall x, x ∈ dirs (add_dirs names d) -> x ∈ dirs d \/ x ∈ names.
Proof.
  unfold add_dirs. cbn [files dirs]. split; [reflexivity |].
  split; [apply union_subseteq_r |].
  intros x Hx. apply elem_of_union in Hx as [Hx | Hx]; [right | left; exact Hx].
  apply elem_of_list_to_set in Hx. exact Hx.
Qed.

(** [os.makedirs] leaves the files alone, removes no directory and adds
    only its target and directories above it. *)
Lemma makedirs_frame (flt : faults) (path : string) (d : disk) :
  let d1 := snd (makedirs flt path d) in
  files d1 = files d /\ dirs d ⊆ dirs d1 /\
  forall x, x ∈ dirs d1 -> x ∈ dirs d \/ x = path \/ x ∈ parents path.
Proof.
  unfold makedirs. destruct (makedirs_raises flt); cbn [snd].
  - destruct (add_dirs_frame (take (makedirs_made flt) (parents path)) d)
      as (Hf & Hsub & Hnew).
    split; [exact Hf |]. split; [exact Hsub |]. intros x Hx.
    destruct (Hnew x Hx) as [H | H]; [auto |].
    right. right. eapply subseteq_take, H.
  - destruct (Py.truthy_str path); cbn [snd].
    + destruct (add_dirs_frame (parents path ++ [path]) d) as (Hf & Hsub & Hnew).
      split; [exact Hf |]. split; [exact Hsub |]. intros x Hx.
      destruct (Hnew x Hx) as [H | H]; [auto |].
      apply elem_of_app in H as [H | H]; [auto |].
      apply list_elem_of_singleton in H. auto.
    + split; [reflexivity |]. split; [reflexivity |]. auto.
Qed.

Lemma makedirs_done (flt : faults) (path : string) (d d1 : disk) :
  makedirs flt path d = (true, d1) ->
  makedirs_raises flt = false /\ Py.truthy_str path = true /\
  path ∈ dirs d1 /\ (forall x, x ∈ parents path -> x ∈ dirs d1) /\
  files d1 = files d.
Proof.
  unfold makedirs. destruct (makedirs_raises flt); [discriminate |].
  destruct (Py.truthy_str path); [| discriminate]. intros [= <-].
  unfold add_dirs. cbn [dirs files]. repeat split.
  - apply elem_of_union_l, elem_of_list_to_set, elem_of_app. right.
    apply list_elem_of_singleton. reflexivity.
  - intros x Hx. apply elem_of_union_l, elem_of_list_to_set, elem_of_app. auto.
Qed.

Lemma store_frame (flt : faults) (output_dir filename : string)
    (chunks : list (list Byte.byte)) (complete : bool) (d : disk) :
  let d' := snd (store flt output_dir filename chunks complete d) in
  (forall other, other <> path_join output_dir filename ->
                 files d' !! other = files d !! other) /\
  dirs d ⊆ dirs d' /\
  forall x, x ∈ dirs d' -> x ∈ dirs d \/ x = output_dir \/ x ∈ parents output_dir.
Proof.
  pose proof (makedirs_frame flt output_dir d) as Hm. cbv zeta in Hm.
  unfold store, save_stream.
  destruct (makedirs flt output_dir d) as [[] d1]; cbn [snd] in *;
    destruct Hm as (Hf & Hsub & Hnew).
  - destruct (open_raises flt); cbn [snd dirs files].
    + split; [intros other _; rewrite Hf; reflexivity | auto].
    + split; [| auto]. intros other Hne. rewrite Hf.
      apply lookup_insert_ne. congruence.
  - split; [intros other _; rewrite Hf; reflexivity | auto].
Qed.

Lemma store_some (flt : faults) (output_dir filename : string)
    (chunks : list (list Byte.byte)) (complete : bool) (d : disk) (p : string) :
  fst (store flt output_dir filename chunks complete d) = Some p ->
  p = path_join output_dir filename /\
  attempt_ok flt output_dir (GetResponse 200 chunks complete) = true /\
  output_dir ∈ dirs (snd (store flt output_dir filename chunks complete d)) /\
  files (snd (store flt output_dir filename chunks complete d)) !! p =
    Some (concat (List.filter nonempty chunks)).
Proof.
  unfold store, save_stream. cbn [attempt_ok Z.eqb Pos.eqb].
  destruct (makedirs flt output_dir d) as [[] d1] eqn:Em; [| discriminate].
  apply makedirs_done in Em as (-> & -> & Hdir & _ & _).
  destruct (open_raises flt); [discriminate |].
  destruct complete; [| discriminate]. cbn [fst snd dirs files].
  intros [= <-]. split; [reflexivity |]. split; [reflexivity |].
  split; [exact Hdir | apply lookup_insert_eq].
Qed.

Lemma store_parents (flt : faults) (output_dir filename : string)
    (chunks : list (list Byte.byte)) (complete : bool) (d : disk) (p : string) :
  fst (store flt output_dir filename chunks complete d) = Some p ->
  forall x, x ∈ parents output_dir ->
            x ∈ dirs (snd (store flt output_dir filename chunks complete d)).
Proof.
  unfold store, save_stream.
  destruct (makedirs flt output_dir d) as [[] d1] eqn:Em; [| discriminate].
  apply makedirs_done in Em as (_ & _ & _ & Hpar & _).
  destruct (open_raises flt); [discriminate |]. cbn [fst snd dirs]. intros _. exact Hpar.
Qed.

(** X9. A download touches nothing but its target: whatever the replies
    and whatever the system refuses, every file other than
    [output_dir/filename] is as before, no directory disappears, and a
    directory that was not there before is [output_dir] or a directory above
    it, a prefix of [output_dir] that ends before a separator; when a path is
    returned all the directories above [output_dir] exist; and when neither
    the session GET nor the direct GET answers 200 the disk is left exactly
    as it was. *)
Theorem download_file_touches_target_only
    (self : client) (filename output_dir subfolder : string)
    (format_type : option string) (frame_rate : option Q)
    (primary fallback : get_reply) (flt : faults) (d : disk) :
  let result := download_file urlencode self filename output_dir subfolder
                  format_type frame_rate primary fallback flt d in
  let d' := snd result in
  (forall other, other <> path_join output_dir filename ->
                 files d' !! other = files d !! other) /\
  dirs d ⊆ dirs d' /\
  (forall x, x ∈ dirs d' ->
     x ∈ dirs d \/ x = output_dir \/ exists rest, output_dir = x +:+ "/" +:+ rest) /\
  (forall p, fst (fst result) = Some p ->
     forall x, x ∈ parents output_dir -> x ∈ dirs d') /\
  (reply_status primary <> Some 200 -> reply_status fallback <> Some 200 -> d' = d).
Proof.
  assert (Hst : forall chunks complete,
    let s := store flt output_dir filename chunks complete d in
    (forall other, other <> path_join output_dir filename ->
                   files (snd s) !! other = files d !! other) /\
    dirs d ⊆ dirs (snd s) /\
    (forall x, x ∈ dirs (snd s) ->
       x ∈ dirs d \/ x = output_dir \/ exists rest, output_dir = x +:+ "/" +:+ rest) /\
    (forall p, fst s = Some p -> forall x, x ∈ parents output_dir -> x ∈ dirs (snd s))).
  { intros chunks complete s.
    destruct (store_frame flt output_dir filename chunks complete d) as (Hf & Hsub & Hnew).
    split; [exact Hf |]. split; [exact Hsub |]. split.
    - intros x Hx. destruct (Hnew x Hx) as [H | [H | H]]; [auto | auto |].
      right. right. apply parents_above, H.
    - intros p Hp. eapply store_parents, Hp. }
  assert (Hsame :
    (forall other, other <> path_join output_dir filename ->
                   files d !! other = files d !! other) /\
    dirs d ⊆ dirs d /\
    (forall x, x ∈ dirs d ->
       x ∈ dirs d \/ x = output_dir \/ exists rest, output_dir = x +:+ "/" +:+ rest) /\
    (forall p, @None string = Some p ->
       forall x, x ∈ parents output_dir -> x ∈ dirs d)).
  { split; [reflexivity |]. split; [reflexivity |]. split; [auto | discriminate]. }
  cbv zeta in Hst. cbv zeta. unfold download_file.
  destruct primary as [| code chunks complete]; cbn [fst snd reply_status].
  { destruct Hsame as (Ha & Hb & Hc & Hd). repeat split; auto. }
  destruct (Z.eqb_spec code 200) as [-> | Hne].
  { specialize (Hst chunks complete).
    destruct (store flt output_dir filename chunks complete d) as [r d1].
    cbn [fst snd] in *. destruct Hst as (Ha & Hb & Hc & Hd). repeat split; auto.
    intros Hx. contradiction Hx. reflexivity. }
  destruct complete; cbn [negb fst snd].
  2: { destruct Hsame as (Ha & Hb & Hc & Hd). repeat split; auto. }
  destruct fallback as [| code2 chunks2 complete2]; cbn [fst snd reply_status].
  { destruct Hsame as (Ha & Hb & Hc & Hd). repeat split; auto. }
  destruct (Z.eqb_spec code2 200) as [-> | Hne2].
  { specialize (Hst chunks2 complete2).
    destruct (store flt output_dir filename chunks2 complete2 d) as [r d1].
    cbn [fst snd] in *. destruct Hst as (Ha & Hb & Hc & Hd). repeat split; auto.
    intros _ Hx. contradiction Hx. reflexivity. }
  cbn [fst snd]. destruct Hsame as (Ha & Hb & Hc & Hd). repeat split; auto.
Qed.

(** X10. A path is returned only for a file that was written in full:
    when [download_file] returns a path, it is [output_dir/filename], the
    directory exists, and the file holds the complete body of a 200 reply,
    either of the session GET or, after a session GET that answered another
    status, of the one direct GET. *)
Theorem download_file_returns_written_path
    (self : client) (filename output_dir subfolder : string)
    (format_type : option string) (frame_rate : option Q)
    (primary fallback : get_reply) (flt : faults) (d : disk) (p : string) :
  let result := download_file urlencode self filename output_dir subfolder
                  format_type frame_rate primary fallback flt d in
  fst (fst result) = Some p ->
  p = path_join output_dir filename /\
  output_dir ∈ dirs (snd result) /\
  exists reply,
    attempt_ok flt output_dir reply = true /\
    files (snd result) !! p = Some (concat (List.filter nonempty (reply_chunks reply))) /\
    ((reply = primary /\ fallback_gets (snd (fst result)) = []) \/
     (reply = fallback /\ reply_status primary <> Some 200 /\
      length (fallback_gets (snd (fst result))) = 1%nat)).
Proof.
  cbv zeta. unfold download_file.
  set (url := download_url_of urlencode self filename subfolder format_type frame_rate).
  set (prepared := if is_video_name filename then [Head url] else []).
  assert (Hprep : forall l, fallback_gets (prepared ++ l) = fallback_gets l).
  { intros l. unfold prepared. destruct (is_video_name filename); reflexivity. }
  destruct primary as [| code chunks complete]; [discriminate |].
  destruct (Z.eqb_spec code 200) as [-> | Hne].
  { pose proof (store_some flt output_dir filename chunks complete d p) as Hs.
    destruct (store flt output_dir filename chunks complete d) as [r d1].
    cbn [fst snd] in *. intros Hr. destruct (Hs Hr) as (-> & Hok & Hdir & Hfile).
    split; [reflexivity |]. split; [exact Hdir |].
    exists (GetResponse 200 chunks complete). split; [exact Hok |].
    split; [exact Hfile |]. left. split; [reflexivity | apply Hprep]. }
  destruct complete; cbn [negb]; [| discriminate].
  destruct fallback as [| code2 chunks2 complete2]; [discriminate |].
  destruct (Z.eqb_spec code2 200) as [-> | Hne2]; [| discriminate].
  pose proof (store_some flt output_dir filename chunks2 complete2 d p) as Hs.
  destruct (store flt output_dir filename chunks2 complete2 d) as [r d1].
  cbn [fst snd] in *. intros Hr. destruct (Hs Hr) as (-> & Hok & Hdir & Hfile).
  split; [reflexivity |]. split; [exact Hdir |].
  exists (GetResponse 200 chunks2 complete2). split; [exact Hok |].
  split; [exact Hfile |]. right. split; [reflexivity |].
  split; [cbn; congruence | rewrite Hprep; reflexivity].
Qed.

(** *** Listing and fetching *)

Lemma file_of_url (self : client) (node_id : string) (i : item) (f : file_info) :
  file_of urlencode self node_id i = Some f ->
  (file_type f = "video" -> is_video_name (filename f) = true ->
   (forall q, frame_rate f = Some q -> Qeq_bool q 0 = false) ->
   download_url_of urlencode self (filename f) (subfolder f) (format f) (frame_rate f)
     = url f) /\
  (file_type f = "image" -> is_video_name (filename f) = false ->
   forall format_type rate,
     download_url_of urlencode self (filename f) (subfolder f) format_type rate
       = url f).
Proof.
  unfold file_of. destruct (item_filename i) as [name |]; [| discriminate].
  destruct (Py.startswith (default "" (item_format i)) "video/") eqn:Ev;
    intros [= <-]; cbn [file_type filename subfolder format frame_rate url];
    (split; [| intros Hi; try discriminate Hi]).
  - intros _ Hname Hrate. unfold download_url_of. rewrite Hname.
    destruct (item_format i) as [fmt |]; cbn [default] in *; [| discriminate Ev].
    assert (Ht : Py.truthy_str fmt = true) by (destruct fmt; [discriminate Ev | reflexivity]).
    cbn [default from_option id or_str or_float].
    rewrite Ht, (Hrate _ eq_refl). reflexivity.
  - intros Hi. discriminate Hi.
  - intros Hname format_type rate. unfold download_url_of. rewrite Hname. reflexivity.
Qed.

Lemma files_of_node_from (self : client) (node_id : string)
    (outputs : list (string * output_data)) (f : file_info) :
  In f (files_of_node urlencode self node_id outputs) ->
  exists i, file_of urlencode self node_id i = Some f.
Proof.
  unfold files_of_node. rewrite in_flat_map. intros ([k data] & _ & Hin).
  cbn [snd] in Hin. destruct data as [items |]; [| destruct Hin].
  cbn [files_of_data] in Hin. apply list_elem_of_In, list_elem_of_omap in Hin
    as (e & _ & He).
  destruct e as [i |]; [eauto | discriminate].
Qed.

Lemma get_output_files_from (self : client) (reply : outputs_reply) (f : file_info) :
  In f (get_output_files urlencode self reply) ->
  exists node_id i, file_of urlencode self node_id i = Some f.
Proof.
  assert (H : forall outputs,
    In f (flat_map (fun kv => match snd kv with
                              | NodeDict o => files_of_node urlencode self (fst kv) o
                              | NodeOther => []
                              end) outputs) ->
    exists node_id i, file_of urlencode self node_id i = Some f).
  { intros outputs. rewrite in_flat_map. intros ([k n] & _ & Hin). cbn [fst snd] in Hin.
    destruct n as [o |]; [| destruct Hin].
    exists k. eapply files_of_node_from, Hin. }
  destruct reply as [| [outputs |] | [outputs |]]; cbn [get_output_files];
    try (intros []); [apply H |].
  destruct (forallb _ _); [apply H | intros []].
Qed.

(** X11. The URL listed for an output is the URL the download asks for.
    For every file [get_output_files] lists: when it is listed as a video,
    its name has a video extension and its frame rate is not zero,
    [download_file], called with the listed name, subfolder, format and frame
    rate, requests exactly the listed URL; when it is listed as an image and
    its name has no video extension, [download_file] requests the listed URL
    whatever format and frame rate it is given. *)
Theorem listed_url_is_download_url (self : client) (reply : outputs_reply)
    (f : file_info) :
  In f (get_output_files urlencode self reply) ->
  (file_type f = "video" -> is_video_name (filename f) = true ->
   (forall q, frame_rate f = Some q -> Qeq_bool q 0 = false) ->
   download_url_of urlencode self (filename f) (subfolder f) (format f) (frame_rate f)
     = url f) /\
  (file_type f = "image" -> is_video_name (filename f) = false ->
   forall format_type rate,
     download_url_of urlencode self (filename f) (subfolder f) format_type rate
       = url f).
Proof.
  intros Hin. apply get_output_files_from in Hin as (node_id & i & Hf).
  eapply file_of_url, Hf.
Qed.

End Download.

Lemma listed_url_is_download_url_witness :
  exists f,
    In f (get_output_files plain_urlencode demo_client demo_outputs) /\
    filename f = "clip.mp4" /\
    download_url_of plain_urlencode demo_client (filename f) (subfolder f)
      (format f) (frame_rate f) = url f /\
    url f =
      "https://node/api/viewvideo?filename=clip.mp4&type=output&format=video/h264-mp4&frame_rate=16".
Proof.
  set (f := {| filename := "clip.mp4"; subfolder := ""; type := "output";
               node_id := "30"; file_type := "video";
               format := Some "video/h264-mp4"; frame_rate := Some 16%Q;
               url := get_video_url plain_urlencode demo_client "clip.mp4" ""
                        "video/h264-mp4" 16 |}).
  assert (Hin : In f (get_output_files plain_urlencode demo_client demo_outputs)).
  { left. reflexivity. }
  exists f. split; [exact Hin |]. split; [reflexivity |]. split.
  - apply (proj1 (listed_url_is_download_url plain_urlencode demo_client
                    demo_outputs f Hin));
      [reflexivity | reflexivity | intros q [= <-]; reflexivity].
  - reflexivity.
Defined.

(** A download into [a/b/c] on a disk without these directories makes
    [a] and [a/b] as well and leaves the file that was there alone; two
    refused GETs leave the disk as it was. *)
Lemma download_file_touches_target_only_witness :
  let stored := snd (download_file plain_urlencode demo_client "clip.mp4" "a/b/c" ""
                       None None (GetResponse 200 demo_chunks true) GetRaises
                       no_faults used_disk) in
  let refused := snd (download_file plain_urlencode demo_client "clip.mp4" "out" ""
                        None None (GetResponse 403 [] true) (GetResponse 500 [] true)
                        no_faults used_disk) in
  "a" ∈ dirs stored /\ "a/b" ∈ dirs stored /\
  files stored !! "out/old.mp4" = Some [Byte.x09] /\
  refused = used_disk.
Proof.
  pose proof (download_file_touches_target_only plain_urlencode demo_client "clip.mp4"
                "a/b/c" "" None None (GetResponse 200 demo_chunks true) GetRaises
                no_faults used_disk) as (Hfiles & _ & _ & Hpar & _).
  pose proof (download_file_touches_target_only plain_urlencode demo_client "clip.mp4"
                "out" "" None None (GetResponse 403 [] true) (GetResponse 500 [] true)
                no_faults used_disk) as (_ & _ & _ & _ & Hsame).
  cbv zeta in *.
  assert (Hp : forall x, x ∈ ["a"; "a/b"] ->
    x ∈ dirs (snd (download_file plain_urlencode demo_client "clip.mp4" "a/b/c" ""
                     None None (GetResponse 200 demo_chunks true) GetRaises
                     no_faults used_disk))).
  { apply (Hpar "a/b/c/clip.mp4"). vm_compute. reflexivity. }
  split; [apply Hp; repeat constructor |].
  split; [apply Hp; repeat constructor |].
  split; [rewrite Hfiles; [reflexivity | discriminate] |].
  apply Hsame; cbn; congruence.
Defined.

Lemma download_file_returns_written_path_witness :
  let result :=
    download_file plain_urlencode demo_client "clip.mp4" "out" "" None None
      (GetResponse 403 [] true) (GetResponse 200 demo_chunks true)
      no_faults used_disk in
  "out/clip.mp4" = path_join "out" "clip.mp4" /\
  "out" ∈ dirs (snd result) /\
  exists reply,
    attempt_ok no_faults "out" reply = true /\
    files (snd result) !! "out/clip.mp4" =
      Some (concat (List.filter nonempty (reply_chunks reply))) /\
    ((reply = GetResponse 403 [] true /\ fallback_gets (snd (fst result)) = []) \/
     (reply = GetResponse 200 demo_chunks true /\
      reply_status (GetResponse 403 [] true) <> Some 200 /\
      length (fallback_gets (snd (fst result))) = 1%nat)).
Proof.
  apply (download_file_returns_written_path plain_urlencode demo_client "clip.mp4"
           "out" "" None None (GetResponse 403 [] true)
           (GetResponse 200 demo_chunks true) no_faults used_disk "out/clip.mp4").
  vm_compute. reflexivity.
Defined.

End WanTransferFacts.

(** ** The injector of script 002 *)

Module SonicGraphSpec.
Import Store SonicGraph.

(** *** Running a program step by step *)

Lemma bind_ok {A B} (m : M A) (f : A -> M B) (h h2 : heap) (b : B) :
  bind m f h = (Ok b, h2) ->
  exists a h1, m h = (Ok a, h1) /\ f a h1 = (Ok b, h2).
Proof. unfold bind. destruct (m h) as [[a | e] h1]; [eauto | discriminate]. Qed.

Lemma read_ok {A} (f : heap -> outcome A) (h h1 : heap) (a : A) :
  read f h = (Ok a, h1) -> h1 = h /\ f h = Ok a.
Proof. unfold read. intros [= Hf <-]. auto. Qed.

Lemma ret_ok {A} (a b : A) (h h1 : heap) :
  ret a h = (Ok b, h1) -> b = a /\ h1 = h.
Proof. unfold ret. intros [= <- <-]. auto. Qed.

Lemma getitem_str_ok (h : heap) (x : value) (k : string) (v : value) :
  getitem_str_pure h x k = Ok v ->
  exists n items,
    x = VRef n /\ h !! n = Some (ODict items) /\ dict_get items (VStr k) = Some v.
Proof.
  unfold getitem_str_pure. destruct x as [| | | | | n]; try discriminate.
  destruct (lookup_object h n) as [[items | items] | e] eqn:E; try discriminate.
  apply FrameFacts.lookup_object_ok in E.
  destruct (dict_get items (VStr k)) as [w |] eqn:Eg; [| discriminate].
  intros [= <-]. eauto.
Qed.

Lemma dict_get_set_same (items : list (value * value)) (s : string) (v : value) :
  dict_get (dict_set items (VStr s) v) (VStr s) = Some v.
Proof.
  induction items as [| [k0 v0] rest IH]; cbn [dict_set dict_get].
  - cbn [atom_eqb]. rewrite String.eqb_refl. reflexivity.
  - destruct (atom_eqb k0 (VStr s)) eqn:E; cbn [dict_get]; rewrite E;
      [reflexivity | exact IH].
Qed.

Lemma dict_get_str_in (items : list (value * value)) (k : string) (v : value) :
  dict_get items (VStr k) = Some v -> In (VStr k, v) items.
Proof.
  induction items as [| [k0 v0] rest IH]; cbn [dict_get]; [discriminate |].
  destruct (atom_eqb k0 (VStr k)) eqn:E.
  - intros [= <-]. left.
    destruct k0 as [| | | | t |]; cbn in E; try discriminate.
    apply String.eqb_eq in E as ->. reflexivity.
  - intros H. right. apply IH, H.
Qed.

(** *** Stores that differ by prescribed entries *)

Section Facts.

Variable image_name : string.
Variable audio_name : string.
Variable optimal : Z * Z.
Variable audio_duration : Z.

Local Abbreviation W := (written image_name audio_name optimal audio_duration).

Lemma written_atom (k : string) (v : value) :
  table_get W k = Some v ->
  is_ref v = false /\ String.eqb k "inputs" = false /\
  String.eqb k "class_type" = false.
Proof.
  unfold written. cbn [table_get].
  repeat match goal with
         | |- context [String.eqb ?a k] =>
             destruct (String.eqb_spec a k) as [<- | _];
             [intros [= <-]; repeat split; reflexivity |]
         end.
  discriminate.
Qed.

Lemma steady_refl (items : list (value * value)) : steady W items items.
Proof. intros k. left. reflexivity. Qed.

Lemma steady_trans (a b c : list (value * value)) :
  steady W a b -> steady W b c -> steady W a c.
Proof.
  intros Hab Hbc k. destruct (Hbc k) as [E | Hw]; [| right; exact Hw].
  rewrite E. apply Hab.
Qed.

Lemma steady_set (items : list (value * value)) (k : string) (v : value) :
  table_get W k = Some v -> steady W items (dict_set items (VStr k) v).
Proof.
  intros HW k'. destruct (String.eqb_spec k k') as [<- | Hne].
  - right. exists v. split; [exact HW | apply dict_get_set_same].
  - left. apply FrameFacts.dict_get_set_str. apply String.eqb_neq, Hne.
Qed.

Lemma evolves_refl (h : heap) : evolves W h h.
Proof.
  intros l. destruct (h !! l) as [[items | xs] |];
    [apply steady_refl | reflexivity | exact I].
Qed.

Lemma evolves_trans (h1 h2 h3 : heap) :
  evolves W h1 h2 -> evolves W h2 h3 -> evolves W h1 h3.
Proof.
  intros H12 H23 l. specialize (H12 l). specialize (H23 l).
  destruct (h1 !! l) as [[a | a] |], (h2 !! l) as [[b | b] |],
    (h3 !! l) as [[c | c] |]; try contradiction; try exact I.
  - eapply steady_trans; eassumption.
  - congruence.
Qed.

Lemma evolves_insert (h : heap) (l : loc) (items items' : list (value * value)) :
  h !! l = Some (ODict items) -> steady W items items' ->
  evolves W h (<[l := ODict items']> h).
Proof.
  intros Hl Hst l'. destruct (decide (l' = l)) as [-> | Hne].
  - rewrite lookup_insert_eq, Hl. exact Hst.
  - rewrite lookup_insert_ne by congruence. apply evolves_refl.
Qed.

(** The inputs and the class of a node, read in the later store, were
    those of the earlier one. *)
Lemma inputs_back (h h' : heap) (node : value) (inputs' : list (value * value)) :
  evolves W h h' -> inputs_at h' node inputs' ->
  exists inputs, inputs_at h node inputs /\ steady W inputs inputs'.
Proof.
  intros Hev (n & items' & li & -> & Hn & Hi & Hli).
  pose proof (Hev n) as En. rewrite Hn in En.
  destruct (h !! n) as [[items | xs] |] eqn:Hn0; try contradiction.
  pose proof (Hev li) as El. rewrite Hli in El.
  destruct (h !! li) as [[inputs | xs] |] eqn:Hl0; try contradiction.
  exists inputs. split; [| exact El]. exists n, items, li.
  repeat split; try assumption.
  destruct (En "inputs") as [E | (v & Hv & _)]; [congruence |].
  apply written_atom in Hv as (_ & Hv & _). discriminate Hv.
Qed.

Lemma class_back (h h' : heap) (node : value) (s : string) :
  evolves W h h' -> class_is h' node s -> class_is h node s.
Proof.
  intros Hev (n & items' & -> & Hn & Hc).
  pose proof (Hev n) as En. rewrite Hn in En.
  destruct (h !! n) as [[items | xs] |] eqn:Hn0; try contradiction.
  exists n, items. repeat split; try assumption.
  destruct (En "class_type") as [E | (v & Hv & _)]; [congruence |].
  apply written_atom in Hv as (_ & _ & Hv). discriminate Hv.
Qed.

(** A property of the inputs that survives prescribed changes holds on,
    for the nodes of given classes. *)
Lemma part_stable (C : list (value * value) -> Prop) (classes : list string)
    (h h' : heap) (node : value) :
  (forall a b, steady W a b -> C a -> C b) ->
  evolves W h h' ->
  (forall inputs, inputs_at h node inputs ->
     (exists s, In s classes /\ class_is h node s) -> C inputs) ->
  forall inputs, inputs_at h' node inputs ->
    (exists s, In s classes /\ class_is h' node s) -> C inputs.
Proof.
  intros Hc Hev Hold inputs' Hat (s & Hs & Hcl).
  destruct (inputs_back _ _ _ _ Hev Hat) as (inputs & Hat0 & Hst).
  apply (Hc inputs inputs' Hst). apply Hold; [exact Hat0 |].
  exists s. split; [exact Hs | eapply class_back; eassumption].
Qed.

(** *** The writes *)

Lemma set_input_ok (node : value) (key : string) (v : value) (h h' : heap) :
  table_get W key = Some v ->
  set_input node key v h = (Ok tt, h') ->
  evolves W h h' /\
  forall inputs, inputs_at h' node inputs -> dict_get inputs (VStr key) = Some v.
Proof.
  intros HW H. destruct (written_atom _ _ HW) as (_ & Hki & _).
  unfold set_input in H. apply bind_ok in H as (x & h1 & Hg & Hs).
  apply read_ok in Hg as [-> Hg].
  apply getitem_str_ok in Hg as (n & items & -> & Hn & Hi).
  unfold setitem in Hs. destruct x as [| | | | | li]; try discriminate.
  unfold modify in Hs. destruct (h !! li) as [o |] eqn:Hli; [| discriminate].
  destruct o as [inputs | xs]; cbn [setitem_object is_ref] in Hs; [| discriminate].
  injection Hs as <-. split.
  - eapply evolves_insert; [exact Hli | apply steady_set, HW].
  - intros inputs' (n' & items' & li' & [= <-] & Hn' & Hi' & Hli').
    assert (li' = li) as ->.
    { destruct (decide (n = li)) as [-> | Hne].
      - rewrite lookup_insert_eq in Hn'. injection Hn' as <-.
        rewrite Hn in Hli. injection Hli as <-.
        rewrite FrameFacts.dict_get_set_str in Hi' by exact Hki. congruence.
      - rewrite lookup_insert_ne in Hn' by congruence. congruence. }
    rewrite lookup_insert_eq in Hli'. injection Hli' as <-.
    apply dict_get_set_same.
Qed.

Lemma has_input_ok (node : value) (key : string) (b : bool) (h h' : heap) :
  has_input node key h = (Ok b, h') ->
  h' = h /\
  (b = false ->
   forall inputs, inputs_at h node inputs -> dict_get inputs (VStr key) = None).
Proof.
  unfold has_input. intros H. apply bind_ok in H as (x & h1 & Hg & Hc).
  apply read_ok in Hg as [-> Hg]. apply read_ok in Hc as [-> Hc].
  split; [reflexivity |]. intros -> inputs (n' & items' & li & -> & Hn' & Hi' & Hli).
  apply getitem_str_ok in Hg as (n & items & [= <-] & Hn & Hi).
  assert (x = VRef li) as -> by congruence.
  unfold contains_pure, lookup_object in Hc. rewrite Hli in Hc.
  destruct (dict_get inputs (VStr key)); [discriminate | reflexivity].
Qed.

Lemma class_read (h : heap) (node c : value) (s : string) :
  get_pure h node "class_type" VNone = Ok c -> class_is h node s -> c = VStr s.
Proof.
  intros Hg (n & items & -> & Hn & Hc). unfold get_pure, lookup_object in Hg.
  rewrite Hn, Hc in Hg. cbn in Hg. congruence.
Qed.

(** *** The five parts of the loop body *)

Lemma update_load_image_ok (node : value) (h h' : heap) :
  update_load_image image_name node h = (Ok tt, h') ->
  evolves W h h' /\
  forall inputs, inputs_at h' node inputs ->
    (exists s, In s ["LoadImage"] /\ class_is h' node s) ->
    dict_get inputs (VStr "image") = Some (VStr image_name).
Proof.
  unfold update_load_image. intros H. apply bind_ok in H as (c & h1 & Hg & H).
  apply read_ok in Hg as [-> Hg].
  destruct (eq_str c "LoadImage") eqn:Ec.
  - apply set_input_ok in H as [Hev Hw]; [| reflexivity].
    split; [exact Hev |]. intros inputs Hat _. apply Hw, Hat.
  - apply ret_ok in H as [_ ->]. split; [apply evolves_refl |].
    intros inputs _ (s & [<- | []] & Hcl).
    rewrite (class_read _ _ _ _ Hg Hcl) in Ec. discriminate Ec.
Qed.

Lemma update_image_resize_ok (node : value) (h h' : heap) :
  update_image_resize optimal node h = (Ok tt, h') ->
  evolves W h h' /\
  forall inputs, inputs_at h' node inputs ->
    (exists s, In s ["Image Resize"] /\ class_is h' node s) ->
    dict_get inputs (VStr "resize_width") = Some (VInt (fst optimal)) /\
    dict_get inputs (VStr "resize_height") = Some (VInt (snd optimal)).
Proof.
  unfold update_image_resize. intros H. apply bind_ok in H as (c & h1 & Hg & H).
  apply read_ok in Hg as [-> Hg].
  destruct (eq_str c "Image Resize") eqn:Ec.
  - apply bind_ok in H as (x1 & h1 & H1 & H). apply read_ok in H1 as [-> _].
    apply bind_ok in H as (x2 & h1 & H2 & H). apply read_ok in H2 as [-> _].
    apply bind_ok in H as (x3 & h1 & H3 & H). apply read_ok in H3 as [-> _].
    apply bind_ok in H as (x4 & h1 & H4 & H). apply read_ok in H4 as [-> _].
    apply bind_ok in H as ([] & h1 & Hw & Hh).
    apply set_input_ok in Hw as [Hev1 Hw]; [| reflexivity].
    apply set_input_ok in Hh as [Hev2 Hh]; [| reflexivity].
    split; [eapply evolves_trans; eassumption |].
    intros inputs Hat _. split; [| apply Hh, Hat].
    destruct (inputs_back _ _ _ _ Hev2 Hat) as (inputs1 & Hat1 & Hst).
    specialize (Hw inputs1 Hat1).
    destruct (Hst "resize_width") as [E | (v & Hv & E)]; [congruence |].
    rewrite E. cbn in Hv. congruence.
  - apply ret_ok in H as [_ ->]. split; [apply evolves_refl |].
    intros inputs _ (s & [<- | []] & Hcl).
    rewrite (class_read _ _ _ _ Hg Hcl) in Ec. discriminate Ec.
Qed.

Lemma update_load_audio_ok (node : value) (h h' : heap) :
  update_load_audio audio_name node h = (Ok tt, h') ->
  evolves W h h' /\
  forall inputs, inputs_at h' node inputs ->
    (exists s, In s ["LoadAudio"; "VHS_LoadAudio"] /\ class_is h' node s) ->
    (dict_get inputs (VStr "audio") <> None ->
     dict_get inputs (VStr "audio") = Some (VStr audio_name)) /\
    (dict_get inputs (VStr "audio") = None ->
     dict_get inputs (VStr "audio_file") <> None ->
     dict_get inputs (VStr "audio_file") = Some (VStr ("input/" +:+ audio_name))).
Proof.
  unfold update_load_audio. intros H. apply bind_ok in H as (c & h1 & Hg & H).
  apply read_ok in Hg as [-> Hg].
  destruct (eq_str c "LoadAudio" || eq_str c "VHS_LoadAudio") eqn:Ec.
  - apply bind_ok in H as (has_audio & h1 & Ha & H).
    apply has_input_ok in Ha as [-> Ha]. destruct has_audio.
    { apply set_input_ok in H as [Hev Hw]; [| reflexivity].
      split; [exact Hev |]. intros inputs Hat _. rewrite (Hw inputs Hat).
      split; [reflexivity | discriminate]. }
    specialize (Ha eq_refl).
    apply bind_ok in H as (has_file & h1 & Hf & H).
    apply has_input_ok in Hf as [-> Hf]. destruct has_file.
    { apply set_input_ok in H as [Hev Hw]; [| reflexivity].
      split; [exact Hev |]. intros inputs Hat _. rewrite (Hw inputs Hat).
      split; [| reflexivity].
      destruct (inputs_back _ _ _ _ Hev Hat) as (inputs0 & Hat0 & Hst).
      destruct (Hst "audio") as [E | (v & Hv & E)].
      - rewrite E, (Ha inputs0 Hat0). contradiction.
      - rewrite E. cbn in Hv. intros _. congruence. }
    specialize (Hf eq_refl). apply ret_ok in H as [_ ->].
    split; [apply evolves_refl |]. intros inputs Hat _.
    rewrite (Ha inputs Hat), (Hf inputs Hat). split; contradiction.
  - apply ret_ok in H as [_ ->]. split; [apply evolves_refl |].
    intros inputs _ (s & [<- | [<- | []]] & Hcl);
      rewrite (class_read _ _ _ _ Hg Hcl) in Ec; discriminate Ec.
Qed.

Lemma update_pre_data_ok (node : value) (h h' : heap) :
  update_pre_data audio_duration node h = (Ok tt, h') ->
  evolves W h h' /\
  forall inputs, inputs_at h' node inputs ->
    (exists s, In s ["SONIC_PreData"] /\ class_is h' node s) ->
    dict_get inputs (VStr "duration") <> None ->
    dict_get inputs (VStr "duration") = Some (VInt audio_duration).
Proof.
  unfold update_pre_data. intros H. apply bind_ok in H as (c & h1 & Hg & H).
  apply read_ok in Hg as [-> Hg].
  apply bind_ok in H as (has_duration & h1 & Hd & H).
  destruct has_duration.
  - assert (h1 = h) as ->.
    { destruct (eq_str c "SONIC_PreData");
        [apply has_input_ok in Hd as [-> _] | apply ret_ok in Hd as [_ ->]];
        reflexivity. }
    apply set_input_ok in H as [Hev Hw]; [| reflexivity].
    split; [exact Hev |]. intros inputs Hat _ _. apply Hw, Hat.
  - apply ret_ok in H as [_ ->].
    destruct (eq_str c "SONIC_PreData") eqn:Ec.
    + apply has_input_ok in Hd as [-> Hd]. specialize (Hd eq_refl).
      split; [apply evolves_refl |]. intros inputs Hat _ Hne.
      rewrite (Hd inputs Hat) in Hne. contradiction.
    + apply ret_ok in Hd as [_ ->]. split; [apply evolves_refl |].
      intros inputs _ (s & [<- | []] & Hcl).
      rewrite (class_read _ _ _ _ Hg Hcl) in Ec. discriminate Ec.
Qed.

Lemma update_node_33_ok (node_id node : value) (h h' : heap) :
  update_node_33 audio_duration node_id node h = (Ok tt, h') -> evolves W h h'.
Proof.
  unfold update_node_33. intros H.
  destruct (eq_str node_id "33"); [| apply ret_ok in H as [_ ->]; apply evolves_refl].
  apply bind_ok in H as (c & h1 & Hg & H). apply read_ok in Hg as [-> Hg].
  destruct (eq_str c "SONIC_PreData");
    [| apply ret_ok in H as [_ ->]; apply evolves_refl].
  apply set_input_ok in H as [Hev _]; [exact Hev | reflexivity].
Qed.

(** *** What survives prescribed changes *)

Lemma image_survives (a b : list (value * value)) :
  steady W a b ->
  dict_get a (VStr "image") = Some (VStr image_name) ->
  dict_get b (VStr "image") = Some (VStr image_name).
Proof.
  intros Hst Ha. destruct (Hst "image") as [E | (v & Hv & E)]; [congruence |].
  rewrite E. cbn in Hv. congruence.
Qed.

Lemma size_survives (a b : list (value * value)) :
  steady W a b ->
  dict_get a (VStr "resize_width") = Some (VInt (fst optimal)) /\
  dict_get a (VStr "resize_height") = Some (VInt (snd optimal)) ->
  dict_get b (VStr "resize_width") = Some (VInt (fst optimal)) /\
  dict_get b (VStr "resize_height") = Some (VInt (snd optimal)).
Proof.
  intros Hst [Hw Hh]. split.
  - destruct (Hst "resize_width") as [E | (v & Hv & E)]; [congruence |].
    rewrite E. cbn in Hv. congruence.
  - destruct (Hst "resize_height") as [E | (v & Hv & E)]; [congruence |].
    rewrite E. cbn in Hv. congruence.
Qed.

Lemma audio_survives (a b : list (value * value)) :
  steady W a b ->
  (dict_get a (VStr "audio") <> None ->
   dict_get a (VStr "audio") = Some (VStr audio_name)) /\
  (dict_get a (VStr "audio") = None ->
   dict_get a (VStr "audio_file") <> None ->
   dict_get a (VStr "audio_file") = Some (VStr ("input/" +:+ audio_name))) ->
  (dict_get b (VStr "audio") <> None ->
   dict_get b (VStr "audio") = Some (VStr audio_name)) /\
  (dict_get b (VStr "audio") = None ->
   dict_get b (VStr "audio_file") <> None ->
   dict_get b (VStr "audio_file") = Some (VStr ("input/" +:+ audio_name))).
Proof.
  intros Hst [Ha Hf].
  destruct (Hst "audio") as [E | (v & Hv & E)].
  - rewrite E. split; [exact Ha |]. intros Hnone.
    destruct (Hst "audio_file") as [E' | (v' & Hv' & E')].
    + rewrite E'. apply Hf, Hnone.
    + rewrite E'. cbn in Hv'. intros _. congruence.
  - rewrite E. cbn in Hv. split; [intros _; congruence | discriminate].
Qed.

Lemma duration_survives (a b : list (value * value)) :
  steady W a b ->
  (dict_get a (VStr "duration") <> None ->
   dict_get a (VStr "duration") = Some (VInt audio_duration)) ->
  dict_get b (VStr "duration") <> None ->
  dict_get b (VStr "duration") = Some (VInt audio_duration).
Proof.
  intros Hst Ha. destruct (Hst "duration") as [E | (v & Hv & E)].
  - rewrite E. exact Ha.
  - rewrite E. cbn in Hv. intros _. congruence.
Qed.

(** *** The loop *)

Lemma update_node_ok (item : value * value) (h h' : heap) :
  update_node image_name audio_name optimal audio_duration item h = (Ok tt, h') ->
  evolves W h h' /\
  injected image_name audio_name optimal audio_duration h' (snd item).
Proof.
  destruct item as [node_id node]. unfold update_node. cbn [snd]. intros H.
  apply bind_ok in H as ([] & h1 & H1 & H).
  apply bind_ok in H as ([] & h2 & H2 & H).
  apply bind_ok in H as ([] & h3 & H3 & H).
  apply bind_ok in H as ([] & h4 & H4 & H5).
  apply update_load_image_ok in H1 as [E1 P1].
  apply update_image_resize_ok in H2 as [E2 P2].
  apply update_load_audio_ok in H3 as [E3 P3].
  apply update_pre_data_ok in H4 as [E4 P4].
  apply update_node_33_ok in H5 as E5.
  pose proof (evolves_trans _ _ _ E4 E5) as E45.
  pose proof (evolves_trans _ _ _ E3 E45) as E35.
  pose proof (evolves_trans _ _ _ E2 E35) as E25.
  split; [eapply evolves_trans; eassumption |].
  intros inputs Hat. split; [| split; [| split]].
  - intros Hc.
    apply (part_stable _ ["LoadImage"] h1 h' node image_survives E25 P1 inputs Hat).
    exists "LoadImage". split; [left; reflexivity | exact Hc].
  - intros Hc.
    apply (part_stable _ ["Image Resize"] h2 h' node size_survives E35 P2 inputs Hat).
    exists "Image Resize". split; [left; reflexivity | exact Hc].
  - intros Hc.
    apply (part_stable _ ["LoadAudio"; "VHS_LoadAudio"] h3 h' node audio_survives
             E45 P3 inputs Hat).
    destruct Hc as [Hc | Hc];
      [exists "LoadAudio" | exists "VHS_LoadAudio"]; (split; [cbn; auto | exact Hc]).
  - intros Hc.
    apply (part_stable _ ["SONIC_PreData"] h4 h' node duration_survives E5 P4 inputs Hat).
    exists "SONIC_PreData". split; [left; reflexivity | exact Hc].
Qed.

Lemma injected_stable (h h' : heap) (node : value) :
  evolves W h h' ->
  injected image_name audio_name optimal audio_duration h node ->
  injected image_name audio_name optimal audio_duration h' node.
Proof.
  intros Hev Hin inputs' Hat.
  destruct (inputs_back _ _ _ _ Hev Hat) as (inputs & Hat0 & Hst).
  destruct (Hin inputs Hat0) as (H1 & H2 & H3 & H4).
  split; [| split; [| split]].
  - intros Hc. eapply image_survives; [exact Hst |]. eapply H1, class_back; eassumption.
  - intros Hc. eapply size_survives; [exact Hst |]. eapply H2, class_back; eassumption.
  - intros Hc. eapply audio_survives; [exact Hst |]. apply H3.
    destruct Hc as [Hc | Hc]; [left | right]; eapply class_back; eassumption.
  - intros Hc. eapply duration_survives; [exact Hst |]. eapply H4, class_back; eassumption.
Qed.

Lemma for_each_ok (items : list (value * value)) :
  forall h h',
    for_each items (update_node image_name audio_name optimal audio_duration) h
      = (Ok tt, h') ->
    evolves W h h' /\
    forall item, In item items ->
      injected image_name audio_name optimal audio_duration h' (snd item).
Proof.
  induction items as [| item rest IH]; intros h h' H; cbn [for_each] in H.
  - apply ret_ok in H as [_ ->]. split; [apply evolves_refl | intros item []].
  - apply bind_ok in H as ([] & h1 & H1 & H).
    apply update_node_ok in H1 as [E1 P1]. apply IH in H as [E2 P2].
    split; [eapply evolves_trans; eassumption |].
    intros x [<- | Hx]; [eapply injected_stable; eassumption | apply P2, Hx].
Qed.

End Facts.

(** X13. What [update_workflow] of script 002 hands back. When the call
    returns, its result is a dict of nodes in which every node whose class is
    LoadImage has the image name under "image"; every Image Resize node has
    the dimensions found for the image under "resize_width" and
    "resize_height"; every LoadAudio or VHS_LoadAudio node has the file name
    of the audio under "audio" when it has that entry, and else
    "input/<name>" under "audio_file" when it has that one; and every
    SONIC_PreData node with a "duration" entry has there the duration that
    [get_audio_duration] computes for the audio. The dimensions are those of
    [get_optimal_dimensions] for the image found next to the audio or in the
    input directory, and 576 by 576 when no image is found. *)
Theorem update_workflow_injects (float_repr : Q -> string) (env : media)
    (workflow : value) (image_name audio_path : string) (h : heap) (r : loc) :
  let result := update_workflow float_repr env workflow image_name audio_path h in
  fst result = Ok (VRef r) ->
  exists nodes,
    snd result !! r = Some (ODict nodes) /\
    forall node_id node,
      dict_get nodes (VStr node_id) = Some node ->
      injected image_name (basename audio_path)
        (optimal_dimensions env image_name audio_path)
        (Sonic.get_audio_duration (audio env)) (snd result) node.
Proof.
  cbv zeta. intros Hr.
  destruct (update_workflow float_repr env workflow image_name audio_path h)
    as [out h'] eqn:H. cbn [fst snd] in *. subst out.
  unfold update_workflow in H.
  apply bind_ok in H as (text & h1 & Hd & H). apply read_ok in Hd as [-> _].
  apply bind_ok in H as (copy & h1 & _ & H).
  apply bind_ok in H as (items & h2 & Hi & H). apply read_ok in Hi as [-> Hi].
  apply bind_ok in H as ([] & h2 & Hloop & H). apply ret_ok in H as [<- ->].
  apply for_each_ok in Hloop as [Hev Hall].
  unfold dict_items_pure, lookup_object in Hi.
  destruct (h1 !! r) as [[its | xs] |] eqn:Hr; try discriminate.
  injection Hi as ->.
  pose proof (Hev r) as Er. rewrite Hr in Er.
  destruct (h2 !! r) as [[nodes | xs] |] eqn:Hr'; try contradiction.
  exists nodes. split; [reflexivity |].
  intros node_id node Hn.
  destruct (Er node_id) as [E | (v & Hv & E)].
  - rewrite E in Hn. apply dict_get_str_in in Hn. apply (Hall _ Hn).
  - assert (node = v) as -> by congruence.
    apply written_atom in Hv as (Hv & _).
    intros inputs (n & _ & _ & -> & _). discriminate Hv.
Qed.

(** On the sample graph, with a clip of 7.8 seconds and a picture of
    1920 by 1080 pixels: the duration written is 9 and the size 1024 by 576. *)
Lemma update_workflow_injects_witness :
  let result :=
    update_workflow Wan.plain_float_repr avatar_media (VRef 1%positive)
      "face.png" "media/voice.wav" avatar_graph in
  Sonic.get_audio_duration (audio avatar_media) = 9 /\
  optimal_dimensions avatar_media "face.png" "media/voice.wav" = Sonic.LANDSCAPE /\
  exists nodes,
    snd result !! 20%positive = Some (ODict nodes) /\
    forall node_id node,
      dict_get nodes (VStr node_id) = Some node ->
      injected "face.png" (basename "media/voice.wav")
        (optimal_dimensions avatar_media "face.png" "media/voice.wav")
        (Sonic.get_audio_duration (audio avatar_media)) (snd result) node.
Proof.
  cbv zeta. split; [vm_compute; reflexivity |]. split; [vm_compute; reflexivity |].
  apply (update_workflow_injects Wan.plain_float_repr avatar_media (VRef 1%positive)
           "face.png" "media/voice.wav" avatar_graph 20%positive).
  vm_compute. reflexivity.
Defined.


(** *** The original is left alone *)

Section Kept.
Import Frame FrameFacts.

Variable h0 : heap.
Variable float_repr : Q -> string.

Local Abbreviation old := (dom h0).
Local Abbreviation closed := (all_fresh (dom h0)).

Lemma safe_dict_items (x : value) :
  fresh_val old x ->
  safe h0 closed (dict_items x) (Forall (fun kv => fresh_val old (snd kv))).
Proof.
  intros Hx. apply safe_read. intros h a Hk. unfold dict_items_pure.
  destruct x as [| | | | s | l]; try discriminate.
  destruct (lookup_object h l) as [[items | items] | e] eqn:E; try discriminate.
  apply lookup_object_ok in E. intros [= <-].
  pose proof (fresh_object h0 h l _ Hk Hx E) as Hf.
  apply values_of_dict in Hf. eapply Forall_impl; [exact Hf |].
  intros kv [_ Hv]. exact Hv.
Qed.

Lemma safe_set_input (node : value) (key : string) (v : value) :
  fresh_val old node -> fresh_val old v ->
  safe h0 closed (set_input node key v) (fun _ => True).
Proof.
  intros Hn Hv. unfold set_input.
  eapply safe_bind; [apply safe_getitem_str, Hn |]. intros inputs Hi.
  apply safe_setitem; [exact Hi | exact I | exact Hv].
Qed.

Lemma safe_has_input (node : value) (key : string) :
  safe h0 closed (has_input node key) (fun _ => True).
Proof.
  unfold has_input. eapply safe_bind; [apply safe_read_any |].
  intros inputs _. apply safe_read_any.
Qed.

Lemma safe_sonic_update_node (image_name audio_name : string) (optimal : Z * Z)
    (audio_duration : Z) (item : value * value) :
  fresh_val old (snd item) ->
  safe h0 closed (update_node image_name audio_name optimal audio_duration item)
    (fun _ => True).
Proof.
  destruct item as [node_id node]. cbn [snd]. intros Hn. unfold update_node.
  eapply safe_bind with (R := fun _ => True).
  { unfold update_load_image. eapply safe_bind; [apply safe_read_any |].
    intros c _. destruct (eq_str c "LoadImage");
      [apply safe_set_input; [exact Hn | exact I] | apply safe_ret; exact I]. }
  intros _ _. eapply safe_bind with (R := fun _ => True).
  { unfold update_image_resize. eapply safe_bind; [apply safe_read_any |].
    intros c _. destruct (eq_str c "Image Resize"); [| apply safe_ret; exact I].
    eapply safe_bind; [apply safe_read_any |]. intros x1 _.
    eapply safe_bind; [apply safe_read_any |]. intros x2 _.
    eapply safe_bind; [apply safe_read_any |]. intros x3 _.
    eapply safe_bind; [apply safe_read_any |]. intros x4 _.
    eapply safe_bind; [apply safe_set_input; [exact Hn | exact I] |].
    intros _ _. apply safe_set_input; [exact Hn | exact I]. }
  intros _ _. eapply safe_bind with (R := fun _ => True).
  { unfold update_load_audio. eapply safe_bind; [apply safe_read_any |].
    intros c _. destruct (_ || _); [| apply safe_ret; exact I].
    eapply safe_bind; [apply safe_has_input |]. intros [] _;
      [apply safe_set_input; [exact Hn | exact I] |].
    eapply safe_bind; [apply safe_has_input |]. intros [] _;
      [apply safe_set_input; [exact Hn | exact I] | apply safe_ret; exact I]. }
  intros _ _. eapply safe_bind with (R := fun _ => True).
  { unfold update_pre_data. eapply safe_bind; [apply safe_read_any |].
    intros c _. eapply safe_bind with (R := fun _ => True).
    - destruct (eq_str c "SONIC_PreData");
        [apply safe_has_input | apply safe_ret; exact I].
    - intros [] _; [apply safe_set_input; [exact Hn | exact I] | apply safe_ret; exact I]. }
  intros _ _. unfold update_node_33.
  destruct (eq_str node_id "33"); [| apply safe_ret; exact I].
  eapply safe_bind; [apply safe_read_any |]. intros c _.
  destruct (eq_str c "SONIC_PreData");
    [apply safe_set_input; [exact Hn | exact I] | apply safe_ret; exact I].
Qed.

Lemma safe_sonic_update_workflow (env : media) (workflow : value)
    (image_name audio_path : string) :
  safe h0 closed (update_workflow float_repr env workflow image_name audio_path)
    (fresh_val old).
Proof.
  unfold update_workflow.
  eapply safe_bind; [apply safe_read_any |]. intros text _.
  eapply safe_bind; [apply safe_loads |]. intros copy Hc.
  eapply safe_bind; [apply safe_dict_items, Hc |]. intros items Hi.
  eapply safe_bind with (R := fun _ => True); [| intros _ _; apply safe_ret; exact Hc].
  eapply safe_for_each; [exact Hi |]. intros item Hitem.
  apply safe_sonic_update_node, Hitem.
Qed.

End Kept.

(** X14. [update_workflow] of script 002 works on a copy: whether it
    returns or raises, every object that was in the store before the call is
    there afterwards with the content it had, and nothing reachable from the
    graph it returns existed before the call. *)
Theorem update_workflow_keeps_original (float_repr : Q -> string) (env : media)
    (workflow : value) (image_name audio_path : string) (h : heap) :
  let result := update_workflow float_repr env workflow image_name audio_path h in
  (forall l o, h !! l = Some o -> snd result !! l = Some o) /\
  (forall copy, fst result = Ok copy ->
     forall l, reach (snd result) copy l -> h !! l = None).
Proof.
  destruct (FrameFacts.safe_run h _ _ _
              (safe_sonic_update_workflow h float_repr env workflow image_name audio_path))
    as [Hk Hcopy].
  cbv zeta. split.
  - intros l o. eapply WanGraphSpec.kept_lookup, Hk.
  - intros copy Hc l Hr. apply not_elem_of_dom.
    eapply FrameFacts.reach_fresh; [exact Hk | apply Hcopy, Hc | exact Hr].
Qed.

(** On the sample graph the original keeps its duration of 3 while the
    copy carries 9. *)
Lemma update_workflow_keeps_original_witness :
  let result :=
    update_workflow Wan.plain_float_repr avatar_media (VRef 1%positive)
      "face.png" "media/voice.wav" avatar_graph in
  snd result !! 10%positive =
    Some (ODict [(VStr "duration", VInt 3); (VStr "fps", VInt 25)]) /\
  snd result !! 18%positive =
    Some (ODict [(VStr "duration", VInt 9); (VStr "fps", VInt 25)]) /\
  avatar_graph !! 18%positive = None.
Proof.
  pose proof (update_workflow_keeps_original Wan.plain_float_repr avatar_media
                (VRef 1%positive) "face.png" "media/voice.wav" avatar_graph)
    as [Hkeep Hnew].
  cbv zeta in *. split; [apply Hkeep; reflexivity |].
  split; [vm_compute; reflexivity |].
  apply (Hnew (VRef 20%positive)); [vm_compute; reflexivity |].
  eapply reach_part with (v := VRef 19%positive);
    [vm_compute; reflexivity | cbn; auto 10 |].
  eapply reach_part with (v := VRef 18%positive);
    [vm_compute; reflexivity | cbn; auto 10 | constructor].
Defined.

End SonicGraphSpec.

(** ** The tracker of script 002 *)

Module SonicTrackerFacts.
Import SonicTracker.

Lemma error_message_truthy (msgs : list message) :
  forall text, Py.truthy_str text = true ->
  Py.truthy_str (fold_left
    (fun error_message msg =>
       match msg with
       | ExecutionError node_id node_type exception =>
           "Error in node " +:+ default "unknown" node_id +:+ " ("
           +:+ default "unknown" node_type +:+ "): "
           +:+ default "Unknown error" exception
       | _ => error_message
       end) msgs text) = true.
Proof.
  induction msgs as [| msg rest IH]; intros text Ht; cbn [fold_left]; [exact Ht |].
  apply IH. destruct msg; [reflexivity | exact Ht | exact Ht].
Qed.

Lemma failed_step (c : call) (p : poll) (d : history_t) :
  in_time c p = true -> history p = HistoryData d -> failed d = true ->
  step c p = Return false.
Proof.
  unfold step, check_workflow_status, failed. intros -> -> Hf.
  destruct (status d) as [[[s |] msgs done] |]; try discriminate.
  cbn [status_str messages] in *. rewrite Hf. cbn iota.
  unfold error_message_of. rewrite error_message_truthy; reflexivity.
Qed.

Lemma sonic_step_true_iff (c : call) (p : poll) :
  step c p = Return true <->
  in_time c p = true /\ shows_done (prompt_id c) p = true.
Proof.
  unfold step, shows_done. destruct (in_time c p);
    [| split; [discriminate | intros [? _]; discriminate]].
  destruct (history p) as [| d]; cbn [check_workflow_status];
    [split; [discriminate | intros [_ ?]; discriminate] |].
  unfold check_workflow_status, failed, says_completed, node_13_videos, queue_clear.
  destruct (status d) as [[[s |] msgs done] |]; cbn [status_str messages completed];
    try destruct (String.eqb s "error"); try destruct done;
    destruct (outputs d) as [outs |];
    try destruct (table_get outs "13") as [o |];
    cbn [default from_option id gifs videos has_files orb andb negb];
    try destruct (has_files (gifs o) || has_files (videos o));
    destruct (executed d);
    destruct (queue p) as [text | code running pending];
    try destruct (code =? 200);
    try destruct (prompt_ids running) as [t1 | ids1];
    try destruct (prompt_ids pending) as [t2 | ids2];
    try destruct (id_in (prompt_id c) ids1 || id_in (prompt_id c) ids2);
    repeat match goal with
           | |- context [Py.truthy_str ?t] => destruct (Py.truthy_str t)
           end;
    cbn [orb andb negb];
    (split; [first [discriminate | intros _; split; reflexivity]
            | first [intros [_ H]; discriminate H | reflexivity]]).
Qed.

Lemma step_continue (c : call) (p : poll) (slept : Q) :
  step c p = Continue slept -> slept = 30%Q /\ in_time c p = true.
Proof.
  unfold step. destruct (in_time c p); [| discriminate].
  destruct (check_workflow_status _ _ _) as [[done d] err].
  destruct (match err with Some _ => _ | None => _ end); [discriminate |].
  destruct done; [discriminate |]. intros [= <-]. auto.
Qed.

Lemma sonic_run_true_poll (c : call) (polls : list poll) :
  run c polls = Returned true ->
  exists pre p post,
    polls = pre ++ p :: post /\ shows_done (prompt_id c) p = true /\
    Forall (fun q => in_time c q = true) (pre ++ [p]) /\
    Forall (fun q => step c q = Continue 30) pre.
Proof.
  induction polls as [| p rest IH]; cbn [run]; [discriminate |].
  destruct (step c p) as [[] | slept] eqn:E; try discriminate.
  - intros _. apply sonic_step_true_iff in E as [Ht Hd].
    exists [], p, rest. repeat split; try assumption; repeat constructor. exact Ht.
  - intros H. destruct (IH H) as (pre & q & post & -> & Hd & Ht & Hc).
    pose proof (step_continue _ _ _ E) as [-> Hin].
    exists (p :: pre), q, post. repeat split; try assumption;
      constructor; assumption.
Qed.

(** X15. The tracker of script 002 returns [True] from an iteration
    exactly when the budget is not spent and the poll shows the job done: its
    status is not "error", and either the status says completed, or there are
    outputs with a video under node 13 or the "executed" mark while the queue
    reply, if it is a 200, lists the job neither as running nor as pending. A
    status that says "error" ends the wait with [False] at once, also when it
    says completed as well. A [True] return of the whole wait therefore comes
    from a poll that shows the job done; it and every poll before it were
    read within the budget, and each poll before it was followed by a sleep
    of 30 seconds. *)
Theorem done_only_when_shown :
  (forall c p,
     step c p = Return true <->
     in_time c p = true /\ shows_done (prompt_id c) p = true) /\
  (forall c p d,
     in_time c p = true -> history p = HistoryData d -> failed d = true ->
     step c p = Return false) /\
  (forall c polls,
     wait_for_workflow_completion c polls = Returned true ->
     exists pre p post,
       polls = pre ++ p :: post /\ shows_done (prompt_id c) p = true /\
       Forall (fun q => in_time c q = true) (pre ++ [p]) /\
       Forall (fun q => step c q = Continue 30) pre).
Proof.
  split; [exact sonic_step_true_iff |]. split; [exact failed_step | exact sonic_run_true_poll].
Qed.

Lemma done_only_when_shown_witness :
  exists pre p post,
    finishing_polls = pre ++ p :: post /\ shows_done "p" p = true /\
    Forall (fun q => in_time demo_call q = true) (pre ++ [p]) /\
    Forall (fun q => step demo_call q = Continue 30) pre.
Proof.
  apply (proj2 (proj2 done_only_when_shown) demo_call finishing_polls).
  vm_compute. reflexivity.
Defined.

(** *** The budget *)







End SonicTrackerFacts.

(** ** The base64 cache of script 006 *)

Module WanMainFacts.
Import Wan WanMain.

Section Cache.

Variable b64encode : list Byte.byte -> string.
Variable suffix : string -> string.

(** X12. What was stored can be loaded: when [store_video_as_base64]
    returns a path, it is [cache_dir/<filename>.b64], and a later
    [load_video_from_base64] for the same directory and file name, on the
    disk the store left and with no refusal of the system, returns the data
    URL of the clip: its mime type, video/mp4 for a lower-cased suffix of
    ".mp4" and video/webm otherwise, and the base64 text of the bytes the
    clip had. No other file is touched. *)
Theorem cache_round_trip (video_path cache_dir filename : string)
    (flt flt' : faults) (d : disk) (cache_file : string) :
  let result := store_video_as_base64 b64encode suffix video_path cache_dir filename flt d in
  fst result = Some cache_file ->
  open_raises flt' = false ->
  cache_file = path_join cache_dir (filename +:+ ".b64") /\
  (exists video_data,
     files d !! video_path = Some video_data /\
     load_video_from_base64 cache_dir filename flt' (snd result) =
       Some (data_url_of b64encode suffix video_path video_data)) /\
  (forall other, other <> cache_file ->
     files (snd result) !! other = files d !! other).
Proof.
  cbv zeta. unfold store_video_as_base64, makedirs.
  destruct (makedirs_raises flt); [discriminate |].
  destruct (Py.truthy_str cache_dir); [| discriminate].
  destruct (open_raises flt); [discriminate |]. unfold add_dirs. cbn [files dirs].
  destruct (files d !! video_path) as [video_data |] eqn:Ev; [| discriminate].
  cbn [fst snd]. intros [= <-] Hopen. split; [reflexivity |]. split.
  - exists video_data. split; [reflexivity |].
    unfold load_video_from_base64, path_exists. cbn [files dirs].
    rewrite Hopen, lookup_insert_eq, string_of_list_byte_of_string.
    rewrite bool_decide_eq_true_2; [reflexivity |].
    apply elem_of_dom. rewrite lookup_insert_eq. eauto.
  - intros other Hne. apply lookup_insert_ne. congruence.
Qed.

End Cache.

Lemma cache_round_trip_witness :
  let result := store_video_as_base64 plain_encode dot_suffix "out/clip.mp4" "cache"
                  "clip.mp4" no_faults clip_disk in
  "cache/clip.mp4.b64" = path_join "cache" ("clip.mp4" +:+ ".b64") /\
  (exists video_data,
     files clip_disk !! "out/clip.mp4" = Some video_data /\
     load_video_from_base64 "cache" "clip.mp4" no_faults (snd result) =
       Some (data_url_of plain_encode dot_suffix "out/clip.mp4" video_data)) /\
  (forall other, other <> "cache/clip.mp4.b64" ->
     files (snd result) !! other = files clip_disk !! other).
Proof.
  apply (cache_round_trip plain_encode dot_suffix "out/clip.mp4" "cache" "clip.mp4"
           no_faults no_faults clip_disk "cache/clip.mp4.b64").
  - vm_compute. reflexivity.
  - reflexivity.
Defined.

End WanMainFacts.

(** ** The validation and the injector of script 005 *)

Module HiDreamGraphSpec.
Import Store HiDreamGraph.

(** *** Programs that only read *)

Lemma quiet_ret {A} (a : A) : quiet (ret a).
Proof. intros h. reflexivity. Qed.

Lemma quiet_read {A} (f : heap -> outcome A) : quiet (read f).
Proof. intros h. reflexivity. Qed.

Lemma quiet_bind {A B} (m : M A) (f : A -> M B) :
  quiet m -> (forall a, quiet (f a)) -> quiet (bind m f).
Proof.
  intros Hm Hf h. unfold bind. specialize (Hm h).
  destruct (m h) as [[a | e] h1]; cbn [snd] in Hm; subst h1;
    [apply Hf | reflexivity].
Qed.

Lemma quiet_if {A} (b : bool) (m1 m2 : M A) :
  quiet m1 -> quiet m2 -> quiet (if b then m1 else m2).
Proof. destruct b; auto. Qed.

Ltac hush :=
  repeat first
    [ apply quiet_ret | apply quiet_read
    | apply quiet_bind; [| intros ?]
    | apply quiet_if ].

Lemma quiet_is_prompt_node (node : value) (title : string) :
  quiet (is_prompt_node node title).
Proof. unfold is_prompt_node, getitem_str, get. hush. Qed.

Lemma quiet_note_node (node : value) (found : required) :
  quiet (note_node node found).
Proof.
  unfold note_node, getitem_str.
  repeat first
    [ apply quiet_is_prompt_node | apply quiet_ret | apply quiet_read
    | apply quiet_bind; [| intros ?]
    | apply quiet_if ].
Qed.

Lemma quiet_note_nodes (nodes : list value) :
  forall found, quiet (note_nodes nodes found).
Proof.
  induction nodes as [| node rest IH]; intros found; cbn [note_nodes].
  - apply quiet_ret.
  - apply quiet_bind; [apply quiet_note_node | intros found'; apply IH].
Qed.

Lemma quiet_validate_workflow (workflow : value) :
  quiet (validate_workflow workflow).
Proof.
  unfold validate_workflow, truthy, isinstance_dict, isinstance_list, contains,
    getitem_str, iterate.
  repeat first
    [ apply quiet_note_nodes | apply quiet_ret | apply quiet_read
    | apply quiet_bind; [| intros ?]
    | apply quiet_if ].
Qed.

(** *** What the scan of the nodes has seen *)

Lemma is_prompt_node_ok (node : value) (title : string) (b : bool) (h h1 : heap) :
  is_prompt_node node title h = (Ok b, h1) ->
  h1 = h /\
  exists type,
    getitem_str_pure h node "type" = Ok type /\
    b = eq_str type "CLIPTextEncode" && title_is h node title.
Proof.
  unfold is_prompt_node, title_is, bind, getitem_str, get, read, ret.
  destruct (getitem_str_pure h node "type") as [type | e]; [| discriminate].
  destruct (eq_str type "CLIPTextEncode") eqn:Ec.
  - destruct (get_pure h node "title" VNone) as [declared | e]; [| discriminate].
    intros [= <- <-]. split; [reflexivity |]. exists type. rewrite Ec. auto.
  - intros [= <- <-]. split; [reflexivity |]. exists type. rewrite Ec. auto.
Qed.

Lemma note_node_role (node : value) (found found' : required) (h h' : heap) :
  note_node node found h = (Ok found', h') ->
  forall r, flag found' r = true -> flag found r = true \/ role_of h node = Some r.
Proof.
  unfold note_node. intros H.
  apply SonicGraphSpec.bind_ok in H as (b1 & h1 & H1 & H).
  apply is_prompt_node_ok in H1 as (-> & type & Et & ->).
  unfold role_of. rewrite Et.
  destruct (eq_str type "CLIPTextEncode" && title_is h node "Positive Prompt").
  { apply SonicGraphSpec.ret_ok in H as [-> _]. intros [] Hr; cbn [flag] in *; auto. }
  apply SonicGraphSpec.bind_ok in H as (b2 & h2 & H2 & H).
  apply is_prompt_node_ok in H2 as (-> & type2 & Et2 & ->).
  rewrite Et in Et2. injection Et2 as <-.
  destruct (eq_str type "CLIPTextEncode" && title_is h node "Negative Prompt").
  { apply SonicGraphSpec.ret_ok in H as [-> _]. intros [] Hr; cbn [flag] in *; auto. }
  apply SonicGraphSpec.bind_ok in H as (t3 & h3 & H3 & H).
  apply SonicGraphSpec.read_ok in H3 as [-> H3]. rewrite Et in H3. injection H3 as <-.
  destruct (in_strs type ["KSampler"; "SONICSampler"]).
  { apply SonicGraphSpec.ret_ok in H as [-> _]. intros [] Hr; cbn [flag] in *; auto. }
  apply SonicGraphSpec.bind_ok in H as (t4 & h4 & H4 & H).
  apply SonicGraphSpec.read_ok in H4 as [-> H4]. rewrite Et in H4. injection H4 as <-.
  destruct (in_strs type ["EmptySD3LatentImage"; "EmptyLatentImage"]).
  { apply SonicGraphSpec.ret_ok in H as [-> _]. intros [] Hr; cbn [flag] in *; auto. }
  apply SonicGraphSpec.ret_ok in H as [-> _]. auto.
Qed.

Lemma note_nodes_role (nodes : list value) (h : heap) :
  forall found found' h',
    note_nodes nodes found h = (Ok found', h') ->
    forall r, flag found' r = true ->
      flag found r = true \/ exists node, In node nodes /\ role_of h node = Some r.
Proof.
  induction nodes as [| node rest IH]; intros found found' h' H r Hr;
    cbn [note_nodes] in H.
  - apply SonicGraphSpec.ret_ok in H as [-> _]. auto.
  - apply SonicGraphSpec.bind_ok in H as (mid & h1 & H1 & H).
    pose proof (quiet_note_node node found h) as Hq. rewrite H1 in Hq.
    cbn [snd] in Hq. subst h1.
    destruct (IH _ _ _ H r Hr) as [Hmid | (n & Hin & Hn)].
    + destruct (note_node_role _ _ _ _ _ H1 r Hmid) as [Hf | Hn]; [auto |].
      right. exists node. split; [left; reflexivity | exact Hn].
    + right. exists n. split; [right; exact Hin | exact Hn].
Qed.

Lemma missing_nil (found : required) :
  forall errors, errors ++ missing found = [] ->
  errors = [] /\ forall r, flag found r = true.
Proof.
  intros errors H. apply app_eq_nil in H as [-> H]. split; [reflexivity |].
  unfold missing in H. destruct found as [[] [] [] []]; try discriminate H.
  intros []; reflexivity.
Qed.

Lemma quiet_ok {A} (m : M A) (h h1 : heap) (a : outcome A) :
  quiet m -> m h = (a, h1) -> h1 = h.
Proof. intros Hq H. specialize (Hq h). rewrite H in Hq. exact Hq. Qed.

Ltac reads H a E :=
  let h1 := fresh "h" in
  apply SonicGraphSpec.bind_ok in H as (a & h1 & E & H);
  apply SonicGraphSpec.read_ok in E as [-> E].

Lemma valid_has_roles (workflow : value) (errors : list string) (h h' : heap) :
  validate_workflow workflow h = (Ok (true, errors), h') ->
  forall r, has_role h workflow r.
Proof.
  unfold validate_workflow. intros H.
  reads H given Eg. destruct given; cbn [negb] in H;
    [| apply SonicGraphSpec.ret_ok in H as [[=] _]].
  reads H is_dict Ed. destruct is_dict; cbn [negb] in H.
  2:{ reads H text Et. apply SonicGraphSpec.ret_ok in H as [[=] _]. }
  reads H has_nodes Eh.
  apply SonicGraphSpec.bind_ok in H as (errors1 & h1 & H1 & H).
  assert (Hfirst : h1 = h /\
            (errors1 = [] ->
             has_nodes = true /\
             exists nodes, getitem_str_pure h workflow "nodes" = Ok nodes /\
                           isinstance_pure false h nodes = Ok true)).
  { clear H. destruct has_nodes; cbn [negb] in H1;
      [| apply SonicGraphSpec.ret_ok in H1 as [-> ->]; split; [reflexivity | discriminate]].
    reads H1 nodes En. reads H1 is_list El. destruct is_list; cbn [negb] in H1.
    - reads H1 nodes' En'. reads H1 filled Ef.
      assert (h1 = h) as ->
        by (destruct filled; apply SonicGraphSpec.ret_ok in H1 as [_ ->]; reflexivity).
      split; [reflexivity |]. intros _. split; [reflexivity |]. eauto.
    - reads H1 nodes' En'. reads H1 text Et.
      apply SonicGraphSpec.ret_ok in H1 as [-> ->]. split; [reflexivity | discriminate]. }
  destruct Hfirst as [-> Hfirst].
  reads H has_nodes' Eh'. rewrite Eh in Eh'. injection Eh' as <-.
  apply SonicGraphSpec.bind_ok in H as (scan & h2 & H2 & H).
  apply SonicGraphSpec.bind_ok in H as (errors2 & h3 & H3 & H).
  apply SonicGraphSpec.ret_ok in H as [Hvalid _].
  assert (errors2 = []) as -> by (destruct errors2; [reflexivity | discriminate Hvalid]).
  clear Hvalid. destruct scan.
  - destruct has_nodes; [| apply SonicGraphSpec.ret_ok in H2 as [[=] _]].
    reads H2 nodes En. apply SonicGraphSpec.read_ok in H2 as [-> El].
    reads H3 nodes' En'. rewrite En in En'. injection En' as <-.
    reads H3 items Ei.
    apply SonicGraphSpec.bind_ok in H3 as (found & h4 & Hscan & H3).
    apply SonicGraphSpec.ret_ok in H3 as [Hnil _]. symmetry in Hnil.
    apply missing_nil in Hnil as [_ Hall].
    intros r. destruct (note_nodes_role _ _ _ _ _ Hscan r (Hall r)) as [Hf | (node & Hin & Hr)];
      [destruct r; discriminate Hf |].
    exists nodes, items, node. auto.
  - apply SonicGraphSpec.ret_ok in H3 as [<- _].
    destruct (Hfirst eq_refl) as (-> & nodes & En & El).
    reads H2 nodes' En'. rewrite En in En'. injection En' as <-.
    apply SonicGraphSpec.read_ok in H2 as [_ El']. congruence.
Qed.


(** X17. [update_text_to_image_workflow] of script 005 works only on a
    graph that passes [validate_workflow]. The validation only reads: it
    leaves the store as it finds it. When it finds the graph invalid the
    update raises [ValueError], and when the validation itself raises (a node
    that is no dict, or one without a "type") the update raises the same
    exception, the store being unchanged in both cases. When the update
    returns a graph, the graph handed in is a dict whose "nodes" list has a
    node of each required role: a CLIPTextEncode titled "Positive Prompt",
    one titled "Negative Prompt", a KSampler or SONICSampler, and an
    EmptySD3LatentImage or EmptyLatentImage. *)
Theorem update_refuses_invalid_graph (float_repr : Q -> string)
    (positive negative : string) (width height : Z) (seed : option Z) (steps : Z)
    (timestamp : string) (workflow : value) (h : heap) :
  let update :=
    update_text_to_image_workflow float_repr positive negative width height
      seed steps timestamp workflow in
  snd (validate_workflow workflow h) = h /\
  (forall errors,
     fst (validate_workflow workflow h) = Ok (false, errors) ->
     update h = (Exc ValueError, h)) /\
  (forall e,
     fst (validate_workflow workflow h) = Exc e -> update h = (Exc e, h)) /\
  (forall updated,
     fst (update h) = Ok updated -> forall r, has_role h workflow r).
Proof.
  cbv zeta. pose proof (quiet_validate_workflow workflow h) as Hq.
  split; [exact Hq |].
  unfold update_text_to_image_workflow, bind.
  destruct (validate_workflow workflow h) as [[[valid errors] | e] h1] eqn:E;
    cbn [fst snd] in *; subst h1.
  - split; [intros errors' [= -> <-]; reflexivity |].
    split; [discriminate |].
    intros updated Hu. destruct valid; [| discriminate Hu].
    eapply valid_has_roles, E.
  - split; [discriminate |]. split; [intros e' [= <-]; reflexivity |].
    discriminate.
Qed.

(** A graph with a positive prompt only is refused; the sample graph with
    the four roles has its sampler. *)
Lemma update_refuses_invalid_graph_witness :
  update_text_to_image_workflow Wan.plain_float_repr "a red fox, 4k" "dull"
    768 1024 (Some 42) 30 "20250101-120000" (VRef 1%positive) headless_graph
  = (Exc ValueError, headless_graph) /\
  has_role image_graph (VRef 1%positive) Sampler.
Proof.
  pose proof (update_refuses_invalid_graph Wan.plain_float_repr "a red fox, 4k"
                "dull" 768 1024 (Some 42) 30 "20250101-120000" (VRef 1%positive)
                headless_graph) as (_ & Hrefuse & _).
  pose proof (update_refuses_invalid_graph Wan.plain_float_repr "a red fox, 4k"
                "dull" 768 1024 (Some 42) 30 "20250101-120000" (VRef 1%positive)
                image_graph) as (_ & _ & _ & Hroles).
  cbv zeta in *. split.
  - eapply Hrefuse. vm_compute. reflexivity.
  - eapply Hroles. vm_compute. reflexivity.
Defined.

(** *** The original graph is left alone *)

Section Kept.
Import Frame FrameFacts.

Variable h0 : heap.
Variable float_repr : Q -> string.

Local Abbreviation old := (dom h0).
Local Abbreviation closed := (all_fresh (dom h0)).

Lemma quiet_safe {A} (m : M A) : quiet m -> safe h0 closed m (fun _ => True).
Proof.
  intros Hq h Hk. rewrite (Hq h). split; [exact Hk | intros; exact I].
Qed.

Lemma safe_set_widget (node : value) (i : Z) (v : value) :
  fresh_val old node -> fresh_val old v ->
  safe h0 closed (set_widget node i v) (fun _ => True).
Proof.
  intros Hn Hv. unfold set_widget.
  eapply safe_bind; [apply safe_getitem_str, Hn |]. intros widgets_values Hw.
  apply safe_setitem; [exact Hw | exact I | exact Hv].
Qed.

Lemma safe_widget_count (node : value) :
  safe h0 closed (widget_count node) (fun _ => True).
Proof.
  unfold widget_count. eapply safe_bind; [apply safe_read_any |].
  intros widgets_values _. apply safe_read_any.
Qed.

Lemma safe_hidream_update_node (positive negative : string) (width height : Z)
    (seed : option Z) (steps : Z) (timestamp : string) (node : value) :
  fresh_val old node ->
  safe h0 closed
    (update_node positive negative width height seed steps timestamp node)
    (fun _ => True).
Proof.
  intros Hn. unfold update_node.
  eapply safe_bind; [apply quiet_safe, quiet_is_prompt_node |]. intros [] _.
  { eapply safe_bind; [apply safe_read_any |]. intros [] _;
      [apply safe_set_widget; [exact Hn | exact I] | apply safe_ret; exact I]. }
  eapply safe_bind; [apply quiet_safe, quiet_is_prompt_node |]. intros [] _.
  { eapply safe_bind; [apply safe_read_any |]. intros [] _;
      [apply safe_set_widget; [exact Hn | exact I] | apply safe_ret; exact I]. }
  eapply safe_bind; [apply safe_read_any |]. intros type _.
  destruct (eq_str type "KSampler").
  { eapply safe_bind; [apply safe_read_any |]. intros [] _; [| apply safe_ret; exact I].
    eapply safe_bind with (R := fun _ => True).
    - destruct seed as [s |]; [| apply safe_ret; exact I].
      eapply safe_bind; [apply safe_widget_count |]. intros n _.
      destruct (0 <? n);
        [apply safe_set_widget; [exact Hn | exact I] | apply safe_ret; exact I].
    - intros _ _. eapply safe_bind; [apply safe_widget_count |]. intros n _.
      destruct (2 <? n);
        [apply safe_set_widget; [exact Hn | exact I] | apply safe_ret; exact I]. }
  eapply safe_bind; [apply safe_read_any |]. intros type' _.
  destruct (in_strs type' _).
  { eapply safe_bind; [apply safe_read_any |]. intros [] _; [| apply safe_ret; exact I].
    eapply safe_bind; [apply safe_widget_count |]. intros n _.
    destruct (2 <=? n); [| apply safe_ret; exact I].
    eapply safe_bind; [apply safe_set_widget; [exact Hn | exact I] |].
    intros _ _. apply safe_set_widget; [exact Hn | exact I]. }
  eapply safe_bind; [apply safe_read_any |]. intros type'' _.
  eapply safe_bind with (R := fun _ => True).
  { destruct (eq_str type'' "SaveImage"); [apply safe_read_any | apply safe_ret; exact I]. }
  intros [] _; [| apply safe_ret; exact I].
  eapply safe_bind; [apply safe_read_any |]. intros widgets_values _.
  eapply safe_bind; [apply safe_read_any |]. intros [] _;
    [apply safe_set_widget; [exact Hn | exact I] | apply safe_ret; exact I].
Qed.

Lemma safe_hidream_update_workflow (positive negative : string) (width height : Z)
    (seed : option Z) (steps : Z) (timestamp : string) (workflow : value) :
  safe h0 closed
    (update_text_to_image_workflow float_repr positive negative width height
       seed steps timestamp workflow)
    (fresh_val old).
Proof.
  unfold update_text_to_image_workflow.
  eapply safe_bind; [apply quiet_safe, quiet_validate_workflow |].
  intros validation _. destruct (negb (fst validation)); [apply safe_raise |].
  eapply safe_bind; [apply safe_read_any |]. intros text _.
  eapply safe_bind; [apply safe_loads |]. intros updated_workflow Hu.
  eapply safe_bind; [apply safe_read_any |]. intros nodes _.
  eapply safe_bind; [apply safe_read_any |]. intros n _.
  eapply safe_bind; [apply safe_getitem_str, Hu |]. intros nodes' Hn.
  eapply safe_bind; [apply safe_iterate, Hn |]. intros items Hi.
  eapply safe_bind with (R := fun _ => True); [| intros _ _; apply safe_ret; exact Hu].
  eapply safe_for_each; [exact Hi |]. intros x Hx.
  apply safe_hidream_update_node, Hx.
Qed.

End Kept.

(** X18. [update_text_to_image_workflow] of script 005 works on a copy:
    whether it returns or raises, every object that was in the store before
    the call is there afterwards with the content it had, and nothing
    reachable from the graph it returns existed before the call. *)
Theorem text_to_image_update_keeps_original (float_repr : Q -> string)
    (positive negative : string) (width height : Z) (seed : option Z) (steps : Z)
    (timestamp : string) (workflow : value) (h : heap) :
  let result :=
    update_text_to_image_workflow float_repr positive negative width height
      seed steps timestamp workflow h in
  (forall l o, h !! l = Some o -> snd result !! l = Some o) /\
  (forall updated, fst result = Ok updated ->
     forall l, reach (snd result) updated l -> h !! l = None).
Proof.
  destruct (FrameFacts.safe_run h _ _ _
              (safe_hidream_update_workflow h float_repr positive negative width
                 height seed steps timestamp workflow))
    as [Hk Hcopy].
  cbv zeta. split.
  - intros l o. eapply WanGraphSpec.kept_lookup, Hk.
  - intros updated Hu l Hr. apply not_elem_of_dom.
    eapply FrameFacts.reach_fresh; [exact Hk | apply Hcopy, Hu | exact Hr].
Qed.

(** On the sample graph the widgets of the sampler keep their seed of 7
    while those of the copy carry 42. *)
Lemma text_to_image_update_keeps_original_witness :
  let result :=
    update_text_to_image_workflow Wan.plain_float_repr "a red fox, 4k" "dull"
      768 1024 (Some 42) 30 "20250101-120000" (VRef 1%positive) image_graph in
  snd result !! 8%positive = Some (OList [VInt 7; VStr "fixed"; VInt 20]) /\
  snd result !! 15%positive = Some (OList [VInt 42; VStr "fixed"; VInt 30]) /\
  image_graph !! 15%positive = None.
Proof.
  pose proof (text_to_image_update_keeps_original Wan.plain_float_repr
                "a red fox, 4k" "dull" 768 1024 (Some 42) 30 "20250101-120000"
                (VRef 1%positive) image_graph)
    as [Hkeep Hnew].
  cbv zeta in *. split; [apply Hkeep; reflexivity |].
  split; [vm_compute; reflexivity |].
  apply (Hnew (VRef 20%positive)); [vm_compute; reflexivity |].
  eapply reach_part with (v := VRef 19%positive);
    [vm_compute; reflexivity | cbn; auto 10 |].
  eapply reach_part with (v := VRef 16%positive);
    [vm_compute; reflexivity | cbn; auto 10 |].
  eapply reach_part with (v := VRef 15%positive);
    [vm_compute; reflexivity | cbn; auto 10 | constructor].
Defined.

End HiDreamGraphSpec.

(** ** The address of the ComfyUI instance *)

Module Comput3Facts.
Import Comput3.

Lemma startswith_app (p s : string) : Py.startswith (p +:+ s) p = true.
Proof.
  induction p as [| c p IH]; [destruct s; reflexivity |].
  change (String c p +:+ s) with (String c (p +:+ s)). cbn [Py.startswith].
  rewrite Ascii.eqb_refl. exact IH.
Qed.

Lemma startswith_app_l (s p t : string) :
  Py.startswith s p = true -> Py.startswith (s +:+ t) p = true.
Proof.
  revert s. induction p as [| c p IH]; intros s; [intros _; destruct (s +:+ t); reflexivity |].
  destruct s as [| d s]; [discriminate |].
  change (String d s +:+ t) with (String d (s +:+ t)). cbn [Py.startswith].
  destruct (Ascii.eqb c d); [apply IH | discriminate].
Qed.

Lemma contains_app_l (s p t : string) :
  Py.contains s p = true -> Py.contains (s +:+ t) p = true.
Proof.
  induction s as [| d s IH]; cbn [Py.contains]; intros H.
  - rewrite orb_false_r in H. destruct p; [| discriminate H].
    destruct (EmptyString +:+ t); reflexivity.
  - apply orb_true_iff in H as [H | H].
    + change (String d s +:+ t) with (String d (s +:+ t)). cbn [Py.contains].
      apply orb_true_iff. left. apply (startswith_app_l (String d s) p t H).
    + change (String d s +:+ t) with (String d (s +:+ t)). cbn [Py.contains].
      apply orb_true_iff. right. apply IH, H.
Qed.

Lemma contains_app_r (s p t : string) :
  Py.contains t p = true -> Py.contains (s +:+ t) p = true.
Proof.
  intros H. induction s as [| d s IH]; [exact H |].
  change (String d s +:+ t) with (String d (s +:+ t)). cbn [Py.contains].
  apply orb_true_iff. right. exact IH.
Qed.

Lemma url_of_shape (node : string) :
  Py.startswith (url_of node) "https://ui-" = true /\
  Py.contains (url_of node) "comput3.ai" = true.
Proof.
  unfold url_of. destruct (Py.contains node "comput3.ai") eqn:E;
    (split; [apply startswith_app | apply contains_app_r]).
  - exact E.
  - apply contains_app_r. reflexivity.
Qed.

Lemma first_media (workloads : list workload) (w : workload) :
  match List.filter is_media workloads with
  | [] => None
  | instance :: _ => Some instance
  end = Some w <->
  exists pre post,
    workloads = pre ++ w :: post /\
    Forall (fun v => is_media v = false) pre /\ is_media w = true.
Proof.
  induction workloads as [| v rest IH]; cbn [List.filter].
  - split; [discriminate |]. intros (pre & post & H & _). destruct pre; discriminate H.
  - destruct (is_media v) eqn:E.
    + split.
      * intros [= <-]. exists [], rest. repeat split; [constructor | exact E].
      * intros (pre & post & H & Hpre & Hw). destruct pre as [| v' pre].
        -- injection H as -> _. reflexivity.
        -- injection H as <- _. inversion Hpre; congruence.
    + rewrite IH. split.
      * intros (pre & post & -> & Hpre & Hw). exists (v :: pre), post.
        repeat split; [constructor; assumption | exact Hw].
      * intros (pre & post & H & Hpre & Hw). destruct pre as [| v' pre].
        -- injection H as -> _. congruence.
        -- injection H as <- ->. inversion Hpre; subst. eauto.
Qed.

Lemma running_workloads (api_key : string) (reply : workloads_reply)
    (workloads : list workload) :
  workloads <> [] ->
  (get_running_workloads api_key reply = workloads <->
   Py.truthy_str api_key = true /\ reply = PostResponse 200 workloads).
Proof.
  intros Hne. unfold get_running_workloads.
  destruct (Py.truthy_str api_key); cbn [negb].
  - destruct reply as [| code ws].
    + split; [congruence | intros [_ [=]]].
    + destruct (Z.eqb_spec code 200) as [-> | Hc]; cbn [negb].
      * split; [intros ->; auto | intros [_ [= ->]]; reflexivity].
      * split; [congruence | intros [_ [= -> _]]; contradiction].
  - split; [congruence | intros [[=] _]].
Qed.

(** X19. [get_comfyui_url] answers with an address exactly when the API
    key is not empty, the workloads request is answered with a 200, the list
    has a workload whose type starts with "media", and the first such
    workload names its node; the address is then "https://ui-" followed by
    that node, with ".comput3.ai" appended unless the node already contains
    "comput3.ai". Workloads of another type before it, and media workloads
    after it, play no part. An address it returns starts with "https://ui-"
    and contains "comput3.ai", and the connection test never changes it. *)
Theorem comfyui_url_of_first_media (api_key : string) (reply : workloads_reply)
    (head : string -> head_reply) (url : string) :
  (fst (get_comfyui_url api_key reply head) = Some url <->
   Py.truthy_str api_key = true /\
   exists pre w post name,
     reply = PostResponse 200 (pre ++ w :: post) /\
     Forall (fun v => is_media v = false) pre /\ is_media w = true /\
     node w = Some name /\ url = url_of name) /\
  (fst (get_comfyui_url api_key reply head) = Some url ->
   Py.startswith url "https://ui-" = true /\
   Py.contains url "comput3.ai" = true /\
   forall head', fst (get_comfyui_url api_key reply head') = Some url).
Proof.
  assert (Hiff :
    forall hd, fst (get_comfyui_url api_key reply hd) = Some url <->
      Py.truthy_str api_key = true /\
      exists pre w post name,
        reply = PostResponse 200 (pre ++ w :: post) /\
        Forall (fun v => is_media v = false) pre /\ is_media w = true /\
        node w = Some name /\ url = url_of name).
  { intros hd. unfold get_comfyui_url, get_media_instance. split.
    - destruct (match List.filter _ _ with [] => None | i :: _ => Some i end)
        as [w |] eqn:E; [| discriminate].
      apply (first_media _ w) in E as (pre & post & Hw & Hpre & Hm).
      destruct (node w) as [name |] eqn:En; [| discriminate].
      cbn [fst]. intros [= <-].
      apply running_workloads in Hw as [Hkey ->]; [| destruct pre; discriminate].
      split; [exact Hkey |]. exists pre, w, post, name.
      repeat split; try assumption.
      unfold url_of. destruct (Py.contains name "comput3.ai"); reflexivity.
    - intros (Hkey & pre & w & post & name & -> & Hpre & Hm & En & ->).
      assert (E : get_running_workloads api_key (PostResponse 200 (pre ++ w :: post))
                  = pre ++ w :: post)
        by (apply running_workloads; [destruct pre; discriminate | auto]).
      rewrite E.
      assert (F : match List.filter is_media (pre ++ w :: post) with
                  | [] => None
                  | i :: _ => Some i
                  end = Some w) by (apply first_media; eauto).
      unfold is_media in F at 1. rewrite F, En. cbn [fst].
      unfold url_of. destruct (Py.contains name "comput3.ai"); reflexivity. }
  split; [apply Hiff |].
  intros H. apply Hiff in H. destruct H as (Hkey & pre & w & post & name & Hr & Hpre & Hm & En & Hu).
  pose proof (url_of_shape name) as [Hs Hc]. rewrite <- Hu in Hs, Hc.
  split; [exact Hs |]. split; [exact Hc |].
  intros head'. apply Hiff. split; [exact Hkey |]. exists pre, w, post, name. auto.
Qed.

(** The first media workload of the sample is the second of the list. *)
Lemma comfyui_url_of_first_media_witness :
  Py.startswith "https://ui-node-7.comput3.ai" "https://ui-" = true /\
  Py.contains "https://ui-node-7.comput3.ai" "comput3.ai" = true /\
  forall head',
    fst (get_comfyui_url "key" (PostResponse 200 demo_workloads) head')
    = Some "https://ui-node-7.comput3.ai".
Proof.
  apply (proj2 (comfyui_url_of_first_media "key" (PostResponse 200 demo_workloads)
                  unreachable "https://ui-node-7.comput3.ai")).
  vm_compute. reflexivity.
Defined.

End Comput3Facts.
